(** * amazon-s3-tar-tool: layout arithmetic of [utils.go] and of the manifest builder

    A shallow embedding of the integer and string code of package [s3tar]:
    the block padding, the multipart part-range solver, the CSV manifest
    with its re-estimation loop, the first-part builder, and the request
    building of the object-store helpers.

    Go's [int64] is a [Z] kept in range by [wrap64]; a Go call ends in an
    [outcome] (normal return, runtime panic, or [os.Exit] through
    [log.Fatal]); a [for] loop without a bound takes fuel and answers
    [None] when the fuel runs out. *)

From Stdlib Require Import ZArith List String Ascii Bool Lia Sorted Permutation.
Import ListNotations.

Local Open Scope Z_scope.

(** ** Go runtime: [int64] arithmetic and the ways a call can end *)

Definition wrap64 (z : Z) : Z := (z + 2 ^ 63) mod 2 ^ 64 - 2 ^ 63.

Definition add64 (a b : Z) : Z := wrap64 (a + b).
Definition sub64 (a b : Z) : Z := wrap64 (a - b).
Definition mul64 (a b : Z) : Z := wrap64 (a * b).
Definition neg64 (a : Z) : Z := wrap64 (- a).

(** Go's [/] on integers truncates toward zero; the caller checks the
    divisor, as the runtime does before dividing. *)
Definition quot64 (a b : Z) : Z := wrap64 (Z.quot a b).

Definition int64_range (z : Z) : Prop := - 2 ^ 63 <= z < 2 ^ 63.

Inductive panic : Type :=
| IntegerDivideByZero
| IndexOutOfRange
| NilPointerDereference.

(** [Fatal] is [log.Fatal]: the message is logged and the process exits
    with status 1. *)
Inductive outcome (A : Type) : Type :=
| Returned (a : A)
| Panicked (p : panic)
| Fatal (logged : string).

Arguments Returned {A} a.
Arguments Panicked {A} p.
Arguments Fatal {A} logged.

Definition bind {A B : Type} (o : outcome A) (k : A -> outcome B) : outcome B :=
  match o with
  | Returned a => k a
  | Panicked p => Panicked p
  | Fatal m => Fatal m
  end.

Notation "x <- c ;; k" := (bind c (fun x => k))
  (at level 61, c at next level, right associativity).

(** ** utils.go: findPadding *)

(** Modelled from the spec: the package constant [blockSize], declared in
    another file of the package, is the archive block size 512. *)
Definition blockSize : Z := 512.

Definition findPadding (offset : Z) : Z :=
  Z.land (neg64 offset) (sub64 blockSize 1).

(** ** utils.go: findMinMaxPartRange *)

Definition KB : Z := 1024.
Definition partsLimit : Z := 10000.
Definition partSizeMin : Z := mul64 (mul64 KB KB) 5.
Definition partSizeMax : Z := mul64 (mul64 (mul64 KB KB) KB) 5.

(** First loop: count [nPartsMax] down while the equal split is below
    [partSizeMin].  The division panics when the count has reached 0. *)
Fixpoint maxPartsLoop (fuel : nat) (curSize nPartsMax : Z) : option (outcome Z) :=
  match fuel with
  | O => None
  | S fuel' =>
      if nPartsMax =? 0 then Some (Panicked IntegerDivideByZero)
      else
        let nPartsMaxSize := quot64 curSize nPartsMax in
        if nPartsMaxSize <? partSizeMin
        then maxPartsLoop fuel' curSize (sub64 nPartsMax 1)
        else Some (Returned nPartsMax)
  end.

(** Second loop: count [nPartsMin] up while the equal split is above
    [partSizeMax]. *)
Fixpoint minPartsLoop (fuel : nat) (curSize nPartsMin : Z) : option (outcome Z) :=
  match fuel with
  | O => None
  | S fuel' =>
      if nPartsMin =? 0 then Some (Panicked IntegerDivideByZero)
      else
        let nPartsMinSize := quot64 curSize nPartsMin in
        if nPartsMinSize >? partSizeMax
        then minPartsLoop fuel' curSize (add64 nPartsMin 1)
        else Some (Returned nPartsMin)
  end.

Definition findMinMaxPartRange (fuel : nat) (objectSize : Z)
  : option (outcome (Z * Z * Z)) :=
  let curSize := objectSize in
  match maxPartsLoop fuel curSize partsLimit with
  | None => None
  | Some (Panicked p) => Some (Panicked p)
  | Some (Fatal m) => Some (Fatal m)
  | Some (Returned nPartsMax) =>
      match minPartsLoop fuel curSize 1 with
      | None => None
      | Some (Panicked p) => Some (Panicked p)
      | Some (Fatal m) => Some (Fatal m)
      | Some (Returned nPartsMin) =>
          let mid := quot64 nPartsMax 2 in
          Some (Returned (nPartsMin, nPartsMax, mid))
      end
  end.

(** ** fmt.Sprintf with the verb %d on an [int64] *)

Definition digitChar (d : Z) : ascii := ascii_of_nat (48 + Z.to_nat d).

(** The digit loop of [strconv]: least significant digit first, pushed in
    front of what has been produced.  Twenty rounds cover every 64-bit
    magnitude. *)
Fixpoint fmtUint (fuel : nat) (u : Z) (acc : string) : string :=
  match fuel with
  | O => acc
  | S fuel' =>
      let acc' := String (digitChar (u mod 10)) acc in
      if u / 10 =? 0 then acc' else fmtUint fuel' (u / 10) acc'
  end.

Definition fmtInt64 (i : Z) : string :=
  if i <? 0 then String "-"%char (fmtUint 20 (- i) EmptyString)
  else fmtUint 20 i EmptyString.

(** ** encoding/csv: Writer with the default comma and UseCRLF off *)

Module csv.

Definition quoteChar : ascii := ascii_of_nat 34.
Definition commaChar : ascii := ","%char.
Definition LF : ascii := ascii_of_nat 10.
Definition CR : ascii := ascii_of_nat 13.

Fixpoint containsSpecial (field : string) : bool :=
  match field with
  | EmptyString => false
  | String c rest =>
      Ascii.eqb c LF || Ascii.eqb c CR || Ascii.eqb c quoteChar
      || Ascii.eqb c commaChar || containsSpecial rest
  end.

(** [unicode.IsSpace] of the first rune, read off its UTF-8 bytes. *)
Definition firstRuneIsSpace (field : string) : bool :=
  match field with
  | EmptyString => false
  | String c0 rest =>
      let b0 := nat_of_ascii c0 in
      if ((9 <=? b0) && (b0 <=? 13))%nat || (b0 =? 32)%nat then true
      else
        match rest with
        | EmptyString => false
        | String c1 rest1 =>
            let b1 := nat_of_ascii c1 in
            if (b0 =? 194)%nat then (b1 =? 133)%nat || (b1 =? 160)%nat
            else
              match rest1 with
              | EmptyString => false
              | String c2 _ =>
                  let b2 := nat_of_ascii c2 in
                  if (b0 =? 225)%nat then (b1 =? 154)%nat && (b2 =? 128)%nat
                  else if (b0 =? 226)%nat then
                    ((b1 =? 128)%nat
                     && (((128 <=? b2) && (b2 <=? 138))%nat
                         || (b2 =? 168)%nat || (b2 =? 169)%nat || (b2 =? 175)%nat))
                    || ((b1 =? 129)%nat && (b2 =? 159)%nat)
                  else if (b0 =? 227)%nat then (b1 =? 128)%nat && (b2 =? 128)%nat
                  else false
              end
        end
  end.

Definition fieldNeedsQuotes (field : string) : bool :=
  match field with
  | EmptyString => false
  | _ =>
      if String.eqb field (String "\"%char (String "."%char EmptyString)) then true
      else containsSpecial field || firstRuneIsSpace field
  end.

(** Inside quotes only the quote character is changed: it is doubled. *)
Fixpoint escapeQuotes (field : string) : string :=
  match field with
  | EmptyString => EmptyString
  | String c rest =>
      if Ascii.eqb c quoteChar
      then String quoteChar (String quoteChar (escapeQuotes rest))
      else String c (escapeQuotes rest)
  end.

Definition writeField (field : string) : string :=
  if fieldNeedsQuotes field
  then String quoteChar (escapeQuotes field ++ String quoteChar EmptyString)
  else field.

Fixpoint writeFields (first : bool) (record : list string) : string :=
  match record with
  | [] => String LF EmptyString
  | field :: record' =>
      (if first then writeField field else String commaChar (writeField field))
      ++ writeFields false record'
  end.

Definition Write (record : list string) : string := writeFields true record.

Fixpoint WriteAll (records : list (list string)) : string :=
  match records with
  | [] => EmptyString
  | record :: records' => Write record ++ WriteAll records'
  end.

End csv.

(** ** S3Obj *)

Record S3Obj : Type := {
  Key : string;
  ETag : string;
  Size : Z;
  Bucket : string;
  PartNum : Z;
  Data : list Byte.byte;
  NoHeaderRequired : bool
}.

(** ** The manifest: createCSVManifest and _buildManifest *)

(** The body of the [for i] loop.  [headers[i]] is read for every index of
    [objectList]; a shorter [headers] ends the call in an index panic. *)
Fixpoint manifestLines (currLocation : Z) (headers objectList : list S3Obj)
  {struct objectList} : outcome (list (list string)) :=
  match objectList with
  | [] => Returned []
  | obj :: objectList' =>
      match headers with
      | [] => Panicked IndexOutOfRange
      | hdr :: headers' =>
          let currLocation := add64 currLocation (Size hdr) in
          let line :=
            [Key obj; fmtInt64 currLocation; fmtInt64 (Size obj); ETag obj] in
          manifest <- manifestLines (add64 currLocation (Size obj)) headers' objectList' ;;
          Returned (line :: manifest)
      end
  end.

Definition manifestStart (offset : Z) : Z :=
  let currLocation := add64 offset 512 in
  add64 currLocation (findPadding currLocation).

Definition createCSVManifest (offset : Z) (headers objectList : list S3Obj)
  : outcome string :=
  manifest <- manifestLines (manifestStart offset) headers objectList ;;
  Returned (csv.WriteAll manifest).

Definition bufLen (data : string) : Z := wrap64 (Z.of_nat (String.length data)).

(** [lp := l + findPadding(l)] for the length [l] of a serialization. *)
Definition paddedLen (data : string) : Z :=
  let l := bufLen data in
  add64 l (findPadding l).

(** One pass of the [for] loop of [_buildManifest]: the serialization at the
    current estimate, and the next estimate when the loop goes on. *)
Definition reestimate (estimate : Z) (headers objectList : list S3Obj)
  : outcome (string * option Z) :=
  data <- createCSVManifest estimate headers objectList ;;
  let lp := paddedLen data in
  Returned (data, if lp >=? estimate then None else Some lp).

Fixpoint estimateLoop (fuel : nat) (estimate : Z) (headers objectList : list S3Obj)
  : option (outcome string) :=
  match fuel with
  | O => None
  | S fuel' =>
      match reestimate estimate headers objectList with
      | Returned (data, None) => Some (Returned data)
      | Returned (_, Some lp) => estimateLoop fuel' lp headers objectList
      | Panicked p => Some (Panicked p)
      | Fatal m => Some (Fatal m)
      end
  end.

Definition _buildManifest (fuel : nat) (headers objectList : list S3Obj)
  : option (outcome string) :=
  match createCSVManifest 0 headers objectList with
  | Returned data => estimateLoop fuel (bufLen data) headers objectList
  | Panicked p => Some (Panicked p)
  | Fatal m => Some (Fatal m)
  end.

(** The values [estimate] takes at the head of successive passes. *)
Fixpoint estimateTrace (fuel : nat) (estimate : Z) (headers objectList : list S3Obj)
  : list Z :=
  estimate ::
  match fuel with
  | O => []
  | S fuel' =>
      match reestimate estimate headers objectList with
      | Returned (_, Some lp) => estimateTrace fuel' lp headers objectList
      | _ => []
      end
  end.

(** ** The first part: buildFirstPart *)

Module tar.

Inductive format : Type := FormatUnknown | FormatUSTAR | FormatPAX | FormatGNU.

Record Header : Type := {
  Name : string;
  Mode : Z;
  Size : Z;
  ModTime : Z;
  ChangeTime : Z;
  AccessTime : Z;
  Format : format
}.

End tar.

(** The time stamp [LastModified] is not kept. *)
Definition NewS3Obj : S3Obj :=
  {| Key := EmptyString; ETag := EmptyString; Size := 0; Bucket := EmptyString;
     PartNum := 0; Data := []; NoHeaderRequired := false |}.

Section FirstPart.

(** What the package and its libraries supply: the package variable [pad]
    written in front of the header, the header encoder of archive/tar
    (its block, or the error [WriteHeader] gives back), the hexadecimal
    MD5 of [AddData], and the three clock readings. *)
Variable pad : list Byte.byte.
Variable tarWriteHeader : tar.Header -> list Byte.byte + string.
Variable md5hex : list Byte.byte -> string.
Variables modTime changeTime accessTime : Z.

Definition AddData (s : S3Obj) (data : list Byte.byte) : S3Obj :=
  {| Key := Key s; ETag := md5hex data; Size := wrap64 (Z.of_nat (List.length data));
     Bucket := Bucket s; PartNum := PartNum s; Data := data;
     NoHeaderRequired := NoHeaderRequired s |}.

Definition trailingPad (csvData : list Byte.byte) : Z :=
  let padding := findPadding (wrap64 (Z.of_nat (List.length csvData))) in
  if padding =? 0 then blockSize else padding.

Definition firstPartHeader (csvData : list Byte.byte) : tar.Header :=
  {| tar.Name := "manifest.csv"; tar.Mode := 384 (* 0600 *);
     tar.Size := wrap64 (Z.of_nat (List.length csvData));
     tar.ModTime := modTime; tar.ChangeTime := changeTime;
     tar.AccessTime := accessTime; tar.Format := tar.FormatGNU |}.

Definition buildFirstPart (csvData : list Byte.byte) : outcome S3Obj :=
  let hdr := firstPartHeader csvData in
  let buf := pad in
  match tarWriteHeader hdr with
  | inr err => Fatal err
  | inl block =>
      let buf := buf ++ block in
      let buf := buf ++ csvData in
      let padding := trailingPad csvData in
      let lastBytes := repeat Byte.x00 (Z.to_nat padding) in
      let buf := buf ++ lastBytes in
      Returned (AddData NewS3Obj buf)
  end.

End FirstPart.

(** ** utils.go: the object-store helpers *)

Module GetObjectInput.
Record t : Type := { Key : string; Bucket : string; Range : option string }.
End GetObjectInput.

Module GetObjectOutput.
Record t : Type := { Body : list Byte.byte }.
End GetObjectOutput.

Module DeleteError.
Record t : Type := { Key : string; Code : string; Message : string }.
End DeleteError.

Module DeleteObjectsInput.
(** [Delete.Objects] is kept as the list of its keys. *)
Record t : Type := { Bucket : string; Quiet : bool; Objects : list string }.
End DeleteObjectsInput.

Module DeleteObjectsOutput.
Record t : Type := { Errors : list DeleteError.t }.
End DeleteObjectsOutput.

Definition byteRange (start end_ : Z) : string :=
  "bytes=" ++ fmtInt64 start ++ "-" ++ fmtInt64 end_.

Definition getObjectParams (bucket key : string) (start end_ : Z) : GetObjectInput.t :=
  let params :=
    {| GetObjectInput.Key := key; GetObjectInput.Bucket := bucket;
       GetObjectInput.Range := None |} in
  if negb (end_ =? 0)
  then {| GetObjectInput.Key := GetObjectInput.Key params;
          GetObjectInput.Bucket := GetObjectInput.Bucket params;
          GetObjectInput.Range := Some (byteRange start end_) |}
  else params.

Section Store.

(** The store answers a read with an output, an error, or both absent or
    present, as the Go signature allows; [output.Body] on an absent output
    is a nil dereference. *)
Variable GetObject : GetObjectInput.t -> option GetObjectOutput.t * option string.

Definition getObjectRange (bucket key : string) (start end_ : Z)
  : outcome (list Byte.byte * option string) :=
  let params := getObjectParams bucket key start end_ in
  let '(output, err) := GetObject params in
  match err with
  | Some e =>
      match output with
      | None => Panicked NilPointerDereference
      | Some out => Returned (GetObjectOutput.Body out, Some e)
      end
  | None =>
      match output with
      | None => Panicked NilPointerDereference
      | Some out => Returned (GetObjectOutput.Body out, None)
      end
  end.

Definition getObject (bucket key : string) : outcome (list Byte.byte * option string) :=
  getObjectRange bucket key 0 0.

(** The store answers a batch deletion, given the requests it has served
    so far, with a response or with a request error. *)
Variable DeleteObjects :
  list DeleteObjectsInput.t -> DeleteObjectsInput.t -> DeleteObjectsOutput.t + string.

(** The state threaded through is the list of requests sent.  The context
    is taken to carry a client. *)
Definition _deleteObjectList (calls : list DeleteObjectsInput.t) (objectList : list S3Obj)
  : list DeleteObjectsInput.t * outcome (option string) :=
  let objects := map Key objectList in
  match objectList with
  | [] => (calls, Panicked IndexOutOfRange)
  | first :: _ =>
      let params :=
        {| DeleteObjectsInput.Bucket := Bucket first;
           DeleteObjectsInput.Quiet := true;
           DeleteObjectsInput.Objects := objects |} in
      match DeleteObjects calls params with
      | inr err => (calls ++ [params], Returned (Some err))
      | inl response =>
          if (0 <? List.length (DeleteObjectsOutput.Errors response))%nat
          then (calls ++ [params], Fatal "Error deleting objects")
          else (calls ++ [params], Returned None)
      end
  end.

Definition batch : nat := 1000.

Fixpoint deleteLoop (fuel : nat) (i : nat) (calls : list DeleteObjectsInput.t)
  (objectList : list S3Obj)
  : option (list DeleteObjectsInput.t * outcome (option string)) :=
  match fuel with
  | O => None
  | S fuel' =>
      if (i <? List.length objectList)%nat then
        let start := i in
        let end_ := (i + batch)%nat in
        let end_ := if (List.length objectList <=? end_)%nat then List.length objectList else end_ in
        let part := firstn (end_ - start) (skipn start objectList) in
        match _deleteObjectList calls part with
        | (calls', Returned None) => deleteLoop fuel' (i + batch)%nat calls' objectList
        | (calls', Returned (Some err)) => Some (calls', Returned (Some err))
        | (calls', Panicked p) => Some (calls', Panicked p)
        | (calls', Fatal m) => Some (calls', Fatal m)
        end
      else Some (calls, Returned None)
  end.

Definition deleteObjectList (fuel : nat) (objectList : list S3Obj)
  : option (list DeleteObjectsInput.t * outcome (option string)) :=
  deleteLoop fuel 0%nat [] objectList.

End Store.

(** ** utils.go: StringToInt64 *)

(** strconv.ParseUint and strconv.ParseInt at base 10 and bit size 64.  A
    range error carries the clamped value, a syntax error the value 0. *)
Module strconv.

Inductive NumError : Type := ErrSyntax | ErrRange.

Definition maxUint64 : Z := 2 ^ 64 - 1.

(** [lower(c)] is [c | ('x' - 'X')]. *)
Definition lower (c : Z) : Z := Z.lor c 32.

(** The loop over the bytes of [s], with [n] the value read so far. *)
Fixpoint parseUintLoop (s : string) (n : Z) : Z * option NumError :=
  match s with
  | EmptyString => (n, None)
  | String ch rest =>
      let c := Z.of_nat (nat_of_ascii ch) in
      let digit :=
        if (48 <=? c) && (c <=? 57) then Some (c - 48)
        else if (97 <=? lower c) && (lower c <=? 122) then Some (lower c - 97 + 10)
        else None in
      match digit with
      | None => (0, Some ErrSyntax)
      | Some d =>
          if d >=? 10 then (0, Some ErrSyntax)
          else if n >=? maxUint64 / 10 + 1 then (maxUint64, Some ErrRange)
          else
            let n := (n * 10) mod 2 ^ 64 in
            let n1 := (n + d) mod 2 ^ 64 in
            if (n1 <? n) || (n1 >? maxUint64) then (maxUint64, Some ErrRange)
            else parseUintLoop rest n1
      end
  end.

Definition ParseUint (s : string) : Z * option NumError :=
  match s with
  | EmptyString => (0, Some ErrSyntax)
  | _ => parseUintLoop s 0
  end.

Definition ParseInt (s : string) : Z * option NumError :=
  match s with
  | EmptyString => (0, Some ErrSyntax)
  | String c0 rest =>
      let '(neg, s) :=
        if Ascii.eqb c0 "+"%char then (false, rest)
        else if Ascii.eqb c0 "-"%char then (true, rest)
        else (false, String c0 rest) in
      let '(un, err) := ParseUint s in
      match err with
      | Some ErrSyntax => (0, Some ErrSyntax)
      | _ =>
          let cutoff := 2 ^ 63 in
          if negb neg && (un >=? cutoff) then (cutoff - 1, Some ErrRange)
          else if neg && (un >? cutoff) then (- cutoff, Some ErrRange)
          else
            let n := wrap64 un in
            let n := if neg then neg64 n else n in
            (n, None)
      end
  end.

End strconv.

Definition StringToInt64 (s : string) : Z * option strconv.NumError :=
  let '(i, err) := strconv.ParseInt s in
  match err with
  | Some e => (0, Some e)
  | None => (i, None)
  end.

(** ** utils.go: byPartNum *)

(** [a[i]] for a Go [int] index. *)
Definition index {A : Type} (a : list A) (i : Z) : outcome A :=
  if i <? 0 then Panicked IndexOutOfRange
  else
    match nth_error a (Z.to_nat i) with
    | Some x => Returned x
    | None => Panicked IndexOutOfRange
    end.

(** [a[i] = x] on an index that is in range. *)
Fixpoint assign {A : Type} (a : list A) (i : nat) (x : A) : list A :=
  match a, i with
  | [], _ => []
  | _ :: a', O => x :: a'
  | y :: a', S i' => y :: assign a' i' x
  end.

Module byPartNum.

Definition Len (a : list S3Obj) : Z := Z.of_nat (List.length a).

(** [a[i], a[j] = a[j], a[i]]: both operands are read, then both written. *)
Definition Swap (a : list S3Obj) (i j : Z) : outcome (list S3Obj) :=
  aj <- index a j ;;
  ai <- index a i ;;
  Returned (assign (assign a (Z.to_nat i) aj) (Z.to_nat j) ai).

Definition Less (a : list S3Obj) (i j : Z) : outcome bool :=
  ai <- index a i ;;
  aj <- index a j ;;
  Returned (PartNum ai <? PartNum aj).

End byPartNum.

(** ** utils.go: listAllObjects *)

(** An object of a listing.  The store gives every listed object a key, so
    [Key] is the string that the pointer of the SDK refers to; a listing
    with a nil key is outside this model. *)
Module Object.
Record t : Type := { Key : string; ETag : string; Size : Z }.
End Object.

(** The paginator is the list of the pages still to come, each the contents
    of a page or the error of its request.  The first loop appends page
    after page and stops at the end or at the first error, which it logs. *)
Fixpoint collectPages (pages : list (list Object.t + string))
  (objectList : list Object.t) (logged : list string)
  : list Object.t * list string :=
  match pages with
  | [] => (objectList, logged)
  | inr err :: _ => (objectList, logged ++ [err])
  | inl contents :: pages' => collectPages pages' (objectList ++ contents) logged
  end.

(** [name[len(name)-1]], where there is one. *)
Fixpoint lastByte (name : string) : option ascii :=
  match name with
  | EmptyString => None
  | String c EmptyString => Some c
  | String _ rest => lastByte rest
  end.

(** The second loop: keys that end in a slash are left out; the last byte
    of an empty key is out of range. *)
Fixpoint filterPaths (objectList : list Object.t) : outcome (list Object.t) :=
  match objectList with
  | [] => Returned []
  | obj :: objectList' =>
      match lastByte (Object.Key obj) with
      | None => Panicked IndexOutOfRange
      | Some c =>
          if Ascii.eqb c "/"%char then filterPaths objectList'
          else
            cleanList <- filterPaths objectList' ;;
            Returned (obj :: cleanList)
      end
  end.

(** The third loop, from index [i] on. *)
Fixpoint numberFrom (i : Z) (bucket : string) (cleanList : list Object.t) : list S3Obj :=
  match cleanList with
  | [] => []
  | obj :: cleanList' =>
      {| Key := Object.Key obj; ETag := Object.ETag obj; Size := Object.Size obj;
         Bucket := bucket; PartNum := add64 i 1; Data := [];
         NoHeaderRequired := false |}
      :: numberFrom (add64 i 1) bucket cleanList'
  end.

Definition listAllObjects (pages : list (list Object.t + string)) (bucket : string)
  : list string * outcome (list S3Obj) :=
  let '(objectList, logged) := collectPages pages [] [] in
  (logged,
   cleanList <- filterPaths objectList ;;
   Returned (numberFrom 0 bucket cleanList)).

(** ** utils.go: ExtractBucketAndPath *)

(** The part of package regexp that the pattern needs: literals, the dot
    (any character but a line feed), a negated one-character class, greedy
    star and question mark, and capture groups, matched with the
    preferences of a backtracking search.  A rune of several bytes holds
    neither a slash nor a line feed, so matching byte by byte captures the
    same spans as matching rune by rune. *)
Module regexp.

Inductive syntax : Type :=
| Lit (c : ascii)
| AnyNotNL
| NotChar (c : ascii)
| Cat (r1 r2 : syntax)
| Star (r : syntax)
| Quest (r : syntax)
| Cap (n : nat) (r : syntax).

Definition submatches : Type := list (nat * string).

(** What lies between the text [s] and its rest [s']. *)
Definition consumed (s s' : string) : string :=
  String.substring 0 (String.length s - String.length s') s.

(** One round of a greedy star: take the body once more if that makes
    progress and the rest of the pattern then matches, else go on with the
    rest of the pattern.  A text of [n] bytes allows at most [n] rounds. *)
Fixpoint starLoop
  (body : string -> submatches -> (string -> submatches -> option submatches)
          -> option submatches)
  (k : string -> submatches -> option submatches)
  (fuel : nat) (s : string) (caps : submatches) {struct fuel} : option submatches :=
  match fuel with
  | O => k s caps
  | S fuel' =>
      match body s caps
              (fun s' caps' =>
                 if (String.length s' <? String.length s)%nat
                 then starLoop body k fuel' s' caps' else None) with
      | Some found => Some found
      | None => k s caps
      end
  end.

Fixpoint run (r : syntax) (s : string) (caps : submatches)
  (k : string -> submatches -> option submatches) {struct r} : option submatches :=
  match r with
  | Lit c =>
      match s with
      | String c' s' => if Ascii.eqb c c' then k s' caps else None
      | EmptyString => None
      end
  | AnyNotNL =>
      match s with
      | String c' s' => if Ascii.eqb c' (ascii_of_nat 10) then None else k s' caps
      | EmptyString => None
      end
  | NotChar c =>
      match s with
      | String c' s' => if Ascii.eqb c c' then None else k s' caps
      | EmptyString => None
      end
  | Cat r1 r2 => run r1 s caps (fun s' caps' => run r2 s' caps' k)
  | Star r' => starLoop (run r') k (String.length s) s caps
  | Quest r' =>
      match run r' s caps k with
      | Some found => Some found
      | None => k s caps
      end
  | Cap n r' => run r' s caps (fun s' caps' => k s' ((n, consumed s s') :: caps'))
  end.

(** The leftmost match: the first position from which the pattern matches. *)
Fixpoint find (r : syntax) (s : string) : option submatches :=
  match run r s [] (fun _ caps => Some caps) with
  | Some caps => Some caps
  | None =>
      match s with
      | EmptyString => None
      | String _ s' => find r s'
      end
  end.

Fixpoint group (n : nat) (caps : submatches) : string :=
  match caps with
  | [] => EmptyString
  | (m, text) :: caps' => if (m =? n)%nat then text else group n caps'
  end.

End regexp.

(** The pattern compiled into [extractS3]: the text s3://, a first group of
    one character and the longest run without a slash, a slash if there is
    one, and a second group of the rest of the line. *)
Definition extractS3 : regexp.syntax :=
  regexp.Cat (regexp.Lit "s") (regexp.Cat (regexp.Lit "3") (regexp.Cat (regexp.Lit ":")
  (regexp.Cat (regexp.Lit "/") (regexp.Cat (regexp.Lit "/")
  (regexp.Cat (regexp.Cap 1 (regexp.Cat regexp.AnyNotNL (regexp.Star (regexp.NotChar "/"))))
  (regexp.Cat (regexp.Quest (regexp.Lit "/"))
              (regexp.Cap 2 (regexp.Star regexp.AnyNotNL)))))))).

(** [parts[0]] is the leftmost match; it always has its three entries. *)
Definition ExtractBucketAndPath (s3url : string) : string * string :=
  match regexp.find extractS3 s3url with
  | Some caps => (regexp.group 1 caps, regexp.group 2 caps)
  | None => (EmptyString, EmptyString)
  end.

(** ** utils.go: loadFile *)

(** strings.Contains *)
Fixpoint Contains (s substr : string) : bool :=
  String.prefix substr s
  || match s with
     | EmptyString => false
     | String _ s' => Contains s' substr
     end.

Section Files.

Variable GetObject : GetObjectInput.t -> option GetObjectOutput.t * option string.

(** os.Open: the file and the error it gives. *)
Variable osOpen : string -> list Byte.byte * option string.

Definition loadFile (path : string) : outcome (list Byte.byte * option string) :=
  if Contains path "s3://" then
    let '(bucket, key) := ExtractBucketAndPath path in
    getObject GetObject bucket key
  else Returned (osOpen path).

End Files.

(** ** utils.go: DeleteAllMultiparts *)

Module MultipartUpload.
Record t : Type := { Key : option string; UploadId : option string }.
End MultipartUpload.

Module AbortMultipartUploadInput.
Record t : Type :=
  { Bucket : option string; Key : option string; UploadId : option string }.
End AbortMultipartUploadInput.

Section Multiparts.

(** The store lists the uploads of a bucket or gives an error, and answers
    an abort, given the aborts it has served so far, with an error or none.
    The fields that are pointers to strings in the SDK are options here,
    [None] for nil.  [Sprintf] is the text that a format gives when printed
    without arguments.  The lines logged by [log.Printf] are not kept, but
    the line of an upload reads through its [UploadId]. *)
Variable ListMultipartUploads : string -> list MultipartUpload.t + string.
Variable AbortMultipartUpload :
  list AbortMultipartUploadInput.t -> AbortMultipartUploadInput.t -> option string.
Variable Sprintf : string -> string.

Fixpoint abortUploads (bucket : string) (uploads : list MultipartUpload.t)
  (sent : list AbortMultipartUploadInput.t)
  : list AbortMultipartUploadInput.t * outcome (option string) :=
  match uploads with
  | [] => (sent, Returned None)
  | upload :: uploads' =>
      match MultipartUpload.UploadId upload with
      | None => (sent, Panicked NilPointerDereference)
      | Some _ =>
          let input :=
            {| AbortMultipartUploadInput.Bucket := Some bucket;
               AbortMultipartUploadInput.Key := MultipartUpload.Key upload;
               AbortMultipartUploadInput.UploadId := MultipartUpload.UploadId upload |} in
          match AbortMultipartUpload sent input with
          | Some err => (sent ++ [input], Fatal (Sprintf err))
          | None => abortUploads bucket uploads' (sent ++ [input])
          end
      end
  end.

Definition DeleteAllMultiparts (bucket : string)
  : list AbortMultipartUploadInput.t * outcome (option string) :=
  match ListMultipartUploads bucket with
  | inr err => ([], Returned (Some err))
  | inl uploads => abortUploads bucket uploads []
  end.

End Multiparts.

(** ** utils.go: randomHex *)

Module hex.

Definition hextable : string := "0123456789abcdef".

Definition digit (n : N) : ascii :=
  match String.get (N.to_nat n) hextable with
  | Some c => c
  | None => "0"%char
  end.

Fixpoint EncodeToString (src : list Byte.byte) : string :=
  match src with
  | [] => EmptyString
  | v :: src' =>
      String (digit (N.shiftr (Byte.to_N v) 4))
        (String (digit (N.land (Byte.to_N v) 15)) (EncodeToString src'))
  end.

End hex.

Section Random.

(** crypto/rand: the bytes it writes into a buffer of the given length, or
    its error.  The buffer keeps its length whatever is written. *)
Variable randRead : nat -> list Byte.byte + string.

Definition randomHex (n : nat) : string * option string :=
  let bytes := repeat Byte.x00 n in
  match randRead n with
  | inr err => (EmptyString, Some err)
  | inl written =>
      let bytes := firstn n (written ++ skipn (List.length written) bytes) in
      (hex.EncodeToString bytes, None)
  end.

End Random.

(** ** Notions used in the statements *)

(** The bytes the entries take behind the manifest entry, by the account of
    [createCSVManifest]. *)
Fixpoint entriesSize (headers objectList : list S3Obj) {struct objectList} : Z :=
  match objectList, headers with
  | obj :: objectList', hdr :: headers' =>
      Size hdr + Size obj + entriesSize headers' objectList'
  | _, _ => 0
  end.

Fixpoint allDigits (s : string) : bool :=
  match s with
  | EmptyString => true
  | String c rest =>
      ((48 <=? nat_of_ascii c) && (nat_of_ascii c <=? 57))%nat && allDigits rest
  end.

(** The text [s] ends with the two characters [c1] and [c2]. *)
Definition endsWith (s : string) (c1 c2 : ascii) : Prop :=
  exists pre, s = (pre ++ String c1 (String c2 EmptyString))%string.

(** The key [name] ends in a slash. *)
Definition endsInSlash (name : string) : bool :=
  match lastByte name with
  | Some c => Ascii.eqb c "/"%char
  | None => false
  end.

(** No byte of [s] is [c]. *)
Fixpoint without (c : ascii) (s : string) : bool :=
  match s with
  | EmptyString => true
  | String x s' => negb (Ascii.eqb x c) && without c s'
  end.

(** Every byte of [s] is a lower-case hexadecimal digit. *)
Fixpoint allHex (s : string) : bool :=
  match s with
  | EmptyString => true
  | String c s' =>
      (((48 <=? nat_of_ascii c) && (nat_of_ascii c <=? 57))
       || ((97 <=? nat_of_ascii c) && (nat_of_ascii c <=? 102)))%nat
      && allHex s'
  end.

(** The request for the keys 1000 k, 1000 k + 1, ... of [objectList], at
    most 1000 of them, under the bucket of the first. *)
Definition batchRequestOf (objectList : list S3Obj) (k : nat) : DeleteObjectsInput.t :=
  let part := firstn 1000 (skipn (1000 * k) objectList) in
  {| DeleteObjectsInput.Bucket :=
       match part with
       | first :: _ => Bucket first
       | [] => EmptyString
       end;
     DeleteObjectsInput.Quiet := true;
     DeleteObjectsInput.Objects := map Key part |}.

(** The abort request for an upload. *)
Definition abortInputOf (bucket : string) (upload : MultipartUpload.t)
  : AbortMultipartUploadInput.t :=
  {| AbortMultipartUploadInput.Bucket := Some bucket;
     AbortMultipartUploadInput.Key := MultipartUpload.Key upload;
     AbortMultipartUploadInput.UploadId := MultipartUpload.UploadId upload |}.

(** The widest text that the verb %d gives for an [int64]. *)
Definition widestInt64 : string := "-9223372036854775808".

(** The manifest of [objectList] with every offset as wide as an [int64]
    can be written: the most bytes a manifest of these entries can take. *)
Definition maxManifestSize (objectList : list S3Obj) : Z :=
  Z.of_nat
    (String.length
       (csv.WriteAll
          (map (fun obj => [Key obj; widestInt64; fmtInt64 (Size obj); ETag obj])
               objectList))).

(** The loop of [_buildManifest], entered with [estimate], leaves through
    its exit test with the serialization [data]: either the pass at
    [estimate] meets the test, or it does not and the loop entered with its
    padded length leaves with [data]. *)
Inductive loopReturns (headers objectList : list S3Obj) : Z -> string -> Prop :=
| loopReturns_break (estimate : Z) (data : string) :
    createCSVManifest estimate headers objectList = Returned data ->
    paddedLen data >= estimate ->
    loopReturns headers objectList estimate data
| loopReturns_again (estimate : Z) (data result : string) :
    createCSVManifest estimate headers objectList = Returned data ->
    paddedLen data < estimate ->
    loopReturns headers objectList (paddedLen data) result ->
    loopReturns headers objectList estimate result.

(** ** The archive the offsets refer to *)

(** Modelled from the spec: the assembler, which lives in other files of
    the package, lays the archive out as the manifest entry first and then,
    in listing order, for each entry its header block of 512 bytes, its
    data, and the padding that takes the data to the next block boundary
    (section 6 of the spec). *)
Fixpoint entriesBytes (blocks contents : list (list Byte.byte)) : list Byte.byte :=
  match blocks, contents with
  | block :: blocks', body :: contents' =>
      block ++ body
      ++ repeat Byte.x00 (Z.to_nat (findPadding (Z.of_nat (List.length body))))
      ++ entriesBytes blocks' contents'
  | _, _ => []
  end.

Definition archive (manifestEntry : list Byte.byte)
  (blocks contents : list (list Byte.byte)) : list Byte.byte :=
  manifestEntry ++ entriesBytes blocks contents.

(** The bytes of the archive in front of the header block of entry [i]:
    the manifest entry and the entries before [i], each with its padding. *)
Definition bytesBefore (manifestEntry : list Byte.byte)
  (blocks contents : list (list Byte.byte)) (i : nat) : list Byte.byte :=
  manifestEntry ++ entriesBytes (firstn i blocks) (firstn i contents).

(** Position [p] is that of the first byte of the header block of entry
    [i] in the archive. *)
Definition headerStartsAt (manifestEntry : list Byte.byte)
  (blocks contents : list (list Byte.byte)) (i : nat) (p : Z) : Prop :=
  exists block body after,
    nth_error blocks i = Some block
    /\ nth_error contents i = Some body
    /\ archive manifestEntry blocks contents
       = bytesBefore manifestEntry blocks contents i ++ block ++ body ++ after
    /\ p = Z.of_nat (List.length (bytesBefore manifestEntry blocks contents i)).

(** Position [p] is that of the first byte after the header block of
    entry [i], where the data of the entry begins. *)
Definition dataStartsAt (manifestEntry : list Byte.byte)
  (blocks contents : list (list Byte.byte)) (i : nat) (p : Z) : Prop :=
  exists block body after,
    nth_error blocks i = Some block
    /\ nth_error contents i = Some body
    /\ archive manifestEntry blocks contents
       = (bytesBefore manifestEntry blocks contents i ++ block) ++ body ++ after
    /\ p = Z.of_nat (List.length (bytesBefore manifestEntry blocks contents i ++ block)).

(** A condition on the [headers] that [createCSVManifest] is handed (their
    makers are in other files of the package): there is one header object
    for each entry, and its size is that of the padding of the data of the
    entry before it, [prev] bytes for the first of them, and of the 512
    bytes of the entry's header block.  [createCSVManifest] steps over
    header objects and data only; under this condition its account covers
    the padding of the archive. *)
Fixpoint headersCarryPadding (prev : Z) (headers objectList : list S3Obj)
  {struct objectList} : Prop :=
  match objectList, headers with
  | obj :: objectList', hdr :: headers' =>
      Size hdr = prev + 512
      /\ headersCarryPadding (findPadding (Size obj)) headers' objectList'
  | [], [] => True
  | _, _ => False
  end.

(** ** Sample inputs *)

Definition mkObj (key : string) (size : Z) (etag : string) : S3Obj :=
  {| Key := key; ETag := etag; Size := size; Bucket := "bucket"; PartNum := 0;
     Data := []; NoHeaderRequired := false |}.

(** A header encoder that always succeeds with one block of 512 bytes. *)
Definition oneBlockHeader (_ : tar.Header) : list Byte.byte + string :=
  inl (repeat Byte.x00 512).

Definition noDigest (_ : list Byte.byte) : string := "00000000000000000000000000000000".

(** The response that reports each of [keys] as not deleted. *)
Definition deniedKeys (keys : list string) : DeleteObjectsOutput.t :=
  {| DeleteObjectsOutput.Errors :=
       map (fun k => {| DeleteError.Key := k; DeleteError.Code := "AccessDenied";
                        DeleteError.Message := "Access Denied" |}) keys |}.

(** A store that reports a per-object failure for every key it is asked to
    delete in its second request, and none otherwise. *)
Definition failSecondBatch (calls : list DeleteObjectsInput.t) (req : DeleteObjectsInput.t)
  : DeleteObjectsOutput.t + string :=
  if (List.length calls =? 1)%nat
  then inl (deniedKeys (DeleteObjectsInput.Objects req))
  else inl (deniedKeys []).

(** A store that refuses to delete the key [locked] and deletes all others. *)
Definition refuseLocked (_ : list DeleteObjectsInput.t) (req : DeleteObjectsInput.t)
  : DeleteObjectsOutput.t + string :=
  inl (deniedKeys (filter (String.eqb "locked") (DeleteObjectsInput.Objects req))).

Definition mkHeader (block : list Byte.byte) : S3Obj :=
  {| Key := EmptyString; ETag := EmptyString; Size := Z.of_nat (List.length block);
     Bucket := "bucket"; PartNum := 0; Data := block; NoHeaderRequired := false |}.

(** One entry of three data bytes behind a header block of 512 bytes. *)
Definition oneHeader : S3Obj := mkHeader (repeat Byte.x48 512).
Definition threeBytes : list Byte.byte := [Byte.x44; Byte.x44; Byte.x44].
Definition oneObject : S3Obj := mkObj "a" 3 "e".

(** 2500 objects, and the batch request for [n] of them. *)
Definition manyObjects : list S3Obj := repeat (mkObj "k" 1 "e") 2500.

Definition batchRequest (n : nat) : DeleteObjectsInput.t :=
  {| DeleteObjectsInput.Bucket := "bucket"; DeleteObjectsInput.Quiet := true;
     DeleteObjectsInput.Objects := repeat "k"%string n |}.

Definition sizedHeader (size : Z) : S3Obj :=
  {| Key := EmptyString; ETag := EmptyString; Size := size; Bucket := "bucket";
     PartNum := 0; Data := []; NoHeaderRequired := false |}.

(** Two entries of 100 and of 3 bytes with their header blocks.  The data
    of the first is padded by 412 bytes, which the header object of the
    second holds in front of its block. *)
Definition paddedHeaders : list S3Obj := [sizedHeader 512; sizedHeader 924].
Definition smallObjects : list S3Obj := [mkObj "a" 100 "e"; mkObj "b" 3 "f"].
Definition smallBlocks : list (list Byte.byte) :=
  [repeat Byte.x48 512; repeat Byte.x48 512].
Definition smallContents : list (list Byte.byte) := [repeat Byte.x44 100; threeBytes].

Fixpoint replicate (c : ascii) (n : nat) : string :=
  match n with
  | O => EmptyString
  | S n' => String c (replicate c n')
  end.

(** Two entries behind 512-byte headers: 8192 bytes under a key of 245
    letters, and an empty object under a key of 244 letters.  At seed 0 the
    manifest is exactly 512 bytes long. *)
Definition twoHeaders : list S3Obj := [sizedHeader 512; sizedHeader 512].
Definition twoObjects : list S3Obj :=
  [mkObj (replicate "a" 245) 8192 "x"; mkObj (replicate "b" 244) 0 "y"].

(** Forty-nine entries whose sizes are non-negative [int64] values and whose
    running offset wraps around after the first entry: at seed 0 the second
    and later records read -100. *)
Definition wrapHeaders : list S3Obj :=
  sizedHeader 512 :: sizedHeader (2 ^ 63 - 1123) :: repeat (sizedHeader 0) 47.
Definition wrapObjects : list S3Obj :=
  mkObj "a" (2 ^ 63 - 1) "e" :: repeat (mkObj "a" 0 "e") 48.

(** A store that deletes whatever it is asked to. *)
Definition deletesAll (_ : list DeleteObjectsInput.t) (_ : DeleteObjectsInput.t)
  : DeleteObjectsOutput.t + string :=
  inl (deniedKeys []).

(** A page of three listed objects, the first a pseudo-directory, and the
    parts that [listAllObjects] makes of it under the bucket [bucket]. *)
Definition samplePage : list Object.t :=
  [{| Object.Key := "dir/"; Object.ETag := "e0"; Object.Size := 0 |};
   {| Object.Key := "dir/a"; Object.ETag := "e1"; Object.Size := 3 |};
   {| Object.Key := "dir/b"; Object.ETag := "e2"; Object.Size := 5 |}].

Definition samplePartsListed : list S3Obj :=
  [{| Key := "dir/a"; ETag := "e1"; Size := 3; Bucket := "bucket"; PartNum := 1;
      Data := []; NoHeaderRequired := false |};
   {| Key := "dir/b"; ETag := "e2"; Size := 5; Bucket := "bucket"; PartNum := 2;
      Data := []; NoHeaderRequired := false |}].

(** A store that answers its second deletion request with a request error. *)
Definition throttleSecond (calls : list DeleteObjectsInput.t) (_ : DeleteObjectsInput.t)
  : DeleteObjectsOutput.t + string :=
  if (List.length calls =? 1)%nat then inr "SlowDown"%string else inl (deniedKeys []).

(** Uploads left in a bucket, and one whose listing carries no id. *)
Definition firstUpload : MultipartUpload.t :=
  {| MultipartUpload.Key := Some "a.tar"%string;
     MultipartUpload.UploadId := Some "id-1"%string |}.

Definition secondUpload : MultipartUpload.t :=
  {| MultipartUpload.Key := Some "b.tar"%string;
     MultipartUpload.UploadId := Some "id-2"%string |}.

Definition namelessUpload : MultipartUpload.t :=
  {| MultipartUpload.Key := Some "c.tar"%string; MultipartUpload.UploadId := None |}.

Definition twoUploads : list MultipartUpload.t := [firstUpload; secondUpload].

(** * Properties *)

(** ** [int64] arithmetic *)

Lemma wrap64_small (z : Z) : int64_range z -> wrap64 z = z.
Proof.
  unfold int64_range, wrap64. intros H.
  rewrite Z.mod_small by lia. lia.
Qed.

Lemma wrap64_range (z : Z) : int64_range (wrap64 z).
Proof.
  unfold int64_range, wrap64.
  pose proof (Z.mod_pos_bound (z + 2 ^ 63) (2 ^ 64) ltac:(lia)). lia.
Qed.

Lemma wrap64_mod_block (z : Z) : wrap64 z mod 512 = z mod 512.
Proof.
  unfold wrap64. rewrite (Z.mod_eq (z + 2 ^ 63) (2 ^ 64)) by lia.
  set (q := (z + 2 ^ 63) / 2 ^ 64).
  replace (z + 2 ^ 63 - 2 ^ 64 * q - 2 ^ 63) with (z + (- (2 ^ 55 * q)) * 512) by lia.
  apply Z_mod_plus_full.
Qed.

Lemma quot64_nonneg (a b : Z) :
  0 <= a < 2 ^ 63 -> 0 < b -> quot64 a b = a / b.
Proof.
  intros Ha Hb. unfold quot64. rewrite Z.quot_div_nonneg by lia.
  apply wrap64_small. unfold int64_range.
  pose proof (Z.div_pos a b ltac:(lia) Hb).
  pose proof (Z.div_le_upper_bound a b a Hb ltac:(nia)). lia.
Qed.

Lemma quot64_le_zero (a b : Z) :
  - 2 ^ 63 <= a < 0 -> 0 < b -> - 2 ^ 63 <= quot64 a b <= 0.
Proof.
  intros Ha Hb. unfold quot64.
  replace a with (- (- a)) by lia. rewrite Z.quot_opp_l by lia.
  rewrite Z.quot_div_nonneg by lia.
  pose proof (Z.div_pos (- a) b ltac:(lia) Hb).
  pose proof (Z.div_le_upper_bound (- a) b (- a) Hb ltac:(nia)).
  rewrite wrap64_small; unfold int64_range; lia.
Qed.

(** ** findPadding *)

Lemma findPadding_mod (offset : Z) : findPadding offset = (- offset) mod 512.
Proof.
  unfold findPadding.
  change (sub64 blockSize 1) with (Z.ones 9).
  rewrite Z.land_ones by lia.
  change (2 ^ 9) with 512. unfold neg64. apply wrap64_mod_block.
Qed.

Lemma findPadding_bounds (offset : Z) : 0 <= findPadding offset <= 511.
Proof.
  rewrite findPadding_mod.
  pose proof (Z.mod_pos_bound (- offset) 512 ltac:(lia)). lia.
Qed.

Lemma findPadding_aligns (offset : Z) : (offset + findPadding offset) mod 512 = 0.
Proof.
  rewrite findPadding_mod.
  rewrite Z.add_mod_idemp_r by lia.
  replace (offset + - offset) with 0 by lia. reflexivity.
Qed.

(** C5.  For a non-negative offset, [findPadding] gives the least
    non-negative number of bytes that brings the offset to a multiple of
    512: it lies in 0..511, the padded offset is a multiple of 512, every
    other non-negative filler is at least as large, and the paddings of 0, 1
    and 512 are 0, 511 and 0. *)
Theorem findPadding_least_filler (offset : Z) :
  0 <= offset ->
  0 <= findPadding offset <= 511
  /\ (offset + findPadding offset) mod 512 = 0
  /\ (forall n, 0 <= n -> (offset + n) mod 512 = 0 -> findPadding offset <= n)
  /\ findPadding 0 = 0 /\ findPadding 1 = 511 /\ findPadding 512 = 0.
Proof.
  intros _. split; [apply findPadding_bounds|].
  split; [apply findPadding_aligns|].
  split; [|repeat split; reflexivity].
  intros n Hn Hmod.
  pose proof (findPadding_bounds offset) as Hb.
  pose proof (findPadding_aligns offset) as Ha.
  apply Z.mod_divide in Hmod; [|lia]. apply Z.mod_divide in Ha; [|lia].
  destruct Hmod as [k Hk]. destruct Ha as [j Hj]. lia.
Qed.

Lemma findPadding_least_filler_witness :
  0 <= findPadding 1000 <= 511
  /\ (1000 + findPadding 1000) mod 512 = 0
  /\ (forall n, 0 <= n -> (1000 + n) mod 512 = 0 -> findPadding 1000 <= n)
  /\ findPadding 0 = 0 /\ findPadding 1 = 511 /\ findPadding 512 = 0.
Proof. apply (findPadding_least_filler 1000). lia. Defined.

(** ** findMinMaxPartRange *)

Lemma partSizeMin_value : partSizeMin = 5242880.
Proof. reflexivity. Qed.

Lemma partSizeMax_value : partSizeMax = 5368709120.
Proof. reflexivity. Qed.

(** Below [partSizeMin] the countdown never stops by itself: it reaches 0
    and the division panics. *)
Lemma maxPartsLoop_small (curSize : Z) :
  int64_range curSize -> curSize < partSizeMin ->
  forall fuel n, 0 <= n <= partsLimit ->
    maxPartsLoop fuel curSize n =
      if (Z.to_nat n <? fuel)%nat then Some (Panicked IntegerDivideByZero) else None.
Proof.
  intros Hr Hs. rewrite partSizeMin_value in Hs. unfold int64_range in Hr.
  unfold partsLimit.
  induction fuel as [|fuel IH]; intros n Hn; [reflexivity|].
  cbn [maxPartsLoop].
  destruct (Z.eqb_spec n 0) as [->|Hn0].
  - reflexivity.
  - assert (Hq : quot64 curSize n < partSizeMin).
    { rewrite partSizeMin_value.
      destruct (Z_lt_le_dec curSize 0) as [Hneg|Hpos].
      - pose proof (quot64_le_zero curSize n ltac:(lia) ltac:(lia)). lia.
      - rewrite quot64_nonneg by lia.
        pose proof (Z.div_le_upper_bound curSize n curSize ltac:(lia) ltac:(nia)). lia. }
    apply Z.ltb_lt in Hq. rewrite Hq.
    unfold sub64. rewrite wrap64_small by (unfold int64_range; lia).
    rewrite IH by lia.
    destruct (Nat.ltb_spec (Z.to_nat (n - 1)) fuel);
      destruct (Nat.ltb_spec (Z.to_nat n) (S fuel)); try reflexivity; lia.
Qed.

Lemma findMinMaxPartRange_small (curSize : Z) :
  int64_range curSize -> curSize < partSizeMin ->
  forall fuel,
    findMinMaxPartRange fuel curSize =
      if (Z.to_nat partsLimit <? fuel)%nat
      then Some (Panicked IntegerDivideByZero) else None.
Proof.
  intros Hr Hs fuel. unfold findMinMaxPartRange.
  rewrite (maxPartsLoop_small curSize Hr Hs) by (unfold partsLimit; lia).
  destruct (Z.to_nat partsLimit <? fuel)%nat; reflexivity.
Qed.

(** From [partSizeMin] on, the countdown stops at the largest count whose
    equal split is at least [partSizeMin]. *)
Lemma maxPartsLoop_returns (curSize : Z) :
  partSizeMin <= curSize < 2 ^ 63 ->
  forall fuel n, 1 <= n <= partsLimit -> (Z.to_nat n <= fuel)%nat ->
    maxPartsLoop fuel curSize n = Some (Returned (Z.min n (curSize / partSizeMin))).
Proof.
  rewrite partSizeMin_value. unfold partsLimit. intros Hs.
  induction fuel as [|fuel IH]; intros n Hn Hf; [lia|].
  cbn [maxPartsLoop].
  destruct (Z.eqb_spec n 0) as [->|Hn0]; [lia|].
  rewrite quot64_nonneg by lia. rewrite partSizeMin_value.
  pose proof (Z.div_mod curSize n ltac:(lia)) as Hdm.
  pose proof (Z.mod_pos_bound curSize n ltac:(lia)) as Hmb.
  pose proof (Z.div_mod curSize 5242880 ltac:(lia)) as Hdm'.
  pose proof (Z.mod_pos_bound curSize 5242880 ltac:(lia)) as Hmb'.
  destruct (Z.ltb_spec (curSize / n) 5242880) as [Hlt|Hge].
  - assert (n <> 1) by (intros ->; rewrite Z.div_1_r in Hlt; lia).
    unfold sub64. rewrite wrap64_small by (unfold int64_range; lia).
    rewrite IH by lia. do 2 f_equal.
    assert (curSize / 5242880 <= n - 1) by nia. lia.
  - do 2 f_equal. assert (n <= curSize / 5242880) by nia. lia.
Qed.

(** The count-up stops at the smallest count whose equal split is at most
    [partSizeMax]. *)
Lemma minPartsLoop_returns (curSize : Z) :
  0 <= curSize < 2 ^ 63 ->
  forall fuel n, 1 <= n ->
    (Z.to_nat (curSize / (partSizeMax + 1) + 1 - n) < fuel)%nat ->
    minPartsLoop fuel curSize n =
      Some (Returned (Z.max n (curSize / (partSizeMax + 1) + 1))).
Proof.
  rewrite partSizeMax_value. intros Hs.
  set (B := curSize / (5368709120 + 1) + 1).
  pose proof (Z.div_mod curSize (5368709120 + 1) ltac:(lia)) as Hdm'.
  pose proof (Z.mod_pos_bound curSize (5368709120 + 1) ltac:(lia)) as Hmb'.
  assert (HB : 1 <= B < 2 ^ 62) by (unfold B; lia).
  induction fuel as [|fuel IH]; intros n Hn Hf; [lia|].
  cbn [minPartsLoop].
  destruct (Z.eqb_spec n 0) as [->|Hn0]; [lia|].
  destruct (Z_lt_le_dec n (2 ^ 63)) as [Hnr|Hnr].
  - rewrite quot64_nonneg by lia. rewrite partSizeMax_value.
    pose proof (Z.div_mod curSize n ltac:(lia)) as Hdm.
    pose proof (Z.mod_pos_bound curSize n ltac:(lia)) as Hmb.
    destruct (Z.gtb_spec (curSize / n) 5368709120) as [Hgt|Hle].
    + assert (n < B) by (unfold B; nia).
      unfold add64. rewrite wrap64_small by (unfold int64_range; lia).
      rewrite IH by lia. do 2 f_equal. lia.
    + do 2 f_equal. assert (B <= n) by (unfold B; nia). lia.
  - unfold quot64. rewrite Z.quot_small by lia.
    change (wrap64 0 >? partSizeMax) with false. cbn iota.
    do 2 f_equal. lia.
Qed.

(** C4, as the code has it.  For an object size from [partSizeMin] up to
    the largest size that 10000 parts of at most [partSizeMax] can hold,
    the solver returns within 10001 passes of each loop, with
    1 <= minParts <= maxParts <= 10000, an equal split at maxParts of at
    least 5 MiB, an equal split at minParts of at most 5 GiB, and
    midpoint = maxParts / 2. *)
Theorem findMinMaxPartRange_in_range (objectSize : Z) :
  partSizeMin <= objectSize < partsLimit * (partSizeMax + 1) ->
  exists minParts maxParts midpoint,
    findMinMaxPartRange (Z.to_nat (partsLimit + 1)) objectSize
      = Some (Returned (minParts, maxParts, midpoint))
    /\ 1 <= minParts <= maxParts /\ maxParts <= 10000
    /\ objectSize / maxParts >= 5 * 1024 * 1024
    /\ objectSize / minParts <= 5 * 1024 * 1024 * 1024
    /\ midpoint = maxParts / 2.
Proof.
  intros Hs. pose proof Hs as Hs'.
  rewrite partSizeMin_value, partSizeMax_value in Hs'. unfold partsLimit in Hs'.
  exists (objectSize / (partSizeMax + 1) + 1),
         (Z.min partsLimit (objectSize / partSizeMin)),
         (Z.min partsLimit (objectSize / partSizeMin) / 2).
  pose proof (Z.div_mod objectSize (5368709120 + 1) ltac:(lia)) as Hdm'.
  pose proof (Z.mod_pos_bound objectSize (5368709120 + 1) ltac:(lia)) as Hmb'.
  pose proof (Z.div_mod objectSize 5242880 ltac:(lia)) as Hdm.
  pose proof (Z.mod_pos_bound objectSize 5242880 ltac:(lia)) as Hmb.
  unfold findMinMaxPartRange.
  rewrite (maxPartsLoop_returns objectSize)
    by (try rewrite partSizeMin_value; unfold partsLimit; lia).
  rewrite (minPartsLoop_returns objectSize)
    by (try rewrite partSizeMax_value; unfold partsLimit; lia).
  rewrite partSizeMin_value, partSizeMax_value. unfold partsLimit.
  set (mx := Z.min 10000 (objectSize / 5242880)).
  set (mn := objectSize / (5368709120 + 1) + 1).
  assert (Hmx : 1 <= mx <= 10000) by (unfold mx; lia).
  assert (Hmn : 1 <= mn <= mx) by (unfold mn, mx; lia).
  rewrite Z.max_r by lia.
  rewrite quot64_nonneg by lia.
  split; [reflexivity|].
  split; [lia|]. split; [lia|].
  pose proof (Z.div_mod objectSize mx ltac:(lia)) as Hd1.
  pose proof (Z.mod_pos_bound objectSize mx ltac:(lia)) as Hb1.
  pose proof (Z.div_mod objectSize mn ltac:(lia)) as Hd2.
  pose proof (Z.mod_pos_bound objectSize mn ltac:(lia)) as Hb2.
  split; [unfold mx in *; nia|].
  split; [unfold mn in *; nia|reflexivity].
Qed.

Lemma findMinMaxPartRange_in_range_witness :
  exists minParts maxParts midpoint,
    findMinMaxPartRange (Z.to_nat (partsLimit + 1)) 104857600
      = Some (Returned (minParts, maxParts, midpoint))
    /\ 1 <= minParts <= maxParts /\ maxParts <= 10000
    /\ 104857600 / maxParts >= 5 * 1024 * 1024
    /\ 104857600 / minParts <= 5 * 1024 * 1024 * 1024
    /\ midpoint = maxParts / 2.
Proof.
  apply (findMinMaxPartRange_in_range 104857600).
  rewrite partSizeMin_value, partSizeMax_value. unfold partsLimit. lia.
Defined.

(** C4 fails as stated: at object size 1 the countdown of the
    first loop passes 1, reaches 0 and the division panics; no part plan
    (1, 1, _) comes back, whatever the fuel. *)
Lemma findMinMaxPartRange_one_byte_panics :
  findMinMaxPartRange (Z.to_nat (partsLimit + 1)) 1
    = Some (Panicked IntegerDivideByZero)
  /\ forall fuel plan, findMinMaxPartRange fuel 1 <> Some (Returned plan).
Proof.
  assert (H : forall fuel, findMinMaxPartRange fuel 1 =
            if (Z.to_nat partsLimit <? fuel)%nat
            then Some (Panicked IntegerDivideByZero) else None).
  { apply findMinMaxPartRange_small.
    - unfold int64_range; lia.
    - rewrite partSizeMin_value; lia. }
  split.
  - rewrite H. reflexivity.
  - intros fuel plan. rewrite H.
    destruct (Z.to_nat partsLimit <? fuel)%nat; discriminate.
Qed.

(** At the first size beyond that range the plan comes back with
    minParts above maxParts. *)
Example findMinMaxPartRange_beyond_range :
  findMinMaxPartRange (Z.to_nat (partsLimit + 2)) (partsLimit * (partSizeMax + 1))
    = Some (Returned (10001, 10000, 5000)).
Proof. vm_compute. reflexivity. Qed.

(** C8, as the code has it.  A negative object size never yields a part
    plan and never a logged fatal error: the first loop counts down to 0
    and the call ends in the runtime panic of the division. *)
Theorem findMinMaxPartRange_negative (objectSize : Z) :
  int64_range objectSize -> objectSize < 0 ->
  findMinMaxPartRange (Z.to_nat (partsLimit + 1)) objectSize
    = Some (Panicked IntegerDivideByZero)
  /\ forall fuel,
       findMinMaxPartRange fuel objectSize = None
       \/ findMinMaxPartRange fuel objectSize = Some (Panicked IntegerDivideByZero).
Proof.
  intros Hr Hneg.
  assert (Hs : objectSize < partSizeMin) by (rewrite partSizeMin_value; lia).
  split.
  - rewrite (findMinMaxPartRange_small objectSize Hr Hs). reflexivity.
  - intros fuel. rewrite (findMinMaxPartRange_small objectSize Hr Hs).
    destruct (Z.to_nat partsLimit <? fuel)%nat; auto.
Qed.

Lemma findMinMaxPartRange_negative_witness :
  findMinMaxPartRange (Z.to_nat (partsLimit + 1)) (-1)
    = Some (Panicked IntegerDivideByZero)
  /\ forall fuel,
       findMinMaxPartRange fuel (-1) = None
       \/ findMinMaxPartRange fuel (-1) = Some (Panicked IntegerDivideByZero).
Proof.
  apply (findMinMaxPartRange_negative (-1)).
  - unfold int64_range. lia.
  - lia.
Defined.

(** C8 fails as stated: at object size -1 the call ends in
    the integer-divide-by-zero panic, the very outcome of the positive size
    1, and in no logged or returned error. *)
Lemma findMinMaxPartRange_minus_one_no_usage_error :
  findMinMaxPartRange (Z.to_nat (partsLimit + 1)) (-1)
    = Some (Panicked IntegerDivideByZero)
  /\ findMinMaxPartRange (Z.to_nat (partsLimit + 1)) (-1)
     = findMinMaxPartRange (Z.to_nat (partsLimit + 1)) 1
  /\ forall fuel m, findMinMaxPartRange fuel (-1) <> Some (Fatal m).
Proof.
  assert (H : forall s, s = -1 \/ s = 1 -> forall fuel, findMinMaxPartRange fuel s =
            if (Z.to_nat partsLimit <? fuel)%nat
            then Some (Panicked IntegerDivideByZero) else None).
  { intros s Hs. apply findMinMaxPartRange_small.
    - unfold int64_range; lia.
    - rewrite partSizeMin_value; lia. }
  split; [|split].
  - rewrite H by auto. reflexivity.
  - rewrite !H by auto. reflexivity.
  - intros fuel m. rewrite H by auto.
    destruct (Z.to_nat partsLimit <? fuel)%nat; discriminate.
Qed.

(** ** buildFirstPart *)

Lemma trailingPad_cases (csvData : list Byte.byte) :
  let l := wrap64 (Z.of_nat (List.length csvData)) in
  (findPadding l = 0 /\ trailingPad csvData = 512)
  \/ (findPadding l <> 0 /\ trailingPad csvData = findPadding l).
Proof.
  cbv zeta. unfold trailingPad.
  destruct (Z.eqb_spec (findPadding (wrap64 (Z.of_nat (List.length csvData)))) 0);
    [left|right]; auto.
Qed.

(** C6.  When the header encoder gives its block, [buildFirstPart] writes
    [pad], the block, the body, and then a run of zero bytes whose length
    is [findPadding] of the body length, or 512 when that is 0; the run is
    1 to 512 bytes long, body plus run is a multiple of 512, so is the
    whole entry when the header is one block of 512 bytes, and so is the
    size of the object when [pad] too is a whole number of blocks. *)
Theorem buildFirstPart_trailing_pad
  (pad : list Byte.byte) (tarWriteHeader : tar.Header -> list Byte.byte + string)
  (md5hex : list Byte.byte -> string) (modTime changeTime accessTime : Z)
  (csvData block : list Byte.byte) :
  tarWriteHeader (firstPartHeader modTime changeTime accessTime csvData) = inl block ->
  exists obj n,
    buildFirstPart pad tarWriteHeader md5hex modTime changeTime accessTime csvData
      = Returned obj
    /\ Data obj = pad ++ block ++ csvData ++ repeat Byte.x00 (Z.to_nat n)
    /\ n = (if findPadding (wrap64 (Z.of_nat (List.length csvData))) =? 0
            then 512 else findPadding (wrap64 (Z.of_nat (List.length csvData))))
    /\ 1 <= n <= 512
    /\ (Z.of_nat (List.length csvData) + n) mod 512 = 0
    /\ (List.length block = 512%nat ->
        Z.of_nat (List.length (block ++ csvData ++ repeat Byte.x00 (Z.to_nat n))) mod 512 = 0)
    /\ (List.length block = 512%nat -> Z.of_nat (List.length pad) mod 512 = 0 ->
        Size obj mod 512 = 0).
Proof.
  intros Hhdr.
  exists (AddData md5hex NewS3Obj
            (((pad ++ block) ++ csvData) ++ repeat Byte.x00 (Z.to_nat (trailingPad csvData)))),
         (trailingPad csvData).
  pose proof (findPadding_bounds (wrap64 (Z.of_nat (List.length csvData)))) as Hb.
  pose proof (findPadding_aligns (wrap64 (Z.of_nat (List.length csvData)))) as Ha.
  assert (Hsum : (Z.of_nat (List.length csvData) + trailingPad csvData) mod 512 = 0).
  { rewrite Z.add_mod by lia.
    rewrite <- (wrap64_mod_block (Z.of_nat (List.length csvData))).
    rewrite <- Z.add_mod by lia.
    destruct (trailingPad_cases csvData) as [[H0 ->]|[_ ->]]; [|exact Ha].
    rewrite H0, Z.add_0_r in Ha.
    rewrite Z.add_mod, Ha by lia. reflexivity. }
  assert (Hn : 1 <= trailingPad csvData <= 512).
  { destruct (trailingPad_cases csvData) as [[_ ->]|[H0 ->]]; lia. }
  split; [unfold buildFirstPart; rewrite Hhdr; reflexivity|].
  split; [cbn [Data AddData]; rewrite <- !app_assoc; reflexivity|].
  split; [reflexivity|].
  split; [exact Hn|].
  split; [exact Hsum|].
  assert (Hentry : List.length block = 512%nat ->
            Z.of_nat (List.length (block ++ csvData
                                     ++ repeat Byte.x00 (Z.to_nat (trailingPad csvData))))
              mod 512 = 0).
  { intros Hblock. rewrite !length_app, repeat_length, Hblock.
    rewrite !Nat2Z.inj_add, Z2Nat.id by lia.
    change (Z.of_nat 512) with (1 * 512).
    rewrite <- Z.add_mod_idemp_r, Hsum by lia. reflexivity. }
  split; [exact Hentry|].
  intros Hblock Hpad. specialize (Hentry Hblock).
  cbn [Size AddData]. rewrite wrap64_mod_block.
  rewrite <- !app_assoc, length_app, Nat2Z.inj_add.
  rewrite Z.add_mod, Hpad, Hentry by lia. reflexivity.
Qed.

Lemma buildFirstPart_trailing_pad_witness :
  exists obj n,
    buildFirstPart [] oneBlockHeader noDigest 0 0 0 [Byte.x61; Byte.x0a] = Returned obj
    /\ Data obj = [] ++ repeat Byte.x00 512 ++ [Byte.x61; Byte.x0a]
                     ++ repeat Byte.x00 (Z.to_nat n)
    /\ n = (if findPadding (wrap64 (Z.of_nat (List.length [Byte.x61; Byte.x0a]))) =? 0
            then 512
            else findPadding (wrap64 (Z.of_nat (List.length [Byte.x61; Byte.x0a]))))
    /\ 1 <= n <= 512
    /\ (Z.of_nat (List.length [Byte.x61; Byte.x0a]) + n) mod 512 = 0
    /\ (List.length (repeat Byte.x00 512) = 512%nat ->
        Z.of_nat (List.length (repeat Byte.x00 512 ++ [Byte.x61; Byte.x0a]
                                 ++ repeat Byte.x00 (Z.to_nat n))) mod 512 = 0)
    /\ (List.length (repeat Byte.x00 512) = 512%nat ->
        Z.of_nat (List.length (@nil Byte.byte)) mod 512 = 0 ->
        Size obj mod 512 = 0).
Proof.
  apply (buildFirstPart_trailing_pad [] oneBlockHeader noDigest 0 0 0
           [Byte.x61; Byte.x0a] (repeat Byte.x00 512)).
  reflexivity.
Defined.

(** ** Decimal text and CSV fields *)

Lemma string_length_app (s t : string) :
  String.length (s ++ t) = (String.length s + String.length t)%nat.
Proof. induction s as [|c s IH]; cbn; [reflexivity|now rewrite IH]. Qed.

Lemma digitChar_code (d : Z) :
  0 <= d <= 9 -> nat_of_ascii (digitChar d) = (48 + Z.to_nat d)%nat.
Proof. intros Hd. unfold digitChar. apply nat_ascii_embedding. lia. Qed.

Lemma fmtUint_length_acc (fuel : nat) :
  forall u acc, (String.length acc <= String.length (fmtUint fuel u acc))%nat.
Proof.
  induction fuel as [|fuel IH]; intros u acc; cbn [fmtUint]; [lia|].
  destruct (u / 10 =? 0); [cbn; lia|].
  etransitivity; [|apply IH]. cbn. lia.
Qed.

Lemma fmtUint_length_mono (fuel : nat) :
  forall a b acc acc',
    0 <= a <= b -> (String.length acc <= String.length acc')%nat ->
    (String.length (fmtUint fuel a acc) <= String.length (fmtUint fuel b acc'))%nat.
Proof.
  induction fuel as [|fuel IH]; intros a b acc acc' Hab Hacc; cbn [fmtUint]; [assumption|].
  pose proof (Z.div_le_mono a b 10 ltac:(lia) ltac:(lia)) as Hdiv.
  pose proof (Z.div_pos a 10 ltac:(lia) ltac:(lia)) as Hpos.
  destruct (Z.eqb_spec (a / 10) 0) as [Ha|Ha]; destruct (Z.eqb_spec (b / 10) 0) as [Hb|Hb].
  - cbn. lia.
  - etransitivity; [|apply fmtUint_length_acc]. cbn. lia.
  - lia.
  - apply IH; [lia|cbn; lia].
Qed.

Lemma fmtUint_allDigits (fuel : nat) :
  forall u acc, 0 <= u -> allDigits acc = true -> allDigits (fmtUint fuel u acc) = true.
Proof.
  induction fuel as [|fuel IH]; intros u acc Hu Hacc; cbn [fmtUint]; [assumption|].
  pose proof (Z.mod_pos_bound u 10 ltac:(lia)) as Hm.
  assert (Hstep : allDigits (String (digitChar (u mod 10)) acc) = true).
  { cbn [allDigits]. rewrite digitChar_code, Hacc by lia.
    destruct (Nat.leb_spec 48 (48 + Z.to_nat (u mod 10)));
      destruct (Nat.leb_spec (48 + Z.to_nat (u mod 10)) 57); try reflexivity; lia. }
  destruct (u / 10 =? 0); [assumption|].
  apply IH; [apply Z.div_pos; lia|assumption].
Qed.

Lemma digit_is_not (c : ascii) (k : nat) :
  ((48 <=? nat_of_ascii c) && (nat_of_ascii c <=? 57))%nat = true ->
  (k < 48 \/ 57 < k)%nat -> (k < 256)%nat ->
  Ascii.eqb c (ascii_of_nat k) = false.
Proof.
  intros Hc Hk Hk'. apply andb_prop in Hc. destruct Hc as [H1 H2].
  apply Nat.leb_le in H1, H2.
  apply Ascii.eqb_neq. intros ->. rewrite nat_ascii_embedding in H1, H2 by assumption. lia.
Qed.

Lemma allDigits_no_special (s : string) :
  allDigits s = true -> csv.containsSpecial s = false.
Proof.
  induction s as [|c s IH]; [reflexivity|].
  cbn [allDigits csv.containsSpecial]. intros H. apply andb_prop in H. destruct H as [Hc Hs].
  unfold csv.LF, csv.CR, csv.quoteChar.
  change csv.commaChar with (ascii_of_nat 44).
  rewrite !(digit_is_not c) by (assumption || lia).
  rewrite IH by assumption. reflexivity.
Qed.

Lemma digit_first_not_space (c : ascii) (rest : string) :
  ((48 <=? nat_of_ascii c) && (nat_of_ascii c <=? 57))%nat = true ->
  csv.firstRuneIsSpace (String c rest) = false.
Proof.
  intros Hc. apply andb_prop in Hc. destruct Hc as [H1 H2]. apply Nat.leb_le in H1, H2.
  unfold csv.firstRuneIsSpace. set (b0 := nat_of_ascii c) in *.
  replace ((9 <=? b0)%nat && (b0 <=? 13)%nat || (b0 =? 32)%nat) with false.
  2:{ destruct (Nat.leb_spec b0 13); destruct (Nat.eqb_spec b0 32);
        rewrite ?andb_false_r, ?andb_true_r; try reflexivity; lia. }
  destruct rest as [|c1 rest]; [reflexivity|].
  replace (b0 =? 194)%nat with false by (symmetry; apply Nat.eqb_neq; lia).
  destruct rest as [|c2 rest]; [reflexivity|].
  replace (b0 =? 225)%nat with false by (symmetry; apply Nat.eqb_neq; lia).
  replace (b0 =? 226)%nat with false by (symmetry; apply Nat.eqb_neq; lia).
  replace (b0 =? 227)%nat with false by (symmetry; apply Nat.eqb_neq; lia).
  reflexivity.
Qed.

(** A decimal numeral is written to the CSV as it is. *)
Lemma writeField_digits (s : string) :
  allDigits s = true -> csv.writeField s = s.
Proof.
  intros Hs. unfold csv.writeField.
  destruct s as [|c rest]; [reflexivity|].
  pose proof Hs as Hs'. cbn [allDigits] in Hs'. apply andb_prop in Hs'.
  destruct Hs' as [Hc _].
  unfold csv.fieldNeedsQuotes.
  cbn [String.eqb]. change "\"%char with (ascii_of_nat 92).
  rewrite (digit_is_not c 92) by (assumption || lia).
  rewrite allDigits_no_special by assumption.
  rewrite digit_first_not_space by assumption. reflexivity.
Qed.

Lemma fmtInt64_nonneg (x : Z) : 0 <= x -> fmtInt64 x = fmtUint 20 x EmptyString.
Proof. intros Hx. unfold fmtInt64. destruct (Z.ltb_spec x 0); [lia|reflexivity]. Qed.

Lemma writeField_fmtInt64 (x : Z) : 0 <= x -> csv.writeField (fmtInt64 x) = fmtInt64 x.
Proof.
  intros Hx. apply writeField_digits. rewrite fmtInt64_nonneg by assumption.
  apply fmtUint_allDigits; [assumption|reflexivity].
Qed.

Lemma fmtInt64_length_mono (a b : Z) :
  0 <= a <= b -> (String.length (fmtInt64 a) <= String.length (fmtInt64 b))%nat.
Proof.
  intros Hab. rewrite !fmtInt64_nonneg by lia. apply fmtUint_length_mono; [lia|cbn; lia].
Qed.

Lemma Write_record_length (key offset size etag : string) :
  String.length (csv.Write [key; offset; size; etag])
  = (String.length (csv.writeField key) + String.length (csv.writeField offset)
     + String.length (csv.writeField size) + String.length (csv.writeField etag) + 4)%nat.
Proof.
  unfold csv.Write. cbn [csv.writeFields].
  repeat (rewrite string_length_app || cbn [String.length]). lia.
Qed.

(** Also a negative numeral is written as it is. *)
Lemma writeField_minus_digits (digits : string) :
  allDigits digits = true ->
  csv.writeField (String "-" digits) = String "-" digits.
Proof.
  intros Hd. unfold csv.writeField, csv.fieldNeedsQuotes.
  cbn [String.eqb]. change (Ascii.eqb "-" "\") with false. cbv iota.
  cbn [csv.containsSpecial].
  rewrite allDigits_no_special by assumption.
  change (Ascii.eqb "-" csv.LF || Ascii.eqb "-" csv.CR || Ascii.eqb "-" csv.quoteChar
          || Ascii.eqb "-" csv.commaChar || false) with false.
  destruct digits as [|c1 [|c2 digits]]; reflexivity.
Qed.

Lemma writeField_fmtInt64_any (x : Z) : csv.writeField (fmtInt64 x) = fmtInt64 x.
Proof.
  destruct (Z.ltb_spec x 0) as [Hneg|Hpos]; [|apply writeField_fmtInt64; exact Hpos].
  unfold fmtInt64. destruct (Z.ltb_spec x 0); [|lia].
  apply writeField_minus_digits. apply fmtUint_allDigits; [lia|reflexivity].
Qed.

(** The verb %d writes an [int64] in at most 20 characters. *)
Lemma fmtInt64_length_le (x : Z) :
  int64_range x -> (String.length (fmtInt64 x) <= 20)%nat.
Proof.
  unfold int64_range. intros Hx. unfold fmtInt64.
  assert (Hmax : String.length (fmtUint 20 (2 ^ 63) EmptyString) = 19%nat)
    by (vm_compute; reflexivity).
  destruct (Z.ltb_spec x 0).
  - cbn [String.length].
    pose proof (fmtUint_length_mono 20 (- x) (2 ^ 63) EmptyString EmptyString
                  ltac:(lia) ltac:(cbn; lia)).
    lia.
  - pose proof (fmtUint_length_mono 20 x (2 ^ 63) EmptyString EmptyString
                  ltac:(lia) ltac:(cbn; lia)).
    lia.
Qed.

(** ** The text of a range never ends in a last byte index 0 unless [end] is 0 *)

Lemma string_app_assoc (s t u : string) : ((s ++ t) ++ u = s ++ (t ++ u))%string.
Proof. induction s as [|c s IH]; cbn; [reflexivity|now rewrite IH]. Qed.

Lemma fmtUint_acc (fuel : nat) :
  forall u acc, fmtUint fuel u acc = (fmtUint fuel u EmptyString ++ acc)%string.
Proof.
  induction fuel as [|fuel IH]; intros u acc; cbn [fmtUint]; [reflexivity|].
  destruct (u / 10 =? 0); [reflexivity|].
  rewrite (IH (u / 10) (String _ acc)), (IH (u / 10) (String _ EmptyString)).
  rewrite string_app_assoc. reflexivity.
Qed.

Lemma endsWith_unique (s : string) (c1 c2 c1' c2' : ascii) :
  endsWith s c1 c2 -> endsWith s c1' c2' -> c1 = c1' /\ c2 = c2'.
Proof.
  intros [pre ->] [pre' H]. revert pre' H.
  induction pre as [|x pre IH]; intros pre' H.
  - destruct pre' as [|y [|z pre']]; cbn in H.
    + injection H as -> ->. auto.
    + discriminate.
    + injection H as _ _ H. destruct pre'; discriminate.
  - destruct pre' as [|y pre']; cbn in H.
    + injection H as _ H. destruct pre as [|z pre]; [discriminate|].
      cbn in H. injection H as _ H. destruct pre; discriminate.
    + injection H as _ H. eapply IH. exact H.
Qed.

Lemma endsWith_app (s t : string) (c1 c2 : ascii) :
  endsWith t c1 c2 -> endsWith (s ++ t) c1 c2.
Proof.
  intros [pre ->]. exists (s ++ pre)%string. now rewrite string_app_assoc.
Qed.

(** The last characters of a formatted magnitude are its last digits. *)
Lemma fmtUint_last (fuel : nat) (u : Z) :
  fmtUint (S (S fuel)) u EmptyString =
    (if u / 10 =? 0 then String (digitChar (u mod 10)) EmptyString
     else String.append (fmtUint (S fuel) (u / 10) EmptyString)
            (String (digitChar (u mod 10)) EmptyString))
  /\ (u / 10 <> 0 ->
      endsWith (fmtUint (S (S fuel)) u EmptyString)
        (digitChar ((u / 10) mod 10)) (digitChar (u mod 10))).
Proof.
  assert (Hone : forall f v,
            fmtUint (S f) v EmptyString =
              (if v / 10 =? 0 then String (digitChar (v mod 10)) EmptyString
               else String.append (fmtUint f (v / 10) EmptyString)
                      (String (digitChar (v mod 10)) EmptyString))).
  { intros f v. cbn [fmtUint]. destruct (v / 10 =? 0); [reflexivity|].
    apply fmtUint_acc. }
  split; [apply Hone|].
  intros Hnz. rewrite Hone. destruct (Z.eqb_spec (u / 10) 0) as [H0|_]; [contradiction|].
  rewrite (Hone fuel (u / 10)).
  destruct (u / 10 / 10 =? 0).
  - exists EmptyString. reflexivity.
  - exists (fmtUint fuel (u / 10 / 10) EmptyString). now rewrite string_app_assoc.
Qed.

Lemma digitChar_inj (d d' : Z) :
  0 <= d <= 9 -> 0 <= d' <= 9 -> digitChar d = digitChar d' -> d = d'.
Proof.
  intros Hd Hd' H. apply (f_equal nat_of_ascii) in H.
  rewrite !digitChar_code in H by assumption. lia.
Qed.

Lemma digitChar_not_dash (d : Z) : 0 <= d <= 9 -> digitChar d <> "-"%char.
Proof.
  intros Hd H. apply (f_equal nat_of_ascii) in H.
  rewrite digitChar_code in H by assumption. cbn in H. lia.
Qed.

(** Behind a dash, a formatted number leaves the text ending in "-0" only
    when the number is 0. *)
Lemma dash_fmtInt64_ends_dash_zero (pre : string) (b : Z) :
  endsWith (pre ++ String "-"%char (fmtInt64 b)) "-"%char (digitChar 0) -> b = 0.
Proof.
  intros Hend.
  assert (Hcase : forall u, 0 <= u ->
            forall lead : string,
              endsWith (lead ++ String "-"%char (fmtUint 20 u EmptyString))
                "-"%char (digitChar 0) -> u = 0).
  { intros u Hu lead H.
    pose proof (Z.mod_pos_bound u 10 ltac:(lia)) as Hm.
    pose proof (Z.div_mod u 10 ltac:(lia)) as Hdm.
    destruct (fmtUint_last 18 u) as [Heq Hlast].
    destruct (Z.eq_dec (u / 10) 0) as [Hz|Hnz].
    - rewrite Hz in Heq. cbn [Z.eqb] in Heq. rewrite Heq in H.
      assert (H' : endsWith (lead ++ String "-"%char (String (digitChar (u mod 10)) EmptyString))
                     "-"%char (digitChar (u mod 10))) by (exists lead; reflexivity).
      destruct (endsWith_unique _ _ _ _ _ H H') as [_ Hd].
      apply digitChar_inj in Hd; lia.
    - specialize (Hlast Hnz).
      pose proof (Z.mod_pos_bound (u / 10) 10 ltac:(lia)) as Hm'.
      assert (H' : endsWith (lead ++ String "-"%char (fmtUint 20 u EmptyString))
                     (digitChar ((u / 10) mod 10)) (digitChar (u mod 10))).
      { apply endsWith_app. destruct Hlast as [p Hp]. rewrite Hp.
        exists (String "-"%char p). reflexivity. }
      destruct (endsWith_unique _ _ _ _ _ H H') as [Hdash _].
      symmetry in Hdash. apply digitChar_not_dash in Hdash; [contradiction|lia]. }
  unfold fmtInt64 in Hend. destruct (Z.ltb_spec b 0) as [Hneg|Hpos].
  - exfalso.
    assert (- b = 0); [|lia].
    apply (Hcase (- b) ltac:(lia) (pre ++ String "-"%char EmptyString)%string).
    rewrite string_app_assoc. exact Hend.
  - apply (Hcase b Hpos pre). exact Hend.
Qed.

Lemma byteRange_last_index_zero (start end_ s : Z) :
  byteRange start end_ = byteRange s 0 -> end_ = 0.
Proof.
  unfold byteRange. intros H.
  apply (dash_fmtInt64_ends_dash_zero ("bytes=" ++ fmtInt64 start)%string end_).
  change ("-" ++ fmtInt64 end_)%string with (String "-"%char (fmtInt64 end_)) in H.
  rewrite string_app_assoc. cbn [append] in H |- *.
  rewrite H. exists ("bytes=" ++ fmtInt64 s)%string.
  rewrite string_app_assoc. reflexivity.
Qed.

(** ** getObjectRange and getObject *)

Lemma getObjectParams_end_zero (bucket key : string) (start : Z) :
  getObjectParams bucket key start 0 =
    {| GetObjectInput.Key := key; GetObjectInput.Bucket := bucket;
       GetObjectInput.Range := None |}.
Proof. reflexivity. Qed.

Lemma getObjectParams_range (bucket key : string) (start end_ : Z) (r : string) :
  GetObjectInput.Range (getObjectParams bucket key start end_) = Some r ->
  end_ <> 0 /\ r = byteRange start end_.
Proof.
  unfold getObjectParams. destruct (Z.eqb_spec end_ 0) as [->|Hne]; cbn.
  - discriminate.
  - intros [= <-]. auto.
Qed.

(** C10.  With [end = 0] the request carries the key and the bucket and
    no range, whatever [start] is, so the call gives back what the store
    gives for the unrestricted read; [getObject] is [getObjectRange] at
    start 0 and end 0; a request that carries a range was built from a
    non-zero [end], whose decimal text closes the range; and no request
    carries the text of a range whose last byte index is 0. *)
Theorem getObjectRange_end_zero_reads_whole_object
  (GetObject : GetObjectInput.t -> option GetObjectOutput.t * option string)
  (bucket key : string) (start : Z) :
  getObjectParams bucket key start 0 =
    {| GetObjectInput.Key := key; GetObjectInput.Bucket := bucket;
       GetObjectInput.Range := None |}
  /\ getObjectRange GetObject bucket key start 0 = getObjectRange GetObject bucket key 0 0
  /\ (forall whole err,
        GetObject {| GetObjectInput.Key := key; GetObjectInput.Bucket := bucket;
                     GetObjectInput.Range := None |} = (Some whole, err) ->
        getObjectRange GetObject bucket key start 0
          = Returned (GetObjectOutput.Body whole, err))
  /\ getObject GetObject bucket key = getObjectRange GetObject bucket key 0 0
  /\ (forall start' end_ r,
        GetObjectInput.Range (getObjectParams bucket key start' end_) = Some r ->
        end_ <> 0 /\ r = byteRange start' end_)
  /\ (forall start' end_ first,
        GetObjectInput.Range (getObjectParams bucket key start' end_)
          <> Some (byteRange first 0)).
Proof.
  split; [reflexivity|].
  split; [reflexivity|].
  split.
  - intros whole err Hget. unfold getObjectRange.
    rewrite getObjectParams_end_zero, Hget. destruct err; reflexivity.
  - split; [reflexivity|]. split.
    + intros start' end_ r. apply getObjectParams_range.
    + intros start' end_ first Hr.
      apply getObjectParams_range in Hr. destruct Hr as [Hne Heq].
      symmetry in Heq. apply byteRange_last_index_zero in Heq. contradiction.
Qed.

(** ** deleteObjectList *)

Lemma no_errors_nil (A : Type) (l : list A) :
  (0 <? List.length l)%nat = false -> l = [].
Proof. destruct l; [reflexivity|discriminate]. Qed.

Section DeleteProperties.

Variable DeleteObjects :
  list DeleteObjectsInput.t -> DeleteObjectsInput.t -> DeleteObjectsOutput.t + string.

(** What one batch adds to the requests sent, and how it ends when the
    store reports failures for some of its keys. *)
Lemma _deleteObjectList_step (calls calls' : list DeleteObjectsInput.t)
  (part : list S3Obj) (o : outcome (option string)) :
  _deleteObjectList DeleteObjects calls part = (calls', o) ->
  (calls' = calls /\ o = Panicked IndexOutOfRange)
  \/ exists req,
       calls' = calls ++ [req]
       /\ match DeleteObjects calls req with
          | inr err => o = Returned (Some err)
          | inl response =>
              (DeleteObjectsOutput.Errors response = [] /\ o = Returned None)
              \/ (DeleteObjectsOutput.Errors response <> []
                  /\ o = Fatal "Error deleting objects")
          end.
Proof.
  unfold _deleteObjectList. destruct part as [|first rest].
  - intros [= <- <-]. left. auto.
  - set (req := {| DeleteObjectsInput.Bucket := Bucket first;
                   DeleteObjectsInput.Quiet := true;
                   DeleteObjectsInput.Objects := map Key (first :: rest) |}).
    intros H. right. exists req.
    destruct (DeleteObjects calls req) as [response|err] eqn:Hresp.
    + destruct (0 <? List.length (DeleteObjectsOutput.Errors response))%nat eqn:Hlen;
        injection H as <- <-; split; try reflexivity.
      * right. split; [|reflexivity]. intros Hnil. rewrite Hnil in Hlen. discriminate.
      * left. split; [|reflexivity]. apply no_errors_nil; assumption.
    + injection H as <- <-. split; reflexivity.
Qed.

End DeleteProperties.

(** The batches of the loop: how many are left from index [i] on, and the
    slice that the loop hands on. *)
Lemma batch_count_step (n i : nat) :
  (i < n)%nat ->
  ((n - i + 999) / 1000 = S ((n - (i + 1000) + 999) / 1000))%nat.
Proof.
  intros Hi. destruct (Nat.le_gt_cases (n - i) 1000) as [Hle|Hgt].
  - replace (n - (i + 1000))%nat with 0%nat by lia.
    replace (n - i + 999)%nat with ((n - i - 1) + 1 * 1000)%nat by lia.
    rewrite Nat.div_add by lia.
    rewrite (Nat.div_small (n - i - 1)) by lia.
    rewrite (Nat.div_small (0 + 999)) by lia. reflexivity.
  - replace (n - i + 999)%nat with ((n - (i + 1000) + 999) + 1 * 1000)%nat by lia.
    rewrite Nat.div_add by lia. lia.
Qed.

Lemma batch_count_done (n i : nat) : (n <= i)%nat -> ((n - i + 999) / 1000 = 0)%nat.
Proof.
  intros Hi. replace (n - i)%nat with 0%nat by lia. apply Nat.div_small. lia.
Qed.

Lemma batch_slice (objectList : list S3Obj) (i : nat) :
  (i < List.length objectList)%nat ->
  let end_ := if (List.length objectList <=? i + 1000)%nat
              then List.length objectList else (i + 1000)%nat in
  firstn (end_ - i) (skipn i objectList) = firstn 1000 (skipn i objectList)
  /\ firstn 1000 (skipn i objectList) <> [].
Proof.
  intros Hi. cbv zeta.
  pose proof (length_skipn i objectList) as Hlen.
  split.
  - destruct (Nat.leb_spec (List.length objectList) (i + 1000)) as [Hle|Hgt].
    + rewrite !firstn_all2 by lia. reflexivity.
    + f_equal. lia.
  - destruct (skipn i objectList) as [|x rest]; [cbn in Hlen; lia|discriminate].
Qed.

Section DeleteBatches.

Variable DeleteObjects :
  list DeleteObjectsInput.t -> DeleteObjectsInput.t -> DeleteObjectsOutput.t + string.

Lemma _deleteObjectList_request (calls : list DeleteObjectsInput.t)
  (objectList : list S3Obj) (k : nat) :
  firstn 1000 (skipn (1000 * k) objectList) <> [] ->
  _deleteObjectList DeleteObjects calls (firstn 1000 (skipn (1000 * k) objectList))
  = match DeleteObjects calls (batchRequestOf objectList k) with
    | inr err => (calls ++ [batchRequestOf objectList k], Returned (Some err))
    | inl response =>
        if (0 <? List.length (DeleteObjectsOutput.Errors response))%nat
        then (calls ++ [batchRequestOf objectList k], Fatal "Error deleting objects")
        else (calls ++ [batchRequestOf objectList k], Returned None)
    end.
Proof.
  intros Hne. unfold _deleteObjectList, batchRequestOf.
  destruct (firstn 1000 (skipn (1000 * k) objectList)) as [|first rest];
    [contradiction|reflexivity].
Qed.

Lemma deleteLoop_unfold (fuel k : nat) (calls : list DeleteObjectsInput.t)
  (objectList : list S3Obj) :
  deleteLoop DeleteObjects (S fuel) (1000 * k) calls objectList
  = if (1000 * k <? List.length objectList)%nat then
      match _deleteObjectList DeleteObjects calls
              (firstn 1000 (skipn (1000 * k) objectList)) with
      | (calls', Returned None) =>
          deleteLoop DeleteObjects fuel (1000 * S k) calls' objectList
      | (calls', Returned (Some err)) => Some (calls', Returned (Some err))
      | (calls', Panicked p) => Some (calls', Panicked p)
      | (calls', Fatal m) => Some (calls', Fatal m)
      end
    else Some (calls, Returned None).
Proof.
  cbn [deleteLoop]. unfold batch.
  destruct (Nat.ltb_spec (1000 * k) (List.length objectList)) as [Hi|Hi]; [|reflexivity].
  cbv zeta. rewrite (proj1 (batch_slice objectList (1000 * k) Hi)).
  replace (1000 * k + 1000)%nat with (1000 * S k)%nat by lia. reflexivity.
Qed.

Lemma deleteLoop_all_batches (objectList : list S3Obj) :
  (forall calls req, exists response,
      DeleteObjects calls req = inl response
      /\ DeleteObjectsOutput.Errors response = []) ->
  forall fuel k calls,
    ((List.length objectList - 1000 * k + 999) / 1000 < fuel)%nat ->
    deleteLoop DeleteObjects fuel (1000 * k) calls objectList
    = Some (calls ++ map (batchRequestOf objectList)
                         (seq k ((List.length objectList - 1000 * k + 999) / 1000)),
            Returned None).
Proof.
  intros Hok. induction fuel as [|fuel IH]; intros k calls Hfuel; [lia|].
  rewrite deleteLoop_unfold.
  destruct (Nat.ltb_spec (1000 * k) (List.length objectList)) as [Hi|Hi].
  - rewrite _deleteObjectList_request by (apply batch_slice; exact Hi).
    destruct (Hok calls (batchRequestOf objectList k)) as [response [-> Hnone]].
    rewrite Hnone. cbn [List.length Nat.ltb Nat.leb].
    rewrite batch_count_step in Hfuel |- * by exact Hi.
    replace (1000 * k + 1000)%nat with (1000 * S k)%nat in * by lia.
    rewrite IH by lia.
    cbn [seq map]. rewrite <- app_assoc. reflexivity.
  - rewrite batch_count_done by exact Hi. cbn [seq map]. now rewrite app_nil_r.
Qed.

Lemma batches_cover (objectList : list S3Obj) :
  forall m k,
    m = ((List.length objectList - 1000 * k + 999) / 1000)%nat ->
    List.concat (map (fun j => firstn 1000 (skipn (1000 * j) objectList)) (seq k m))
    = skipn (1000 * k) objectList.
Proof.
  induction m as [|m IH]; intros k Hm.
  - cbn. symmetry. apply skipn_all2.
    destruct (Nat.le_gt_cases (List.length objectList) (1000 * k)) as [Hle|Hgt];
      [exact Hle|].
    rewrite batch_count_step in Hm by exact Hgt. discriminate.
  - destruct (Nat.le_gt_cases (List.length objectList) (1000 * k)) as [Hle|Hgt].
    + rewrite batch_count_done in Hm by exact Hle. discriminate.
    + rewrite batch_count_step in Hm by exact Hgt. apply Nat.succ_inj in Hm.
      replace (1000 * k + 1000)%nat with (1000 * S k)%nat in Hm by lia.
      cbn [seq map List.concat]. rewrite (IH (S k) Hm).
      replace (1000 * S k)%nat with (1000 + 1000 * k)%nat by lia.
      rewrite <- skipn_skipn. apply firstn_skipn.
Qed.

Lemma deleteLoop_request_error_is_last (objectList : list S3Obj) :
  forall fuel i calls0 calls o,
    deleteLoop DeleteObjects fuel i calls0 objectList = Some (calls, o) ->
    exists added,
      calls = calls0 ++ added
      /\ forall pre req post err,
           added = pre ++ req :: post ->
           DeleteObjects (calls0 ++ pre) req = inr err ->
           post = [] /\ o = Returned (Some err).
Proof.
  induction fuel as [|fuel IH]; intros i calls0 calls o H; [discriminate|].
  cbn [deleteLoop] in H.
  destruct (i <? List.length objectList)%nat.
  2:{ injection H as <- <-. exists []. split; [now rewrite app_nil_r|].
      intros pre req post err Hadd. destruct pre; discriminate. }
  cbv zeta in H.
  match type of H with
  | context [_deleteObjectList _ _ ?p] => set (part := p) in H
  end.
  destruct (_deleteObjectList DeleteObjects calls0 part) as [calls1 o1] eqn:Hstep.
  apply _deleteObjectList_step in Hstep.
  destruct Hstep as [[-> ->]|[req0 [-> Hresp]]].
  - injection H as <- <-. exists []. split; [now rewrite app_nil_r|].
    intros pre req post err Hadd. destruct pre; discriminate.
  - destruct (DeleteObjects calls0 req0) as [response0|err0] eqn:Hd0.
    + destruct Hresp as [[Hnil ->]|[Hne ->]].
      * apply IH in H. destruct H as [added [-> Hadded]].
        exists (req0 :: added). split; [now rewrite <- app_assoc|].
        intros pre req post err Hadd Hd.
        destruct pre as [|x pre].
        -- injection Hadd as <- <-. rewrite app_nil_r in Hd. congruence.
        -- injection Hadd as <- Hadd.
           apply (Hadded pre req post err Hadd).
           rewrite <- app_assoc. exact Hd.
      * injection H as <- <-. exists [req0]. split; [reflexivity|].
        intros pre req post err Hadd Hd.
        destruct pre as [|x pre].
        -- injection Hadd as <- <-. rewrite app_nil_r in Hd. congruence.
        -- injection Hadd as _ Hadd. destruct pre; discriminate.
    + subst o1. injection H as <- <-. exists [req0]. split; [reflexivity|].
      intros pre req post err Hadd Hd.
      destruct pre as [|x pre].
      * injection Hadd as <- <-. rewrite app_nil_r in Hd.
        rewrite Hd0 in Hd. injection Hd as <-. auto.
      * injection Hadd as _ Hadd. destruct pre; discriminate.
Qed.

(** The run up to the first batch for which the store reports failures. *)
Lemma deleteLoop_first_failure (objectList : list S3Obj) (k : nat)
  (response : DeleteObjectsOutput.t) :
  (1000 * k < List.length objectList)%nat ->
  (forall j, (j < k)%nat ->
     exists r,
       DeleteObjects (map (batchRequestOf objectList) (seq 0 j))
         (batchRequestOf objectList j) = inl r
       /\ DeleteObjectsOutput.Errors r = []) ->
  DeleteObjects (map (batchRequestOf objectList) (seq 0 k)) (batchRequestOf objectList k)
    = inl response ->
  DeleteObjectsOutput.Errors response <> [] ->
  forall fuel j,
    (j <= k)%nat -> (k - j < fuel)%nat ->
    deleteLoop DeleteObjects fuel (1000 * j) (map (batchRequestOf objectList) (seq 0 j))
      objectList
    = Some (map (batchRequestOf objectList) (seq 0 (S k)), Fatal "Error deleting objects").
Proof.
  intros Hk Hbefore Hresp Herr.
  induction fuel as [|fuel IH]; intros j Hj Hfuel; [lia|].
  rewrite deleteLoop_unfold.
  destruct (Nat.ltb_spec (1000 * j) (List.length objectList)) as [Hi|Hi]; [|lia].
  rewrite _deleteObjectList_request by (apply batch_slice; exact Hi).
  destruct (Nat.eq_dec j k) as [->|Hne].
  - rewrite Hresp.
    destruct (DeleteObjectsOutput.Errors response) as [|e errs] eqn:He; [contradiction|].
    cbn [List.length Nat.ltb Nat.leb].
    rewrite seq_S, map_app. reflexivity.
  - destruct (Hbefore j ltac:(lia)) as [r [-> Hnone]].
    rewrite Hnone. cbn [List.length Nat.ltb Nat.leb].
    replace (map (batchRequestOf objectList) (seq 0 j) ++ [batchRequestOf objectList j])
      with (map (batchRequestOf objectList) (seq 0 (S j)))
      by (rewrite seq_S, map_app; reflexivity).
    apply IH; lia.
Qed.

(** With fuel for every batch the loop finishes, it has sent batches of
    the list in order, and it does not end in a panic. *)
Lemma deleteLoop_finishes (objectList : list S3Obj) :
  forall fuel k calls0,
    ((List.length objectList - 1000 * k + 999) / 1000 < fuel)%nat ->
    exists m o,
      deleteLoop DeleteObjects fuel (1000 * k) calls0 objectList
      = Some (calls0 ++ map (batchRequestOf objectList) (seq k m), o)
      /\ (forall j, (k <= j < k + m)%nat -> (1000 * j < List.length objectList)%nat)
      /\ forall p, o <> Panicked p.
Proof.
  induction fuel as [|fuel IH]; intros k calls0 Hfuel; [lia|].
  rewrite deleteLoop_unfold.
  destruct (Nat.ltb_spec (1000 * k) (List.length objectList)) as [Hi|Hi].
  - rewrite _deleteObjectList_request by (apply batch_slice; exact Hi).
    assert (Hone : forall o : outcome (option string),
               (forall p, o <> Panicked p) ->
               exists m o',
                 Some (calls0 ++ [batchRequestOf objectList k], o)
                 = Some (calls0 ++ map (batchRequestOf objectList) (seq k m), o')
                 /\ (forall j, (k <= j < k + m)%nat ->
                               (1000 * j < List.length objectList)%nat)
                 /\ forall p, o' <> Panicked p).
    { intros o Ho. exists 1%nat, o. split; [reflexivity|]. split; [|exact Ho].
      intros j Hj. replace j with k by lia. exact Hi. }
    destruct (DeleteObjects calls0 (batchRequestOf objectList k)) as [response|err].
    + destruct (0 <? List.length (DeleteObjectsOutput.Errors response))%nat.
      * apply Hone. discriminate.
      * rewrite batch_count_step in Hfuel by exact Hi.
        replace (1000 * k + 1000)%nat with (1000 * S k)%nat in Hfuel by lia.
        destruct (IH (S k) (calls0 ++ [batchRequestOf objectList k]) ltac:(lia))
          as [m [o [Hrun [Hin Hnp]]]].
        exists (S m), o. split; [|split; [|exact Hnp]].
        -- rewrite Hrun. cbn [seq map]. now rewrite <- app_assoc.
        -- intros j Hj. destruct (Nat.eq_dec j k) as [->|Hne]; [exact Hi|].
           apply Hin. lia.
    + apply Hone. discriminate.
  - exists 0%nat, (Returned None). cbn [seq map]. rewrite app_nil_r.
    split; [reflexivity|]. split; [intros j Hj; lia|discriminate].
Qed.

End DeleteBatches.

(** C9, as the code has it.  When the store deletes the batches before
    batch [k] and reports failures of some keys of batch [k], whatever they
    are, [deleteObjectList] ends in [log.Fatal] with the fixed message: the
    process is stopped there, no error value comes back to the caller, no
    failing key is named, and the requests sent are those of the batches 0
    to [k], none after. *)
Theorem deleteObjectList_partial_failure_is_fatal
  (DeleteObjects :
     list DeleteObjectsInput.t -> DeleteObjectsInput.t -> DeleteObjectsOutput.t + string)
  (objectList : list S3Obj) (k : nat) (response : DeleteObjectsOutput.t) (fuel : nat) :
  (1000 * k < List.length objectList)%nat ->
  (forall j, (j < k)%nat ->
     exists r,
       DeleteObjects (map (batchRequestOf objectList) (seq 0 j))
         (batchRequestOf objectList j) = inl r
       /\ DeleteObjectsOutput.Errors r = []) ->
  DeleteObjects (map (batchRequestOf objectList) (seq 0 k)) (batchRequestOf objectList k)
    = inl response ->
  DeleteObjectsOutput.Errors response <> [] ->
  (k < fuel)%nat ->
  deleteObjectList DeleteObjects fuel objectList
  = Some (map (batchRequestOf objectList) (seq 0 (S k)), Fatal "Error deleting objects").
Proof.
  intros Hk Hbefore Hresp Herr Hfuel. unfold deleteObjectList.
  exact (deleteLoop_first_failure DeleteObjects objectList k response
           Hk Hbefore Hresp Herr fuel 0%nat ltac:(lia) ltac:(lia)).
Qed.

Lemma deleteObjectList_partial_failure_is_fatal_witness :
  deleteObjectList failSecondBatch 2 manyObjects
  = Some (map (batchRequestOf manyObjects) (seq 0 2), Fatal "Error deleting objects").
Proof.
  apply (deleteObjectList_partial_failure_is_fatal failSecondBatch manyObjects 1
           (deniedKeys (repeat "k"%string 1000)) 2).
  - vm_compute. lia.
  - intros j Hj. exists (deniedKeys []). replace j with 0%nat by lia.
    split; reflexivity.
  - vm_compute. reflexivity.
  - vm_compute. discriminate.
  - lia.
Defined.

(** C9 fails as stated: when the store refuses the single key
    [locked], the run ends in [log.Fatal] with a message that names no key,
    and no error value comes back to the caller, whatever the fuel. *)
Lemma deleteObjectList_failing_key_not_surfaced :
  deleteObjectList refuseLocked 2 [mkObj "locked" 1 "e"]
    = Some ([{| DeleteObjectsInput.Bucket := "bucket"; DeleteObjectsInput.Quiet := true;
                DeleteObjectsInput.Objects := ["locked"%string] |}],
            Fatal "Error deleting objects")
  /\ forall fuel calls err,
       deleteObjectList refuseLocked fuel [mkObj "locked" 1 "e"]
         <> Some (calls, Returned (Some err)).
Proof.
  split; [reflexivity|].
  intros [|fuel] calls err; cbn; discriminate.
Qed.

(** Without failures, 2500 keys go out in three requests of 1000, 1000 and
    500 keys. *)
Example deleteObjectList_three_batches :
  deleteObjectList deletesAll 4 manyObjects
    = Some ([batchRequest 1000; batchRequest 1000; batchRequest 500], Returned None).
Proof. vm_compute. reflexivity. Qed.

(** ** createCSVManifest: the records *)

Lemma manifestLines_cons (cur : Z) (hdr obj : S3Obj) (headers objectList : list S3Obj)
  (lines : list (list string)) :
  manifestLines cur (hdr :: headers) (obj :: objectList) = Returned lines ->
  exists rest,
    lines = [Key obj; fmtInt64 (add64 cur (Size hdr)); fmtInt64 (Size obj); ETag obj] :: rest
    /\ manifestLines (add64 (add64 cur (Size hdr)) (Size obj)) headers objectList
       = Returned rest.
Proof.
  cbn [manifestLines].
  destruct (manifestLines (add64 (add64 cur (Size hdr)) (Size obj)) headers objectList)
    as [rest| |]; cbn; try discriminate.
  intros [= <-]. exists rest. auto.
Qed.

Lemma manifestLines_records :
  forall (objectList headers : list S3Obj) (cur : Z) (lines : list (list string)),
    manifestLines cur headers objectList = Returned lines ->
    List.length lines = List.length objectList
    /\ forall k obj,
         nth_error objectList k = Some obj ->
         exists off,
           int64_range off
           /\ nth_error lines k
              = Some [Key obj; fmtInt64 off; fmtInt64 (Size obj); ETag obj].
Proof.
  induction objectList as [|obj objectList IH]; intros headers cur lines H.
  - cbn in H. injection H as <-. split; [reflexivity|].
    intros k obj Hk. destruct k; discriminate.
  - destruct headers as [|hdr headers]; [discriminate|].
    apply manifestLines_cons in H. destruct H as [rest [-> Hrest]].
    apply IH in Hrest. destruct Hrest as [Hlen Hrec].
    split; [cbn [List.length]; now rewrite Hlen|].
    intros k obj' Hk. destruct k as [|k].
    + injection Hk as <-. exists (add64 cur (Size hdr)).
      split; [apply wrap64_range|reflexivity].
    + cbn [nth_error] in Hk |- *. exact (Hrec k obj' Hk).
Qed.

(** ** _buildManifest: the re-estimation loop *)

Lemma manifestLines_outcome :
  forall (objectList headers : list S3Obj) (cur : Z),
    ((List.length objectList <= List.length headers)%nat ->
     exists lines, manifestLines cur headers objectList = Returned lines)
    /\ ((List.length headers < List.length objectList)%nat ->
        manifestLines cur headers objectList = Panicked IndexOutOfRange).
Proof.
  induction objectList as [|obj objectList IH]; intros headers cur.
  - split; [intros _; exists []; reflexivity|cbn; lia].
  - destruct headers as [|hdr headers]; cbn [manifestLines List.length].
    + split; [lia|reflexivity].
    + destruct (IH headers (add64 (add64 cur (Size hdr)) (Size obj))) as [Hok Hpanic].
      split; intros Hlen.
      * destruct Hok as [lines Hlines]; [lia|]. rewrite Hlines. cbn. eauto.
      * rewrite Hpanic by lia. reflexivity.
Qed.

Lemma createCSVManifest_outcome (headers objectList : list S3Obj) (offset : Z) :
  ((List.length objectList <= List.length headers)%nat ->
   exists data, createCSVManifest offset headers objectList = Returned data)
  /\ ((List.length headers < List.length objectList)%nat ->
      createCSVManifest offset headers objectList = Panicked IndexOutOfRange).
Proof.
  unfold createCSVManifest.
  destruct (manifestLines_outcome objectList headers (manifestStart offset)) as [Hok Hpanic].
  split; intros Hlen.
  - destruct Hok as [lines Hlines]; [assumption|]. rewrite Hlines. cbn. eauto.
  - rewrite Hpanic by assumption. reflexivity.
Qed.

Lemma paddedLen_range (data : string) : int64_range (paddedLen data).
Proof. unfold paddedLen, add64. apply wrap64_range. Qed.

(** The four ways a pass can end. *)
Lemma reestimate_cases (estimate : Z) (headers objectList : list S3Obj) :
  match reestimate estimate headers objectList with
  | Returned (data, None) =>
      createCSVManifest estimate headers objectList = Returned data
      /\ paddedLen data >= estimate
  | Returned (data, Some lp) =>
      createCSVManifest estimate headers objectList = Returned data
      /\ lp = paddedLen data /\ - 2 ^ 63 <= lp < estimate
  | Panicked p =>
      p = IndexOutOfRange /\ (List.length headers < List.length objectList)%nat
  | Fatal _ => False
  end.
Proof.
  unfold reestimate.
  destruct (Nat.le_gt_cases (List.length objectList) (List.length headers)) as [Hle|Hgt].
  - destruct (proj1 (createCSVManifest_outcome headers objectList estimate) Hle)
      as [data Hdata].
    rewrite Hdata. cbn [bind].
    pose proof (paddedLen_range data) as Hr. unfold int64_range in Hr.
    destruct (Z.geb_spec (paddedLen data) estimate); repeat split; auto; lia.
  - rewrite (proj2 (createCSVManifest_outcome headers objectList estimate) Hgt).
    cbn. auto.
Qed.

Lemma estimateLoop_terminates (headers objectList : list S3Obj) :
  forall fuel estimate,
    (Z.to_nat (estimate + 2 ^ 63) < fuel)%nat ->
    exists o, estimateLoop fuel estimate headers objectList = Some o.
Proof.
  induction fuel as [|fuel IH]; intros estimate Hfuel; [lia|].
  cbn [estimateLoop].
  pose proof (reestimate_cases estimate headers objectList) as Hc.
  destruct (reestimate estimate headers objectList) as [[data [lp|]]|p|m]; eauto.
  destruct Hc as [_ [_ Hlp]]. apply IH. lia.
Qed.

Lemma estimateLoop_more_fuel (headers objectList : list S3Obj) :
  forall fuel fuel' estimate o,
    estimateLoop fuel estimate headers objectList = Some o ->
    (fuel <= fuel')%nat ->
    estimateLoop fuel' estimate headers objectList = Some o.
Proof.
  induction fuel as [|fuel IH]; intros fuel' estimate o H Hle; [discriminate|].
  destruct fuel' as [|fuel']; [lia|].
  cbn [estimateLoop] in *.
  destruct (reestimate estimate headers objectList) as [[data [lp|]]|p|m]; auto.
  apply (IH fuel' lp o H). lia.
Qed.

Lemma _buildManifest_more_fuel (headers objectList : list S3Obj) :
  forall fuel fuel' o,
    _buildManifest fuel headers objectList = Some o ->
    (fuel <= fuel')%nat ->
    _buildManifest fuel' headers objectList = Some o.
Proof.
  unfold _buildManifest. intros fuel fuel' o H Hle.
  destruct (createCSVManifest 0 headers objectList) as [data0|p|m]; try exact H.
  eapply estimateLoop_more_fuel; eassumption.
Qed.

(** With a header for every entry, a finished loop left through its exit
    test. *)
Lemma estimateLoop_loopReturns (headers objectList : list S3Obj) :
  (List.length objectList <= List.length headers)%nat ->
  forall fuel estimate o,
    estimateLoop fuel estimate headers objectList = Some o ->
    exists data, o = Returned data /\ loopReturns headers objectList estimate data.
Proof.
  intros Hlen. induction fuel as [|fuel IH]; intros estimate o H; [discriminate|].
  cbn [estimateLoop] in H.
  pose proof (reestimate_cases estimate headers objectList) as Hc.
  destruct (reestimate estimate headers objectList) as [[data [lp|]]|p|m].
  - destruct Hc as [Hd [-> Hlt]].
    destruct (IH _ _ H) as [result [-> Hr]].
    exists result. split; [reflexivity|].
    eapply loopReturns_again; [exact Hd|lia|exact Hr].
  - destruct Hc as [Hd Hge]. injection H as <-.
    exists data. split; [reflexivity|]. apply loopReturns_break; assumption.
  - destruct Hc as [_ Hshort]. lia.
  - contradiction.
Qed.

(** The loop leaves with one serialization only. *)
Lemma loopReturns_unique (headers objectList : list S3Obj) (estimate : Z)
  (data data' : string) :
  loopReturns headers objectList estimate data ->
  loopReturns headers objectList estimate data' ->
  data = data'.
Proof.
  intros H. revert data'.
  induction H as [e d Hd Hge|e d r Hd Hlt Hr IH]; intros data' H'; inversion H'; subst.
  - congruence.
  - match goal with
    | Hother : createCSVManifest e headers objectList = Returned ?x |- _ =>
        assert (d = x) by congruence; subst; lia
    end.
  - match goal with
    | Hother : createCSVManifest e headers objectList = Returned data' |- _ =>
        assert (d = data') by congruence; subst; lia
    end.
  - match goal with
    | Hother : createCSVManifest e headers objectList = Returned ?x,
      Hnext : loopReturns headers objectList (paddedLen ?x) data' |- _ =>
        assert (d = x) by congruence; subst; apply IH; exact Hnext
    end.
Qed.

(** C7, as the code has it.  On every input [_buildManifest] ends, and
    allowing more passes than it needs never changes how: with fewer
    headers than entries in the index panic, and otherwise by the exit test
    of the loop, returning the serialization of the pass that met the test.
    Every pass before that one failed the test and handed its padded length
    on as the next estimate.  There is no other exit: no count of passes
    ends the run and no error is its result. *)
Theorem _buildManifest_ends_only_by_exit_test (headers objectList : list S3Obj) :
  exists fuel o,
    (forall fuel', (fuel <= fuel')%nat ->
                   _buildManifest fuel' headers objectList = Some o)
    /\ (((List.length headers < List.length objectList)%nat
         /\ o = Panicked IndexOutOfRange)
        \/ ((List.length objectList <= List.length headers)%nat
            /\ exists data0 data,
                 createCSVManifest 0 headers objectList = Returned data0
                 /\ o = Returned data
                 /\ loopReturns headers objectList (bufLen data0) data
                 /\ forall data',
                      loopReturns headers objectList (bufLen data0) data' ->
                      data' = data)).
Proof.
  destruct (Nat.le_gt_cases (List.length objectList) (List.length headers)) as [Hle|Hgt].
  - destruct (proj1 (createCSVManifest_outcome headers objectList 0) Hle) as [data0 H0].
    destruct (estimateLoop_terminates headers objectList
                (S (Z.to_nat (bufLen data0 + 2 ^ 63))) (bufLen data0)) as [o Ho]; [lia|].
    destruct (estimateLoop_loopReturns headers objectList Hle _ _ _ Ho)
      as [data [-> Hr]].
    exists (S (Z.to_nat (bufLen data0 + 2 ^ 63))), (Returned data). split.
    + intros fuel' Hfuel. unfold _buildManifest. rewrite H0.
      eapply estimateLoop_more_fuel; eassumption.
    + right. split; [exact Hle|]. exists data0, data.
      repeat split; try assumption.
      intros data' Hr'. eapply loopReturns_unique; eassumption.
  - exists 0%nat, (Panicked IndexOutOfRange). split.
    + intros fuel' _. unfold _buildManifest.
      rewrite (proj2 (createCSVManifest_outcome headers objectList 0) Hgt). reflexivity.
    + left. auto.
Qed.

(** C7 fails as stated: on two entries the loop makes one
    pass at seed 512, finds a padded length of 1024, and returns that
    serialization with no error, although serializing at seed 1024 gives
    other offsets; no amount of fuel turns the outcome into a failure. *)
Lemma _buildManifest_returns_unsettled_layout :
  exists data,
    _buildManifest 1 twoHeaders twoObjects = Some (Returned data)
    /\ estimateTrace 1 512 twoHeaders twoObjects = [512]
    /\ createCSVManifest 512 twoHeaders twoObjects = Returned data
    /\ paddedLen data = 1024
    /\ createCSVManifest 1024 twoHeaders twoObjects <> Returned data
    /\ forall fuel, (1 <= fuel)%nat ->
         _buildManifest fuel twoHeaders twoObjects = Some (Returned data).
Proof.
  destruct (_buildManifest 1 twoHeaders twoObjects) as [[data| |]|] eqn:Hb;
    [|vm_compute in Hb; discriminate..].
  exists data. split; [reflexivity|].
  assert (Hdata : createCSVManifest 512 twoHeaders twoObjects = Returned data).
  { vm_compute in Hb. injection Hb as <-. vm_compute. reflexivity. }
  split; [vm_compute; reflexivity|]. split; [exact Hdata|].
  split; [|split].
  - vm_compute in Hdata. injection Hdata as <-. vm_compute. reflexivity.
  - vm_compute in Hdata. injection Hdata as <-. vm_compute. discriminate.
  - intros fuel Hfuel.
    apply (_buildManifest_more_fuel twoHeaders twoObjects 1 fuel (Returned data) Hb Hfuel).
Qed.

(** C3, evaluated where it fails.  On the same two entries the manifest
    that [_buildManifest] returns records the offsets 1536 and 10240 and is
    513 bytes long, 1024 with its padding; serialized again at seed 1024
    the records read 2048 and 10752. *)
Lemma _buildManifest_result_not_reproduced :
  _buildManifest 1 twoHeaders twoObjects
    = Some (Returned (csv.WriteAll [[replicate "a" 245; "1536"; "8192"; "x"];
                                    [replicate "b" 244; "10240"; "0"; "y"]]%string))
  /\ paddedLen (csv.WriteAll [[replicate "a" 245; "1536"; "8192"; "x"];
                              [replicate "b" 244; "10240"; "0"; "y"]]%string) = 1024
  /\ createCSVManifest 1024 twoHeaders twoObjects
     = Returned (csv.WriteAll [[replicate "a" 245; "2048"; "8192"; "x"];
                               [replicate "b" 244; "10752"; "0"; "y"]]%string)
  /\ createCSVManifest 1024 twoHeaders twoObjects
     <> Returned (csv.WriteAll [[replicate "a" 245; "1536"; "8192"; "x"];
                                [replicate "b" 244; "10240"; "0"; "y"]]%string).
Proof.
  split; [vm_compute; reflexivity|].
  split; [vm_compute; reflexivity|].
  split; [vm_compute; reflexivity|].
  vm_compute. discriminate.
Qed.

(** ** Inputs that do not wrap: the loop makes a single pass *)

Lemma entriesSize_nonneg :
  forall objectList headers,
    Forall (fun hdr => 0 <= Size hdr) headers ->
    Forall (fun obj => 0 <= Size obj) objectList ->
    0 <= entriesSize headers objectList.
Proof.
  induction objectList as [|obj objectList IH]; intros headers Hh Ho; [reflexivity|].
  destruct headers as [|hdr headers]; [reflexivity|].
  cbn [entriesSize]. inversion Hh; inversion Ho; subst.
  specialize (IH headers ltac:(assumption) ltac:(assumption)). lia.
Qed.

(** With non-negative sizes and no wrap-around, a later start never gives
    a shorter manifest: every offset has at least as many digits. *)
Lemma manifestLines_length_mono :
  forall objectList headers cur cur' lines lines',
    Forall (fun hdr => 0 <= Size hdr) headers ->
    Forall (fun obj => 0 <= Size obj) objectList ->
    0 <= cur <= cur' ->
    cur' + entriesSize headers objectList < 2 ^ 63 ->
    manifestLines cur headers objectList = Returned lines ->
    manifestLines cur' headers objectList = Returned lines' ->
    (String.length (csv.WriteAll lines) <= String.length (csv.WriteAll lines'))%nat.
Proof.
  induction objectList as [|obj objectList IH];
    intros headers cur cur' lines lines' Hh Ho Hcur Hfit Hl Hl'.
  - cbn in Hl, Hl'. injection Hl as <-. injection Hl' as <-. lia.
  - destruct headers as [|hdr headers]; [discriminate|].
    inversion Hh as [|? ? Hh0 Hh']; inversion Ho as [|? ? Ho0 Ho']; subst.
    apply manifestLines_cons in Hl, Hl'.
    destruct Hl as [rest [-> Hrest]]. destruct Hl' as [rest' [-> Hrest']].
    cbn [entriesSize] in Hfit.
    pose proof (entriesSize_nonneg objectList headers Hh' Ho') as Hnn.
    assert (H1 : add64 cur (Size hdr) = cur + Size hdr)
      by (apply wrap64_small; unfold int64_range; lia).
    assert (H1' : add64 cur' (Size hdr) = cur' + Size hdr)
      by (apply wrap64_small; unfold int64_range; lia).
    rewrite H1 in Hrest |- *. rewrite H1' in Hrest' |- *.
    assert (H2 : add64 (cur + Size hdr) (Size obj) = cur + Size hdr + Size obj)
      by (apply wrap64_small; unfold int64_range; lia).
    assert (H2' : add64 (cur' + Size hdr) (Size obj) = cur' + Size hdr + Size obj)
      by (apply wrap64_small; unfold int64_range; lia).
    rewrite H2 in Hrest. rewrite H2' in Hrest'.
    cbn [csv.WriteAll]. rewrite !string_length_app, !Write_record_length.
    rewrite !(writeField_fmtInt64 (cur + Size hdr)) by lia.
    rewrite !(writeField_fmtInt64 (cur' + Size hdr)) by lia.
    pose proof (fmtInt64_length_mono (cur + Size hdr) (cur' + Size hdr) ltac:(lia)).
    specialize (IH headers (cur + Size hdr + Size obj) (cur' + Size hdr + Size obj)
                  rest rest' Hh' Ho' ltac:(lia) ltac:(lia) Hrest Hrest').
    lia.
Qed.

Lemma manifestStart_bounds (offset : Z) :
  0 <= offset -> offset + 1024 < 2 ^ 63 ->
  offset + 512 <= manifestStart offset <= offset + 1023.
Proof.
  intros H0 Hfit. unfold manifestStart, add64.
  rewrite (wrap64_small (offset + 512)) by (unfold int64_range; lia).
  pose proof (findPadding_bounds (offset + 512)).
  rewrite wrap64_small by (unfold int64_range; lia). lia.
Qed.

(** On entries with non-negative sizes whose offsets stay below 2^63, the
    manifest serialized at the first estimate is at least as long as the
    estimate, so the first pass of the loop is the last and [estimate]
    keeps its first value. *)
Lemma _buildManifest_single_pass
  (headers objectList : list S3Obj) (data0 data : string) (fuel : nat) :
  Forall (fun hdr => 0 <= Size hdr) headers ->
  Forall (fun obj => 0 <= Size obj) objectList ->
  createCSVManifest 0 headers objectList = Returned data0 ->
  createCSVManifest (bufLen data0) headers objectList = Returned data ->
  Z.of_nat (String.length data0) + 1024 + entriesSize headers objectList < 2 ^ 63 ->
  Z.of_nat (String.length data) + 512 < 2 ^ 63 ->
  (String.length data0 <= String.length data)%nat
  /\ estimateTrace fuel (bufLen data0) headers objectList = [bufLen data0]
  /\ _buildManifest (S fuel) headers objectList = Some (Returned data).
Proof.
  intros Hh Ho H0 H1 Hfit Hfit'.
  pose proof (entriesSize_nonneg objectList headers Hh Ho) as Hnn.
  assert (Hl0 : bufLen data0 = Z.of_nat (String.length data0))
    by (apply wrap64_small; unfold int64_range; lia).
  assert (Hl : bufLen data = Z.of_nat (String.length data))
    by (apply wrap64_small; unfold int64_range; lia).
  assert (Hmono : (String.length data0 <= String.length data)%nat).
  { unfold createCSVManifest in H0, H1.
    destruct (manifestLines (manifestStart 0) headers objectList) as [lines0| |] eqn:E0;
      try discriminate.
    destruct (manifestLines (manifestStart (bufLen data0)) headers objectList)
      as [lines| |] eqn:E1; try discriminate.
    cbn in H0, H1. injection H0 as Hd0. injection H1 as Hd1.
    rewrite <- Hd0, <- Hd1.
    pose proof (manifestStart_bounds (bufLen data0) ltac:(lia) ltac:(lia)) as Hs.
    eapply (manifestLines_length_mono objectList headers (manifestStart 0)
              (manifestStart (bufLen data0))); try eassumption.
    - change (manifestStart 0) with 512. lia.
    - lia. }
  assert (Hexit : reestimate (bufLen data0) headers objectList = Returned (data, None)).
  { unfold reestimate. rewrite H1. cbn [bind].
    assert (Hp : paddedLen data >= bufLen data0).
    { unfold paddedLen, add64. pose proof (findPadding_bounds (bufLen data)).
      rewrite wrap64_small by (unfold int64_range; lia). lia. }
    destruct (Z.geb_spec (paddedLen data) (bufLen data0)); [reflexivity|lia]. }
  split; [exact Hmono|]. split.
  - destruct fuel; cbn [estimateTrace]; [reflexivity|]. rewrite Hexit. reflexivity.
  - unfold _buildManifest. rewrite H0. cbn [estimateLoop]. rewrite Hexit. reflexivity.
Qed.

Example _buildManifest_single_pass_example :
  estimateTrace 3 11 [oneHeader] [oneObject] = [11]
  /\ _buildManifest 4 [oneHeader] [oneObject]
     = Some (Returned (csv.WriteAll [["a"; "1536"; "3"; "e"]%string])).
Proof.
  apply (_buildManifest_single_pass [oneHeader] [oneObject]
           (csv.WriteAll [["a"; "1024"; "3"; "e"]%string])
           (csv.WriteAll [["a"; "1536"; "3"; "e"]%string]) 3).
  - repeat constructor; vm_compute; discriminate.
  - repeat constructor; vm_compute; discriminate.
  - reflexivity.
  - reflexivity.
  - vm_compute. reflexivity.
  - vm_compute. reflexivity.
Qed.

(** No serialization of the entries is longer than [maxManifestSize]. *)
Lemma manifestLines_length_le_max :
  forall (objectList headers : list S3Obj) (cur : Z) (lines : list (list string)),
    manifestLines cur headers objectList = Returned lines ->
    Z.of_nat (String.length (csv.WriteAll lines)) <= maxManifestSize objectList.
Proof.
  unfold maxManifestSize.
  induction objectList as [|obj objectList IH]; intros headers cur lines Hl.
  - cbn in Hl. injection Hl as <-. cbn. lia.
  - destruct headers as [|hdr headers]; [discriminate|].
    apply manifestLines_cons in Hl. destruct Hl as [rest [-> Hrest]].
    specialize (IH _ _ _ Hrest).
    cbn [map csv.WriteAll]. rewrite !string_length_app, !Write_record_length.
    rewrite writeField_fmtInt64_any.
    change (csv.writeField widestInt64) with widestInt64.
    change (String.length widestInt64) with 20%nat.
    pose proof (fmtInt64_length_le (add64 cur (Size hdr)) (wrap64_range _)).
    lia.
Qed.

Lemma createCSVManifest_length_le_max (headers objectList : list S3Obj) (offset : Z)
  (data : string) :
  createCSVManifest offset headers objectList = Returned data ->
  Z.of_nat (String.length data) <= maxManifestSize objectList.
Proof.
  unfold createCSVManifest.
  destruct (manifestLines (manifestStart offset) headers objectList) as [lines| |] eqn:E;
    try discriminate.
  cbn. intros [= <-]. eapply manifestLines_length_le_max. exact E.
Qed.

Lemma manifestStart_aligned (offset : Z) :
  0 <= offset -> offset + 1024 < 2 ^ 63 -> manifestStart offset mod 512 = 0.
Proof.
  intros H0 Hfit. unfold manifestStart, add64.
  rewrite (wrap64_small (offset + 512)) by (unfold int64_range; lia).
  rewrite wrap64_mod_block. apply findPadding_aligns.
Qed.

Lemma manifestStart_mono (seed seed' : Z) :
  0 <= seed <= seed' -> seed' + 1024 < 2 ^ 63 ->
  manifestStart seed <= manifestStart seed'.
Proof.
  intros Hs Hfit.
  pose proof (manifestStart_bounds seed ltac:(lia) ltac:(lia)) as Hb.
  pose proof (manifestStart_bounds seed' ltac:(lia) ltac:(lia)) as Hb'.
  pose proof (manifestStart_aligned seed ltac:(lia) ltac:(lia)) as Ha.
  pose proof (manifestStart_aligned seed' ltac:(lia) ltac:(lia)) as Ha'.
  apply Z.mod_divide in Ha, Ha'; try lia.
  destruct Ha as [a Ha]. destruct Ha' as [a' Ha']. lia.
Qed.

Lemma manifestStart_value (x : Z) :
  0 <= x -> x + 1024 < 2 ^ 63 -> manifestStart x = x + 512 + findPadding x.
Proof.
  intros Hx Hxf. unfold manifestStart, add64.
  rewrite (wrap64_small (x + 512)) by (unfold int64_range; lia).
  assert (Hsame : findPadding (x + 512) = findPadding x).
  { rewrite !findPadding_mod.
    replace (- (x + 512)) with (- x + (-1) * 512) by lia. apply Z_mod_plus_full. }
  rewrite Hsame. pose proof (findPadding_bounds x).
  apply wrap64_small. unfold int64_range. lia.
Qed.

(** A larger seed never gives a shorter manifest. *)
Lemma createCSVManifest_length_mono (headers objectList : list S3Obj)
  (seed seed' : Z) (d d' : string) :
  Forall (fun hdr => 0 <= Size hdr) headers ->
  Forall (fun obj => 0 <= Size obj) objectList ->
  0 <= seed <= seed' ->
  seed' + 1024 + entriesSize headers objectList < 2 ^ 63 ->
  createCSVManifest seed headers objectList = Returned d ->
  createCSVManifest seed' headers objectList = Returned d' ->
  (String.length d <= String.length d')%nat.
Proof.
  intros Hh Ho Hs Hfit Hd Hd'.
  pose proof (entriesSize_nonneg objectList headers Hh Ho) as Hnn.
  unfold createCSVManifest in Hd, Hd'.
  destruct (manifestLines (manifestStart seed) headers objectList) as [lines| |] eqn:E;
    try discriminate.
  destruct (manifestLines (manifestStart seed') headers objectList) as [lines'| |] eqn:E';
    try discriminate.
  cbn in Hd, Hd'. injection Hd as <-. injection Hd' as <-.
  pose proof (manifestStart_bounds seed ltac:(lia) ltac:(lia)).
  pose proof (manifestStart_bounds seed' ltac:(lia) ltac:(lia)).
  pose proof (manifestStart_mono seed seed' Hs ltac:(lia)).
  eapply (manifestLines_length_mono objectList headers (manifestStart seed)
            (manifestStart seed')); try eassumption; lia.
Qed.

(** C1.  On entries with a header each, sizes that are not negative and
    an archive that stays below 2^63 bytes even with the widest manifest,
    the loop of [_buildManifest] ends, with a result.  The values of
    [estimate] at the heads of its passes never go down, and none exceeds
    the most bytes a manifest of these entries can take.  A manifest
    serialized at a larger seed is never shorter, so the manifest
    serialized at the first estimate already meets the exit test. *)
Theorem _buildManifest_estimate_never_decreases (headers objectList : list S3Obj) :
  (List.length objectList <= List.length headers)%nat ->
  Forall (fun hdr => 0 <= Size hdr) headers ->
  Forall (fun obj => 0 <= Size obj) objectList ->
  maxManifestSize objectList + 1024 + entriesSize headers objectList < 2 ^ 63 ->
  exists data0 data,
    createCSVManifest 0 headers objectList = Returned data0
    /\ (forall fuel, _buildManifest (S fuel) headers objectList = Some (Returned data))
    /\ (forall fuel, Sorted Z.le (estimateTrace fuel (bufLen data0) headers objectList))
    /\ (forall fuel e,
          In e (estimateTrace fuel (bufLen data0) headers objectList) ->
          e <= maxManifestSize objectList)
    /\ (forall seed seed' d d',
          0 <= seed <= seed' -> seed' <= maxManifestSize objectList ->
          createCSVManifest seed headers objectList = Returned d ->
          createCSVManifest seed' headers objectList = Returned d' ->
          (String.length d <= String.length d')%nat)
    /\ paddedLen data >= bufLen data0.
Proof.
  intros Hlen Hh Ho Hfit.
  pose proof (entriesSize_nonneg objectList headers Hh Ho) as Hnn.
  destruct (proj1 (createCSVManifest_outcome headers objectList 0) Hlen) as [data0 H0].
  pose proof (createCSVManifest_length_le_max _ _ _ _ H0) as Hmax0.
  assert (Hl0 : bufLen data0 = Z.of_nat (String.length data0))
    by (apply wrap64_small; unfold int64_range; lia).
  destruct (proj1 (createCSVManifest_outcome headers objectList (bufLen data0)) Hlen)
    as [data H1].
  pose proof (createCSVManifest_length_le_max _ _ _ _ H1) as Hmax1.
  destruct (_buildManifest_single_pass headers objectList data0 data 0 Hh Ho H0 H1)
    as [Hmono [_ _]]; [lia|lia|].
  assert (Htrace : forall fuel,
             estimateTrace fuel (bufLen data0) headers objectList = [bufLen data0]).
  { intros fuel.
    destruct (_buildManifest_single_pass headers objectList data0 data fuel Hh Ho H0 H1)
      as [_ [Ht _]]; [lia|lia|exact Ht]. }
  exists data0, data. split; [exact H0|]. split; [|split; [|split; [|split]]].
  - intros fuel.
    destruct (_buildManifest_single_pass headers objectList data0 data fuel Hh Ho H0 H1)
      as [_ [_ Hb]]; [lia|lia|exact Hb].
  - intros fuel. rewrite Htrace. repeat constructor.
  - intros fuel e. rewrite Htrace. intros [<-|[]]. lia.
  - intros seed seed' d d' Hs Hs' Hd Hd'.
    eapply (createCSVManifest_length_mono headers objectList seed seed');
      try eassumption. lia.
  - assert (Hl : bufLen data = Z.of_nat (String.length data))
      by (apply wrap64_small; unfold int64_range; lia).
    unfold paddedLen, add64. pose proof (findPadding_bounds (bufLen data)).
    rewrite wrap64_small by (unfold int64_range; lia). lia.
Qed.

Lemma _buildManifest_estimate_never_decreases_witness :
  exists data0 data,
    createCSVManifest 0 twoHeaders twoObjects = Returned data0
    /\ (forall fuel, _buildManifest (S fuel) twoHeaders twoObjects = Some (Returned data))
    /\ (forall fuel, Sorted Z.le (estimateTrace fuel (bufLen data0) twoHeaders twoObjects))
    /\ (forall fuel e,
          In e (estimateTrace fuel (bufLen data0) twoHeaders twoObjects) ->
          e <= maxManifestSize twoObjects)
    /\ (forall seed seed' d d',
          0 <= seed <= seed' -> seed' <= maxManifestSize twoObjects ->
          createCSVManifest seed twoHeaders twoObjects = Returned d ->
          createCSVManifest seed' twoHeaders twoObjects = Returned d' ->
          (String.length d <= String.length d')%nat)
    /\ paddedLen data >= bufLen data0.
Proof.
  apply (_buildManifest_estimate_never_decreases twoHeaders twoObjects).
  - vm_compute. lia.
  - repeat constructor; vm_compute; discriminate.
  - repeat constructor; vm_compute; discriminate.
  - vm_compute. reflexivity.
Defined.

(** The bounds are needed.  On forty-nine entries whose running offset
    passes 2^63 and wraps around, [estimate] is 557 at the first pass and
    512 at the second, where the loop ends. *)
Example _buildManifest_estimate_decreases :
  exists data0 data,
    createCSVManifest 0 wrapHeaders wrapObjects = Returned data0
    /\ bufLen data0 = 557
    /\ estimateTrace 5 (bufLen data0) wrapHeaders wrapObjects = [557; 512]
    /\ _buildManifest 5 wrapHeaders wrapObjects = Some (Returned data)
    /\ ~ Sorted Z.le (estimateTrace 5 (bufLen data0) wrapHeaders wrapObjects).
Proof.
  destruct (createCSVManifest 0 wrapHeaders wrapObjects) as [data0| |] eqn:H0;
    [|vm_compute in H0; discriminate..].
  destruct (_buildManifest 5 wrapHeaders wrapObjects) as [[data| |]|] eqn:Hb;
    [|vm_compute in Hb; discriminate..].
  exists data0, data.
  assert (Hlen : bufLen data0 = 557).
  { vm_compute in H0. injection H0 as <-. vm_compute. reflexivity. }
  assert (Htrace : estimateTrace 5 (bufLen data0) wrapHeaders wrapObjects = [557; 512]).
  { rewrite Hlen. vm_compute. reflexivity. }
  split; [reflexivity|]. split; [exact Hlen|]. split; [exact Htrace|].
  split; [reflexivity|].
  rewrite Htrace. intros Hs. inversion Hs as [|? ? _ Hhd]; subst.
  inversion Hhd; subst. lia.
Qed.

(** ** createCSVManifest: what the recorded offset points at *)

Lemma length_list_byte_of_string (s : string) :
  List.length (list_byte_of_string s) = String.length s.
Proof.
  unfold list_byte_of_string. rewrite length_map.
  induction s as [|c s IH]; cbn; [reflexivity|now rewrite IH].
Qed.

Lemma headersCarryPadding_sizes :
  forall (objectList headers : list S3Obj) (prev : Z),
    0 <= prev ->
    headersCarryPadding prev headers objectList ->
    List.length headers = List.length objectList
    /\ Forall (fun hdr => 0 <= Size hdr) headers.
Proof.
  induction objectList as [|obj objectList IH]; intros headers prev Hprev Hc.
  - destruct headers; [split; [reflexivity|constructor]|contradiction].
  - destruct headers as [|hdr headers]; [contradiction|].
    cbn [headersCarryPadding] in Hc. destruct Hc as [Hsize Hrest].
    pose proof (findPadding_bounds (Size obj)) as Hb.
    destruct (IH headers (findPadding (Size obj)) ltac:(lia) Hrest) as [Hlen Hnn].
    split; [cbn [List.length]; now rewrite Hlen|].
    constructor; [lia|exact Hnn].
Qed.

Lemma sizes_nonneg (objectList : list S3Obj) (contents : list (list Byte.byte)) :
  Forall2 (fun obj body => Size obj = Z.of_nat (List.length body)) objectList contents ->
  Forall (fun obj => 0 <= Size obj) objectList.
Proof.
  induction 1 as [|obj body objectList contents Hsz _ IH]; constructor; [lia|exact IH].
Qed.

(** The account of [createCSVManifest] stays within the bytes of the
    entries. *)
Lemma entriesSize_le_bytes :
  forall (objectList headers : list S3Obj) (blocks contents : list (list Byte.byte))
         (prev : Z),
    0 <= prev ->
    headersCarryPadding prev headers objectList ->
    Forall2 (fun obj body => Size obj = Z.of_nat (List.length body)) objectList contents ->
    Forall2 (fun (_ : S3Obj) block => List.length block = 512%nat) objectList blocks ->
    entriesSize headers objectList
    <= prev + Z.of_nat (List.length (entriesBytes blocks contents)).
Proof.
  induction objectList as [|obj objectList IH];
    intros headers blocks contents prev Hprev Hc Hsz Hbl.
  - cbn. lia.
  - destruct headers as [|hdr headers]; [contradiction|].
    cbn [headersCarryPadding] in Hc. destruct Hc as [Hsize Hrest].
    inversion Hsz as [|? body ? contents' Hs Hsz']; subst.
    inversion Hbl as [|? block ? blocks' Hb Hbl']; subst.
    pose proof (findPadding_bounds (Size obj)) as Hb0.
    specialize (IH headers blocks' contents' (findPadding (Size obj)) ltac:(lia)
                  Hrest Hsz' Hbl').
    cbn [entriesSize entriesBytes]. rewrite !length_app, repeat_length.
    rewrite Hs in IH |- *.
    pose proof (findPadding_bounds (Z.of_nat (List.length body))). lia.
Qed.

(** The records of a manifest whose entries are counted from the end of
    [before]: record [i] holds the position of the first byte after the
    header block of entry [i]. *)
Lemma manifestLines_data_positions :
  forall (objectList headers : list S3Obj) (blocks contents : list (list Byte.byte))
         (before : list Byte.byte) (prev : Z) (lines : list (list string)),
    0 <= prev ->
    manifestLines (Z.of_nat (List.length before) - prev) headers objectList
      = Returned lines ->
    headersCarryPadding prev headers objectList ->
    Forall2 (fun obj body => Size obj = Z.of_nat (List.length body)) objectList contents ->
    Forall2 (fun (_ : S3Obj) block => List.length block = 512%nat) objectList blocks ->
    Z.of_nat (List.length (before ++ entriesBytes blocks contents)) < 2 ^ 63 ->
    forall (i : nat) (obj : S3Obj),
      nth_error objectList i = Some obj ->
      nth_error lines i
      = Some [Key obj;
              fmtInt64 (Z.of_nat (List.length
                          (before ++ entriesBytes (firstn i blocks) (firstn i contents)))
                        + 512);
              fmtInt64 (Size obj); ETag obj].
Proof.
  induction objectList as [|obj0 objectList IH];
    intros headers blocks contents before prev lines Hprev Hl Hc Hsz Hbl Hfit i obj Hi.
  - destruct i; discriminate.
  - destruct headers as [|hdr headers]; [contradiction|].
    cbn [headersCarryPadding] in Hc. destruct Hc as [Hsize Hrest].
    inversion Hsz as [|? body ? contents' Hs Hsz']; subst.
    inversion Hbl as [|? block ? blocks' Hb Hbl']; subst.
    apply manifestLines_cons in Hl. destruct Hl as [rest [-> Hl]].
    cbn [entriesBytes] in Hfit. rewrite !length_app, repeat_length in Hfit.
    pose proof (findPadding_bounds (Z.of_nat (List.length body))) as Hpad.
    assert (Hcur : add64 (Z.of_nat (List.length before) - prev) (Size hdr)
                   = Z.of_nat (List.length before) + 512).
    { unfold add64. rewrite Hsize.
      replace (Z.of_nat (List.length before) - prev + (prev + 512))
        with (Z.of_nat (List.length before) + 512) by lia.
      apply wrap64_small. unfold int64_range. lia. }
    rewrite Hcur in Hl |- *.
    destruct i as [|i].
    + injection Hi as <-. cbn [nth_error firstn entriesBytes].
      rewrite app_nil_r. reflexivity.
    + cbn [nth_error] in Hi |- *.
      set (pad := repeat Byte.x00
                    (Z.to_nat (findPadding (Z.of_nat (List.length body))))) in *.
      assert (Hnext : add64 (Z.of_nat (List.length before) + 512) (Size obj0)
                      = Z.of_nat (List.length (before ++ block ++ body ++ pad))
                        - findPadding (Size obj0)).
      { unfold add64. rewrite Hs. rewrite !length_app. unfold pad. rewrite repeat_length.
        rewrite wrap64_small by (unfold int64_range; lia). lia. }
      rewrite Hnext in Hl.
      pose proof (findPadding_bounds (Size obj0)) as Hpad0.
      rewrite (IH headers blocks' contents' (before ++ block ++ body ++ pad)
                 (findPadding (Size obj0)) rest ltac:(lia) Hl Hrest Hsz' Hbl') with (obj := obj).
      * rewrite !firstn_cons. cbn [entriesBytes]. fold pad.
        repeat rewrite <- app_assoc. reflexivity.
      * repeat rewrite <- app_assoc. rewrite !length_app. unfold pad.
        rewrite repeat_length. lia.
      * exact Hi.
Qed.

(** Entry [i] in the bytes of the entries. *)
Lemma entriesBytes_split :
  forall (i : nat) (blocks contents : list (list Byte.byte)) (block body : list Byte.byte),
    nth_error blocks i = Some block ->
    nth_error contents i = Some body ->
    exists after,
      entriesBytes blocks contents
      = entriesBytes (firstn i blocks) (firstn i contents) ++ block ++ body ++ after.
Proof.
  induction i as [|i IH]; intros blocks contents block body Hb Hc.
  - destruct blocks as [|b blocks]; [discriminate|].
    destruct contents as [|c contents]; [discriminate|].
    injection Hb as ->. injection Hc as ->.
    cbn [firstn entriesBytes app]. eexists. reflexivity.
  - destruct blocks as [|b blocks]; [discriminate|].
    destruct contents as [|c contents]; [discriminate|].
    cbn [nth_error] in Hb, Hc.
    destruct (IH blocks contents block body Hb Hc) as [after Hafter].
    exists after. rewrite !firstn_cons. cbn [entriesBytes].
    rewrite Hafter. repeat rewrite <- app_assoc. reflexivity.
Qed.

Lemma Forall2_nth_error_left (A B : Type) (R : A -> B -> Prop) (l : list A) (l' : list B) :
  Forall2 R l l' ->
  forall i a, nth_error l i = Some a -> exists b, nth_error l' i = Some b /\ R a b.
Proof.
  induction 1 as [|a0 b0 l l' Hab _ IH]; intros i a Hi.
  - destruct i; discriminate.
  - destruct i as [|i].
    + injection Hi as <-. exists b0. auto.
    + cbn [nth_error] in Hi |- *. apply IH. exact Hi.
Qed.

(** The first part with an empty [pad] and a header of one block. *)
Lemma buildFirstPart_length
  (tarWriteHeader : tar.Header -> list Byte.byte + string)
  (md5hex : list Byte.byte -> string) (modTime changeTime accessTime : Z)
  (csvData : list Byte.byte) :
  (forall hdr, exists block,
      tarWriteHeader hdr = inl block /\ List.length block = 512%nat) ->
  exists manifestEntry,
    buildFirstPart [] tarWriteHeader md5hex modTime changeTime accessTime csvData
      = Returned manifestEntry
    /\ Z.of_nat (List.length (Data manifestEntry))
       = 512 + Z.of_nat (List.length csvData) + trailingPad csvData.
Proof.
  intros Htar. unfold buildFirstPart.
  destruct (Htar (firstPartHeader modTime changeTime accessTime csvData))
    as [block [-> Hblock]].
  eexists. split; [reflexivity|].
  cbn [Data AddData app]. rewrite !length_app, Hblock, repeat_length.
  pose proof (trailingPad_cases csvData) as Hc.
  assert (0 <= trailingPad csvData).
  { pose proof (findPadding_bounds (wrap64 (Z.of_nat (List.length csvData)))).
    unfold trailingPad.
    destruct (findPadding (wrap64 (Z.of_nat (List.length csvData))) =? 0);
      unfold blockSize; lia. }
  lia.
Qed.

(** C2, as the code has it.  Take entries whose sizes match their bytes,
    with a header object each that holds the padding of the entry before
    and the 512 bytes of the header block, in an archive that stays below
    2^63 bytes, behind the first part that [buildFirstPart] makes, with an
    empty [pad] and a header of one block, of the manifest that
    [_buildManifest] returns.  When that manifest with its trailing pad is
    as long as the padded estimate its records were counted from, the
    offset in the record of an entry is the position in the archive of the
    first byte after the entry's header block, where its data begins: the
    header block begins 512 bytes before it. *)
Theorem createCSVManifest_offset_is_data_start
  (tarWriteHeader : tar.Header -> list Byte.byte + string)
  (md5hex : list Byte.byte -> string) (modTime changeTime accessTime : Z)
  (headers objectList : list S3Obj) (blocks contents : list (list Byte.byte)) :
  (forall hdr, exists block,
      tarWriteHeader hdr = inl block /\ List.length block = 512%nat) ->
  headersCarryPadding 0 headers objectList ->
  Forall2 (fun obj body => Size obj = Z.of_nat (List.length body)) objectList contents ->
  Forall2 (fun (_ : S3Obj) block => List.length block = 512%nat) objectList blocks ->
  maxManifestSize objectList + 1536 + Z.of_nat (List.length (entriesBytes blocks contents))
    < 2 ^ 63 ->
  exists data0 data manifestEntry,
    createCSVManifest 0 headers objectList = Returned data0
    /\ (forall fuel, _buildManifest (S fuel) headers objectList = Some (Returned data))
    /\ buildFirstPart [] tarWriteHeader md5hex modTime changeTime accessTime
         (list_byte_of_string data) = Returned manifestEntry
    /\ (Z.of_nat (String.length data) + trailingPad (list_byte_of_string data)
        = bufLen data0 + findPadding (bufLen data0) ->
        exists manifest,
          data = csv.WriteAll manifest
          /\ List.length manifest = List.length objectList
          /\ forall i obj,
               nth_error objectList i = Some obj ->
               exists p,
                 nth_error manifest i
                 = Some [Key obj; fmtInt64 p; fmtInt64 (Size obj); ETag obj]
                 /\ dataStartsAt (Data manifestEntry) blocks contents i p
                 /\ headerStartsAt (Data manifestEntry) blocks contents i (p - 512)).
Proof.
  intros Htar Hcarry Hsz Hbl Hfit.
  destruct (headersCarryPadding_sizes objectList headers 0 ltac:(lia) Hcarry)
    as [Hlen Hh].
  pose proof (sizes_nonneg objectList contents Hsz) as Ho.
  pose proof (entriesSize_le_bytes objectList headers blocks contents 0
                ltac:(lia) Hcarry Hsz Hbl) as Hacc.
  pose proof (entriesSize_nonneg objectList headers Hh Ho) as Hnn.
  destruct (proj1 (createCSVManifest_outcome headers objectList 0) ltac:(lia))
    as [data0 H0].
  pose proof (createCSVManifest_length_le_max _ _ _ _ H0) as Hmax0.
  assert (Hl0 : bufLen data0 = Z.of_nat (String.length data0))
    by (apply wrap64_small; unfold int64_range; lia).
  destruct (proj1 (createCSVManifest_outcome headers objectList (bufLen data0))
              ltac:(lia)) as [data H1].
  pose proof (createCSVManifest_length_le_max _ _ _ _ H1) as Hmax1.
  destruct (buildFirstPart_length tarWriteHeader md5hex modTime changeTime accessTime
              (list_byte_of_string data) Htar) as [manifestEntry [Hpart Hpartlen]].
  exists data0, data, manifestEntry.
  split; [exact H0|]. split; [|split; [exact Hpart|]].
  - intros fuel.
    destruct (_buildManifest_single_pass headers objectList data0 data fuel Hh Ho H0 H1)
      as [_ [_ Hb]]; [lia|lia|exact Hb].
  - intros Hsame.
    rewrite length_list_byte_of_string in Hpartlen.
    assert (Hstart : Z.of_nat (List.length (Data manifestEntry))
                     = manifestStart (bufLen data0)).
    { rewrite manifestStart_value by lia. lia. }
    unfold createCSVManifest in H1.
    destruct (manifestLines (manifestStart (bufLen data0)) headers objectList)
      as [manifest| |] eqn:Hlines; try discriminate.
    cbn [bind] in H1. injection H1 as <-.
    exists manifest. split; [reflexivity|].
    split; [exact (proj1 (manifestLines_records _ _ _ _ Hlines))|].
    intros i obj Hi.
    pose proof (manifestStart_bounds (bufLen data0) ltac:(lia) ltac:(lia)) as Hms.
    assert (Hlines' : manifestLines (Z.of_nat (List.length (Data manifestEntry)) - 0)
                        headers objectList = Returned manifest)
      by (rewrite Z.sub_0_r, Hstart; exact Hlines).
    pose proof (manifestLines_data_positions objectList headers blocks contents
                  (Data manifestEntry) 0 manifest ltac:(lia) Hlines' Hcarry Hsz Hbl)
      as Hpos.
    rewrite length_app in Hpos.
    specialize (Hpos ltac:(lia) i obj Hi).
    destruct (Forall2_nth_error_left _ _ _ _ _ Hbl i obj Hi) as [block [Hblock Hb512]].
    destruct (Forall2_nth_error_left _ _ _ _ _ Hsz i obj Hi) as [body [Hbody _]].
    destruct (entriesBytes_split i blocks contents block body Hblock Hbody)
      as [after Hafter].
    fold (bytesBefore (Data manifestEntry) blocks contents i) in Hpos.
    eexists. split; [exact Hpos|]. split.
    + exists block, body, after. repeat split; try assumption.
      * unfold archive, bytesBefore. rewrite Hafter.
        repeat rewrite <- app_assoc. reflexivity.
      * rewrite length_app, Hb512. lia.
    + exists block, body, after. repeat split; try assumption.
      * unfold archive, bytesBefore. rewrite Hafter.
        repeat rewrite <- app_assoc. reflexivity.
      * lia.
Qed.

Lemma createCSVManifest_offset_is_data_start_witness :
  exists data0 data manifestEntry,
    createCSVManifest 0 paddedHeaders smallObjects = Returned data0
    /\ _buildManifest 1 paddedHeaders smallObjects = Some (Returned data)
    /\ buildFirstPart [] oneBlockHeader noDigest 0 0 0 (list_byte_of_string data)
       = Returned manifestEntry
    /\ Z.of_nat (String.length data) + trailingPad (list_byte_of_string data)
       = bufLen data0 + findPadding (bufLen data0)
    /\ exists manifest,
         data = csv.WriteAll manifest
         /\ List.length manifest = List.length smallObjects
         /\ forall i obj,
              nth_error smallObjects i = Some obj ->
              exists p,
                nth_error manifest i
                = Some [Key obj; fmtInt64 p; fmtInt64 (Size obj); ETag obj]
                /\ dataStartsAt (Data manifestEntry) smallBlocks smallContents i p
                /\ headerStartsAt (Data manifestEntry) smallBlocks smallContents i
                     (p - 512).
Proof.
  assert (Htar : forall hdr, exists block,
             oneBlockHeader hdr = inl block /\ List.length block = 512%nat)
    by (intros hdr; eexists; split; reflexivity).
  assert (Hcarry : headersCarryPadding 0 paddedHeaders smallObjects)
    by (vm_compute; auto).
  assert (Hsz : Forall2 (fun obj body => Size obj = Z.of_nat (List.length body))
                  smallObjects smallContents) by (repeat constructor).
  assert (Hbl : Forall2 (fun (_ : S3Obj) block => List.length block = 512%nat)
                  smallObjects smallBlocks) by (repeat constructor).
  assert (Hfit : maxManifestSize smallObjects + 1536
                 + Z.of_nat (List.length (entriesBytes smallBlocks smallContents))
                 < 2 ^ 63) by (vm_compute; reflexivity).
  destruct (createCSVManifest_offset_is_data_start oneBlockHeader noDigest 0 0 0
              paddedHeaders smallObjects smallBlocks smallContents
              Htar Hcarry Hsz Hbl Hfit)
    as [data0 [data [manifestEntry [H0 [Hb [Hp Hrec]]]]]].
  exists data0, data, manifestEntry.
  assert (Hsame : Z.of_nat (String.length data) + trailingPad (list_byte_of_string data)
                  = bufLen data0 + findPadding (bufLen data0)).
  { pose proof (Hb 0%nat) as Hb0. clear Hp Hrec Hb.
    vm_compute in H0. injection H0 as <-.
    vm_compute in Hb0. injection Hb0 as <-.
    vm_compute. reflexivity. }
  split; [exact H0|]. split; [exact (Hb 0%nat)|]. split; [exact Hp|].
  split; [exact Hsame|]. exact (Hrec Hsame).
Defined.
(** C2 fails as stated: behind the first part of 1024 bytes that the code
    makes of the manifest of the two small entries, the header blocks begin
    at 1024 and at 2048, and the records say 1536 and 2560. *)
Lemma createCSVManifest_offset_not_header_start :
  exists data manifestEntry,
    _buildManifest 1 paddedHeaders smallObjects = Some (Returned data)
    /\ data = csv.WriteAll [["a"; "1536"; "100"; "e"]; ["b"; "2560"; "3"; "f"]]%string
    /\ buildFirstPart [] oneBlockHeader noDigest 0 0 0 (list_byte_of_string data)
       = Returned manifestEntry
    /\ headerStartsAt (Data manifestEntry) smallBlocks smallContents 0 1024
    /\ ~ headerStartsAt (Data manifestEntry) smallBlocks smallContents 0 1536
    /\ headerStartsAt (Data manifestEntry) smallBlocks smallContents 1 2048
    /\ ~ headerStartsAt (Data manifestEntry) smallBlocks smallContents 1 2560.
Proof.
  eexists _, _. split; [vm_compute; reflexivity|]. split; [vm_compute; reflexivity|].
  split; [reflexivity|].
  assert (Hnot : forall i p q,
             Z.of_nat (List.length
                         (bytesBefore
                            (Data (AddData noDigest NewS3Obj
                                    ([] ++ repeat Byte.x00 512
                                     ++ list_byte_of_string
                                          (csv.WriteAll
                                             [["a"; "1536"; "100"; "e"];
                                              ["b"; "2560"; "3"; "f"]]%string)
                                     ++ repeat Byte.x00 488)))
                            smallBlocks smallContents i)) = q ->
             p <> q ->
             ~ headerStartsAt
                 (Data (AddData noDigest NewS3Obj
                         ([] ++ repeat Byte.x00 512
                          ++ list_byte_of_string
                               (csv.WriteAll
                                  [["a"; "1536"; "100"; "e"];
                                   ["b"; "2560"; "3"; "f"]]%string)
                          ++ repeat Byte.x00 488)))
                 smallBlocks smallContents i p).
  { intros i p q Hq Hne [block [body [after [_ [_ [_ Hp]]]]]]. congruence. }
  split; [|split; [|split]].
  - eexists _, _, _. split; [reflexivity|]. split; [reflexivity|].
    split; [|vm_compute; reflexivity].
    unfold archive, bytesBefore. cbn [firstn entriesBytes smallBlocks smallContents].
    rewrite app_nil_r. repeat rewrite <- app_assoc. reflexivity.
  - apply (Hnot 0%nat 1536 1024); [vm_compute; reflexivity|lia].
  - eexists _, _, _. split; [reflexivity|]. split; [reflexivity|].
    split; [|vm_compute; reflexivity].
    unfold archive, bytesBefore. cbn [firstn entriesBytes smallBlocks smallContents].
    rewrite app_nil_r. repeat rewrite <- app_assoc. reflexivity.
  - apply (Hnot 1%nat 2560 2048); [vm_compute; reflexivity|lia].
Qed.

(** ** When the returned manifest is reproduced *)

Lemma manifestStart_of_padded (estimate : Z) :
  0 <= estimate -> estimate + 1024 < 2 ^ 63 ->
  manifestStart (estimate + findPadding estimate) = manifestStart estimate.
Proof.
  intros H0 Hfit.
  pose proof (findPadding_bounds estimate) as Hb.
  pose proof (findPadding_aligns estimate) as Ha.
  assert (Hpad : forall x, 0 <= x -> x + 1024 < 2 ^ 63 ->
                           manifestStart x = x + 512 + findPadding x).
  { intros x Hx Hxf. unfold manifestStart, add64.
    rewrite (wrap64_small (x + 512)) by (unfold int64_range; lia).
    assert (Hsame : findPadding (x + 512) = findPadding x).
    { rewrite !findPadding_mod.
      replace (- (x + 512)) with (- x + (-1) * 512) by lia. apply Z_mod_plus_full. }
    rewrite Hsame. pose proof (findPadding_bounds x).
    apply wrap64_small. unfold int64_range. lia. }
  destruct (Z.eq_dec (findPadding estimate) 0) as [Hz|Hnz].
  - rewrite Hz, Z.add_0_r. reflexivity.
  - assert (Hzero : findPadding (estimate + findPadding estimate) = 0).
    { rewrite findPadding_mod.
      apply Z.mod_divide in Ha; [|lia]. destruct Ha as [k Hk].
      rewrite Hk. replace (- (k * 512)) with ((- k) * 512) by lia. apply Z_mod_mult. }
    rewrite (Hpad estimate) by lia.
    destruct (Z_lt_le_dec (estimate + findPadding estimate + 1024) (2 ^ 63)) as [Hin|Hout].
    + rewrite Hpad by lia. lia.
    + (* the padded estimate is within one block of the bound *)
      unfold manifestStart, add64.
      rewrite (wrap64_small (estimate + findPadding estimate + 512))
        by (unfold int64_range; lia).
      assert (Hsame : findPadding (estimate + findPadding estimate + 512) = 0).
      { rewrite findPadding_mod.
        replace (- (estimate + findPadding estimate + 512))
          with (- (estimate + findPadding estimate) + (-1) * 512) by lia.
        rewrite Z_mod_plus_full. rewrite <- findPadding_mod. exact Hzero. }
      rewrite Hsame, Z.add_0_r.
      rewrite wrap64_small by (unfold int64_range; lia). lia.
Qed.

(** The statement of C3 that does hold: when the padded length of the
    returned manifest takes as many blocks as the seed it was serialized
    at, serializing at that padded length gives the same bytes. *)
Lemma createCSVManifest_reproduced_when_blocks_agree
  (headers objectList : list S3Obj) (estimate : Z) (data : string) :
  0 <= estimate -> estimate + 1024 < 2 ^ 63 ->
  createCSVManifest estimate headers objectList = Returned data ->
  paddedLen data = estimate + findPadding estimate ->
  createCSVManifest (paddedLen data) headers objectList = Returned data.
Proof.
  intros H0 Hfit Hdata Hsame. unfold createCSVManifest in *.
  rewrite Hsame, manifestStart_of_padded by assumption. exact Hdata.
Qed.

(** The first part built from a manifest of 513 bytes takes 1536 bytes
    behind [pad], while the offsets of a manifest serialized at seed 512
    count from 1024. *)
Example firstPart_of_513_bytes (csvData : list Byte.byte) :
  List.length csvData = 513%nat ->
  manifestStart 512 = 1024
  /\ exists obj,
       buildFirstPart [] oneBlockHeader noDigest 0 0 0 csvData = Returned obj
       /\ List.length (Data obj) = 1536%nat.
Proof.
  intros Hlen. split; [reflexivity|].
  unfold buildFirstPart, oneBlockHeader. eexists. split; [reflexivity|].
  cbn [Data AddData]. unfold trailingPad. rewrite Hlen.
  rewrite !length_app, Hlen, !repeat_length. reflexivity.
Qed.

(** * Further properties of the code *)

(** ** findPadding and the start of the entries *)

(** X1.  An offset needs no padding exactly when it is a multiple of 512;
    a padded offset needs none; and offsets that differ by whole blocks
    need the same padding. *)
Theorem findPadding_rounds_up (offset : Z) :
  (findPadding offset = 0 <-> offset mod 512 = 0)
  /\ findPadding (offset + findPadding offset) = 0
  /\ forall k, findPadding (offset + 512 * k) = findPadding offset.
Proof.
  split; [|split].
  - rewrite findPadding_mod. split; intros H.
    + apply Z.mod_divide in H; [|lia]. destruct H as [q Hq].
      apply Z.mod_divide; [lia|]. exists (- q). lia.
    + apply Z.mod_divide in H; [|lia]. destruct H as [q Hq].
      apply Z.mod_divide; [lia|]. exists (- q). lia.
  - pose proof (findPadding_aligns offset) as Ha.
    rewrite (findPadding_mod (offset + findPadding offset)).
    apply Z.mod_divide in Ha; [|lia]. destruct Ha as [q Hq].
    apply Z.mod_divide; [lia|]. exists (- q). lia.
  - intros k. rewrite !findPadding_mod.
    replace (- (offset + 512 * k)) with (- offset + (- k) * 512) by lia.
    apply Z_mod_plus_full.
Qed.

(** X2.  The entries of a manifest serialized at a seed that is not
    negative start at the first multiple of 512 at or after seed + 512. *)
Theorem manifestStart_block_boundary (offset : Z) :
  0 <= offset -> offset + 1024 < 2 ^ 63 ->
  manifestStart offset mod 512 = 0
  /\ offset + 512 <= manifestStart offset < offset + 1024.
Proof.
  intros H0 Hfit. unfold manifestStart, add64.
  rewrite (wrap64_small (offset + 512)) by (unfold int64_range; lia).
  pose proof (findPadding_bounds (offset + 512)) as Hb.
  rewrite wrap64_small by (unfold int64_range; lia).
  split; [apply findPadding_aligns|lia].
Qed.

Lemma manifestStart_block_boundary_witness :
  manifestStart 513 mod 512 = 0 /\ 513 + 512 <= manifestStart 513 < 513 + 1024.
Proof. apply (manifestStart_block_boundary 513); lia. Defined.

(** ** findMinMaxPartRange: the counts it settles on *)

(** X3.  From 5 MiB on, the solver returns the largest count up to 10000
    whose equal split is at least 5 MiB, the smallest count whose equal
    split is at most 5 GiB, and half the former. *)
Theorem findMinMaxPartRange_extremal (objectSize : Z) :
  partSizeMin <= objectSize < 2 ^ 63 ->
  exists fuel minParts maxParts,
    findMinMaxPartRange fuel objectSize = Some (Returned (minParts, maxParts, maxParts / 2))
    /\ 1 <= maxParts <= partsLimit
    /\ objectSize / maxParts >= partSizeMin
    /\ (forall n, maxParts < n <= partsLimit -> objectSize / n < partSizeMin)
    /\ 1 <= minParts
    /\ objectSize / minParts <= partSizeMax
    /\ (forall n, 1 <= n < minParts -> objectSize / n > partSizeMax).
Proof.
  intros Hs. pose proof Hs as Hs'. rewrite partSizeMin_value in Hs'.
  set (mx := Z.min partsLimit (objectSize / partSizeMin)).
  set (mn := objectSize / (partSizeMax + 1) + 1).
  exists (Z.to_nat (Z.max partsLimit mn + 1)), mn, mx.
  pose proof (Z.div_mod objectSize (5368709120 + 1) ltac:(lia)) as Hdm'.
  pose proof (Z.mod_pos_bound objectSize (5368709120 + 1) ltac:(lia)) as Hmb'.
  pose proof (Z.div_mod objectSize 5242880 ltac:(lia)) as Hdm.
  pose proof (Z.mod_pos_bound objectSize 5242880 ltac:(lia)) as Hmb.
  assert (Hmx : 1 <= mx <= 10000).
  { unfold mx, partsLimit. rewrite partSizeMin_value. lia. }
  assert (Hmn : 1 <= mn < 2 ^ 62).
  { unfold mn. rewrite partSizeMax_value. lia. }
  unfold findMinMaxPartRange.
  rewrite (maxPartsLoop_returns objectSize Hs) by (unfold partsLimit; lia).
  rewrite (minPartsLoop_returns objectSize) by (fold mn; lia).
  fold mx mn. rewrite Z.max_r by lia.
  rewrite quot64_nonneg by lia.
  split; [reflexivity|].
  rewrite partSizeMin_value, partSizeMax_value. unfold partsLimit.
  pose proof (Z.div_mod objectSize mx ltac:(lia)) as Hd1.
  pose proof (Z.mod_pos_bound objectSize mx ltac:(lia)) as Hb1.
  pose proof (Z.div_mod objectSize mn ltac:(lia)) as Hd2.
  pose proof (Z.mod_pos_bound objectSize mn ltac:(lia)) as Hb2.
  unfold mx, mn, partsLimit in *. rewrite partSizeMin_value, partSizeMax_value in *.
  split; [lia|]. split; [nia|]. split.
  - intros n Hn.
    pose proof (Z.div_mod objectSize n ltac:(lia)) as Hdn.
    pose proof (Z.mod_pos_bound objectSize n ltac:(lia)) as Hbn.
    nia.
  - split; [lia|]. split; [nia|].
    intros n Hn.
    pose proof (Z.div_mod objectSize n ltac:(lia)) as Hdn.
    pose proof (Z.mod_pos_bound objectSize n ltac:(lia)) as Hbn.
    nia.
Qed.

Lemma findMinMaxPartRange_extremal_witness :
  exists fuel minParts maxParts,
    findMinMaxPartRange fuel 104857600 = Some (Returned (minParts, maxParts, maxParts / 2))
    /\ 1 <= maxParts <= partsLimit
    /\ 104857600 / maxParts >= partSizeMin
    /\ (forall n, maxParts < n <= partsLimit -> 104857600 / n < partSizeMin)
    /\ 1 <= minParts
    /\ 104857600 / minParts <= partSizeMax
    /\ (forall n, 1 <= n < minParts -> 104857600 / n > partSizeMax).
Proof.
  apply (findMinMaxPartRange_extremal 104857600).
  rewrite partSizeMin_value. lia.
Defined.

(** X4.  Below 5 MiB, zero included, the solver returns no plan: the
    countdown of the first loop reaches 0 and the division panics. *)
Theorem findMinMaxPartRange_below_minimum_panics (objectSize : Z) :
  int64_range objectSize -> objectSize < partSizeMin ->
  findMinMaxPartRange (Z.to_nat (partsLimit + 1)) objectSize
    = Some (Panicked IntegerDivideByZero)
  /\ forall fuel plan, findMinMaxPartRange fuel objectSize <> Some (Returned plan).
Proof.
  intros Hr Hs. split.
  - rewrite (findMinMaxPartRange_small objectSize Hr Hs). reflexivity.
  - intros fuel plan. rewrite (findMinMaxPartRange_small objectSize Hr Hs).
    destruct (Z.to_nat partsLimit <? fuel)%nat; discriminate.
Qed.

Lemma findMinMaxPartRange_below_minimum_panics_witness :
  findMinMaxPartRange (Z.to_nat (partsLimit + 1)) 0
    = Some (Panicked IntegerDivideByZero)
  /\ forall fuel plan, findMinMaxPartRange fuel 0 <> Some (Returned plan).
Proof.
  apply (findMinMaxPartRange_below_minimum_panics 0).
  - unfold int64_range. lia.
  - rewrite partSizeMin_value. lia.
Defined.

(** ** StringToInt64 *)

Lemma parseUintLoop_digit (d n : Z) (rest : string) :
  0 <= d <= 9 -> 0 <= n -> n * 10 + d <= strconv.maxUint64 ->
  strconv.parseUintLoop (String (digitChar d) rest) n
    = strconv.parseUintLoop rest (n * 10 + d).
Proof.
  unfold strconv.maxUint64. intros Hd Hn Hfit.
  cbn [strconv.parseUintLoop]. rewrite digitChar_code by assumption.
  replace (Z.of_nat (48 + Z.to_nat d)) with (48 + d) by lia.
  replace ((48 <=? 48 + d) && (48 + d <=? 57)) with true
    by (symmetry; apply andb_true_intro; split; apply Z.leb_le; lia).
  replace (48 + d - 48) with d by lia.
  destruct (Z.geb_spec d 10); [lia|].
  change strconv.maxUint64 with (2 ^ 64 - 1).
  pose proof (Z.div_mod (2 ^ 64 - 1) 10 ltac:(lia)) as Hdm.
  pose proof (Z.mod_pos_bound (2 ^ 64 - 1) 10 ltac:(lia)) as Hmb.
  destruct (Z.geb_spec n ((2 ^ 64 - 1) / 10 + 1)); [lia|].
  rewrite (Z.mod_small (n * 10)) by lia.
  rewrite (Z.mod_small (n * 10 + d)) by lia.
  destruct (Z.ltb_spec (n * 10 + d) (n * 10)); [lia|].
  destruct (Z.gtb_spec (n * 10 + d) (2 ^ 64 - 1)); [lia|].
  reflexivity.
Qed.

(** Reading back the digits that [fmtUint] writes in front of [acc]. *)
Lemma parseUintLoop_fmtUint (fuel : nat) :
  forall u acc,
    0 <= u < 10 ^ Z.of_nat fuel -> u <= strconv.maxUint64 ->
    strconv.parseUintLoop (fmtUint fuel u acc) 0 = strconv.parseUintLoop acc u.
Proof.
  induction fuel as [|fuel IH]; intros u acc Hu Hmax.
  - cbn [fmtUint]. change (10 ^ Z.of_nat 0) with 1 in Hu.
    replace u with 0 by lia. reflexivity.
  - cbn [fmtUint].
    rewrite Nat2Z.inj_succ, Z.pow_succ_r in Hu by lia.
    pose proof (Z.div_mod u 10 ltac:(lia)) as Hdm.
    pose proof (Z.mod_pos_bound u 10 ltac:(lia)) as Hmb.
    destruct (Z.eqb_spec (u / 10) 0) as [Hz|Hnz].
    + rewrite parseUintLoop_digit by (unfold strconv.maxUint64 in *; lia).
      f_equal. lia.
    + rewrite IH by (unfold strconv.maxUint64 in *; lia).
      rewrite parseUintLoop_digit by (unfold strconv.maxUint64 in *; lia).
      f_equal. lia.
Qed.

Lemma fmtUint_first_digit (fuel : nat) (u : Z) :
  0 <= u ->
  exists c rest,
    fmtUint (S fuel) u EmptyString = String c rest
    /\ ((48 <=? nat_of_ascii c) && (nat_of_ascii c <=? 57))%nat = true.
Proof.
  intros Hu.
  pose proof (fmtUint_allDigits (S fuel) u EmptyString Hu eq_refl) as Hd.
  destruct (fmtUint (S fuel) u EmptyString) as [|c rest] eqn:E.
  - exfalso. cbn [fmtUint] in E. destruct (u / 10 =? 0); [discriminate|].
    pose proof (fmtUint_length_acc fuel (u / 10)
                  (String (digitChar (u mod 10)) EmptyString)) as Hl.
    rewrite E in Hl. cbn in Hl. lia.
  - exists c, rest. split; [reflexivity|].
    cbn [allDigits] in Hd. apply andb_prop in Hd. tauto.
Qed.

Lemma ParseUint_fmtUint (u : Z) :
  0 <= u <= 2 ^ 63 ->
  strconv.ParseUint (fmtUint 20 u EmptyString) = (u, None)
  /\ exists c rest,
       fmtUint 20 u EmptyString = String c rest
       /\ Ascii.eqb c "+"%char = false /\ Ascii.eqb c "-"%char = false.
Proof.
  intros Hu.
  destruct (fmtUint_first_digit 19 u ltac:(lia)) as [c [rest [E Hc]]].
  split.
  - unfold strconv.ParseUint. rewrite E, <- E.
    rewrite parseUintLoop_fmtUint; [reflexivity| |unfold strconv.maxUint64; lia].
    change (10 ^ Z.of_nat 20) with 100000000000000000000. lia.
  - exists c, rest. split; [exact E|].
    change "+"%char with (ascii_of_nat 43). change "-"%char with (ascii_of_nat 45).
    split; apply digit_is_not; (assumption || lia).
Qed.

Lemma ParseInt_fmtInt64 (i : Z) :
  int64_range i -> strconv.ParseInt (fmtInt64 i) = (i, None).
Proof.
  unfold int64_range. intros Hi. unfold fmtInt64.
  destruct (Z.ltb_spec i 0) as [Hneg|Hpos].
  - destruct (ParseUint_fmtUint (- i) ltac:(lia)) as [Hparse _].
    unfold strconv.ParseInt.
    change (Ascii.eqb "-" "+") with false. change (Ascii.eqb "-" "-") with true.
    cbv iota. rewrite Hparse. cbv iota beta.
    change (negb true) with false. cbn [andb].
    destruct (Z.gtb_spec (- i) (2 ^ 63)); [lia|].
    f_equal. unfold neg64.
    destruct (Z.eq_dec i (- 2 ^ 63)) as [->|Hne]; [reflexivity|].
    rewrite (wrap64_small (- i)) by (unfold int64_range; lia).
    rewrite wrap64_small by (unfold int64_range; lia). lia.
  - destruct (ParseUint_fmtUint i ltac:(lia)) as [Hparse [c [rest [E [Hplus Hminus]]]]].
    unfold strconv.ParseInt. rewrite E, Hplus, Hminus, <- E, Hparse.
    cbv iota beta. change (negb false) with true. cbn [andb].
    destruct (Z.geb_spec i (2 ^ 63)); [lia|].
    f_equal. apply wrap64_small. unfold int64_range. lia.
Qed.

(** X5.  [StringToInt64] reads back what the verb %d writes: for every
    [int64] value, parsing its decimal text gives the value and no error. *)
Theorem StringToInt64_reads_back_decimal (i : Z) :
  int64_range i -> StringToInt64 (fmtInt64 i) = (i, None).
Proof.
  intros Hi. unfold StringToInt64. rewrite ParseInt_fmtInt64 by assumption. reflexivity.
Qed.

Lemma StringToInt64_reads_back_decimal_witness :
  StringToInt64 (fmtInt64 (- 2 ^ 63)) = (- 2 ^ 63, None).
Proof.
  apply (StringToInt64_reads_back_decimal (- 2 ^ 63)). unfold int64_range. lia.
Defined.

Lemma parseUintLoop_success (s : string) :
  forall n v, strconv.parseUintLoop s n = (v, None) -> allDigits s = true.
Proof.
  induction s as [|ch s IH]; intros n v H; [reflexivity|].
  cbn [strconv.parseUintLoop] in H. cbn [allDigits].
  set (c := Z.of_nat (nat_of_ascii ch)) in *.
  destruct ((48 <=? c) && (c <=? 57)) eqn:Hdig.
  - apply andb_prop in Hdig. destruct Hdig as [H1 H2].
    apply Z.leb_le in H1, H2.
    replace ((48 <=? nat_of_ascii ch)%nat && (nat_of_ascii ch <=? 57)%nat) with true.
    2:{ symmetry. apply andb_true_intro.
        split; apply Nat.leb_le; unfold c in *; lia. }
    cbn [andb].
    destruct (c - 48 >=? 10); [discriminate|].
    destruct (n >=? strconv.maxUint64 / 10 + 1); [discriminate|].
    match type of H with
    | (if ?b then _ else _) = _ => destruct b; [discriminate|]
    end.
    eapply IH. exact H.
  - exfalso.
    destruct ((97 <=? strconv.lower c) && (strconv.lower c <=? 122)) eqn:Hlet;
      [|discriminate].
    apply andb_prop in Hlet. destruct Hlet as [H1 _]. apply Z.leb_le in H1.
    destruct (Z.geb_spec (strconv.lower c - 97 + 10) 10); [discriminate|lia].
Qed.

Lemma parseUintLoop_range (s : string) :
  forall n v, strconv.parseUintLoop s n = (v, Some strconv.ErrRange) ->
              v = strconv.maxUint64.
Proof.
  induction s as [|ch s IH]; intros n v H; [discriminate|].
  cbn [strconv.parseUintLoop] in H.
  match type of H with
  | match ?dg with _ => _ end = _ => destruct dg as [d|]; [|discriminate]
  end.
  destruct (d >=? 10); [discriminate|].
  destruct (n >=? strconv.maxUint64 / 10 + 1); [congruence|].
  match type of H with
  | (if ?b then _ else _) = _ => destruct b; [congruence|]
  end.
  eapply IH. exact H.
Qed.

(** X6.  [StringToInt64] gives a value without an error only for a text
    made of an optional sign and one or more decimal digits, and then the
    value is an [int64]; whenever it gives an error, the value is 0. *)
Theorem StringToInt64_accepts_only_decimals (s : string) (i : Z)
  (err : option strconv.NumError) :
  StringToInt64 s = (i, err) ->
  match err with
  | Some _ => i = 0
  | None =>
      int64_range i
      /\ exists sign digits,
           s = (sign ++ digits)%string
           /\ (sign = EmptyString \/ sign = "+"%string \/ sign = "-"%string)
           /\ digits <> EmptyString /\ allDigits digits = true
  end.
Proof.
  unfold StringToInt64.
  destruct (strconv.ParseInt s) as [v e] eqn:Hparse.
  destruct e as [e|]; intros [= <- <-]; [reflexivity|].
  unfold strconv.ParseInt in Hparse.
  destruct s as [|c0 rest]; [discriminate|].
  set (split := if Ascii.eqb c0 "+"%char then (false, rest)
                else if Ascii.eqb c0 "-"%char then (true, rest)
                else (false, String c0 rest)) in Hparse.
  assert (Hsplit : exists sign,
             String c0 rest = (sign ++ snd split)%string
             /\ (sign = EmptyString \/ sign = "+"%string \/ sign = "-"%string)).
  { unfold split.
    destruct (Ascii.eqb_spec c0 "+"%char) as [->|_];
      [exists "+"%string; cbn; auto|].
    destruct (Ascii.eqb_spec c0 "-"%char) as [->|_];
      [exists "-"%string; cbn; auto|].
    exists EmptyString. cbn. auto. }
  destruct split as [neg body]. cbn [snd] in Hsplit.
  destruct (strconv.ParseUint body) as [un uerr] eqn:Hu.
  assert (Hv : int64_range v /\ uerr = None).
  { destruct uerr as [[|]|].
    - discriminate.
    - assert (un = strconv.maxUint64) as ->.
      { unfold strconv.ParseUint in Hu. destruct body; [discriminate|].
        eapply parseUintLoop_range. exact Hu. }
      destruct neg; discriminate.
    - split; [|reflexivity].
      destruct (negb neg && (un >=? 2 ^ 63)); [discriminate|].
      destruct (neg && (un >? 2 ^ 63)); [discriminate|].
      injection Hparse as <-. destruct neg; [unfold neg64|]; apply wrap64_range. }
  destruct Hv as [Hrange ->]. split; [exact Hrange|].
  destruct Hsplit as [sign [Hs Hsign]].
  exists sign, body. split; [exact Hs|]. split; [exact Hsign|].
  unfold strconv.ParseUint in Hu. destruct body as [|b0 body]; [discriminate|].
  split; [discriminate|]. eapply parseUintLoop_success. exact Hu.
Qed.

Lemma StringToInt64_accepts_only_decimals_witness :
  match Some strconv.ErrSyntax with
  | Some _ => 0 = 0
  | None =>
      int64_range 0
      /\ exists sign digits,
           "12a"%string = (sign ++ digits)%string
           /\ (sign = EmptyString \/ sign = "+"%string \/ sign = "-"%string)
           /\ digits <> EmptyString /\ allDigits digits = true
  end.
Proof.
  apply (StringToInt64_accepts_only_decimals "12a" 0 (Some strconv.ErrSyntax)).
  reflexivity.
Defined.

(** ** listAllObjects *)

Lemma collectPages_pages (contents : list (list Object.t)) :
  forall objectList logged,
    collectPages (map inl contents) objectList logged
      = (objectList ++ List.concat contents, logged).
Proof.
  induction contents as [|page contents IH]; intros objectList logged; cbn.
  - now rewrite app_nil_r.
  - rewrite IH, <- app_assoc. reflexivity.
Qed.

Lemma collectPages_error (contents : list (list Object.t)) (err : string)
  (rest : list (list Object.t + string)) :
  forall objectList logged,
    collectPages (map inl contents ++ inr err :: rest) objectList logged
      = (objectList ++ List.concat contents, logged ++ [err]).
Proof.
  induction contents as [|page contents IH]; intros objectList logged; cbn.
  - now rewrite app_nil_r.
  - rewrite IH, <- app_assoc. reflexivity.
Qed.

Lemma lastByte_none (name : string) : lastByte name = None <-> name = EmptyString.
Proof.
  split; [|intros ->; reflexivity].
  induction name as [|c name IH]; [reflexivity|].
  cbn [lastByte]. destruct name; [discriminate|].
  intros H. apply IH in H. discriminate.
Qed.

Lemma filterPaths_keeps (objectList : list Object.t) :
  Forall (fun obj => Object.Key obj <> EmptyString) objectList ->
  filterPaths objectList
    = Returned (filter (fun obj => negb (endsInSlash (Object.Key obj))) objectList).
Proof.
  induction 1 as [|obj objectList Hkey _ IH]; [reflexivity|].
  cbn [filterPaths filter]. unfold endsInSlash.
  destruct (lastByte (Object.Key obj)) as [c|] eqn:E.
  - rewrite IH. destruct (Ascii.eqb c "/"); reflexivity.
  - apply lastByte_none in E. contradiction.
Qed.

Lemma filterPaths_empty_key (objectList : list Object.t) (obj : Object.t) :
  In obj objectList -> Object.Key obj = EmptyString ->
  filterPaths objectList = Panicked IndexOutOfRange.
Proof.
  intros Hin Hkey. induction objectList as [|o objectList IH]; [contradiction|].
  cbn [filterPaths]. destruct Hin as [->|Hin].
  - rewrite Hkey. reflexivity.
  - specialize (IH Hin).
    destruct (lastByte (Object.Key o)) as [c|]; [|reflexivity].
    rewrite IH. destruct (Ascii.eqb c "/"); reflexivity.
Qed.

Lemma numberFrom_nth (bucket : string) (cleanList : list Object.t) :
  forall i k o,
    0 <= i -> i + Z.of_nat (List.length cleanList) < 2 ^ 63 ->
    nth_error (numberFrom i bucket cleanList) k = Some o ->
    exists obj,
      nth_error cleanList k = Some obj
      /\ o = {| Key := Object.Key obj; ETag := Object.ETag obj; Size := Object.Size obj;
                Bucket := bucket; PartNum := i + Z.of_nat k + 1; Data := [];
                NoHeaderRequired := false |}.
Proof.
  induction cleanList as [|obj cleanList IH]; intros i k o Hi Hfit Hnth.
  - destruct k; discriminate.
  - cbn [List.length] in Hfit. cbn [numberFrom] in Hnth.
    assert (Hadd : add64 i 1 = i + 1) by (apply wrap64_small; unfold int64_range; lia).
    rewrite Hadd in Hnth.
    destruct k as [|k]; cbn [nth_error] in *.
    + injection Hnth as <-. exists obj. split; [reflexivity|]. f_equal. lia.
    + destruct (IH (i + 1) k o ltac:(lia) ltac:(lia) Hnth) as [obj' [Hobj ->]].
      exists obj'. split; [exact Hobj|]. f_equal. lia.
Qed.

Lemma numberFrom_objects (bucket : string) (cleanList : list Object.t) :
  forall i,
    map (fun o => {| Object.Key := Key o; Object.ETag := ETag o; Object.Size := Size o |})
        (numberFrom i bucket cleanList) = cleanList.
Proof.
  induction cleanList as [|[key etag size] cleanList IH]; intros i; [reflexivity|].
  cbn [numberFrom map]. rewrite IH. reflexivity.
Qed.

Lemma numberFrom_length (bucket : string) (cleanList : list Object.t) :
  forall i, List.length (numberFrom i bucket cleanList) = List.length cleanList.
Proof.
  induction cleanList as [|obj cleanList IH]; intros i; [reflexivity|].
  cbn [numberFrom List.length]. now rewrite IH.
Qed.

(** X7.  When every page comes and no key is empty, [listAllObjects]
    returns, in listing order, exactly the listed objects whose key does
    not end in a slash, each under the given bucket and numbered 1, 2, ...
    in that order. *)
Theorem listAllObjects_filters_and_numbers
  (contents : list (list Object.t)) (bucket : string) :
  Forall (fun obj => Object.Key obj <> EmptyString) (List.concat contents) ->
  Z.of_nat (List.length (List.concat contents)) < 2 ^ 63 ->
  exists result,
    listAllObjects (map inl contents) bucket = ([], Returned result)
    /\ map (fun o => {| Object.Key := Key o; Object.ETag := ETag o;
                        Object.Size := Size o |}) result
       = filter (fun obj => negb (endsInSlash (Object.Key obj))) (List.concat contents)
    /\ forall k o,
         nth_error result k = Some o ->
         PartNum o = Z.of_nat k + 1 /\ Bucket o = bucket
         /\ endsInSlash (Key o) = false.
Proof.
  intros Hkeys Hfit.
  set (keep := fun obj => negb (endsInSlash (Object.Key obj))).
  exists (numberFrom 0 bucket (filter keep (List.concat contents))).
  unfold listAllObjects. rewrite collectPages_pages. cbn [app].
  rewrite filterPaths_keeps by assumption. cbn [bind]. fold keep.
  split; [reflexivity|]. split; [apply numberFrom_objects|].
  intros k o Hnth.
  pose proof (filter_length_le keep (List.concat contents)) as Hle.
  destruct (numberFrom_nth bucket (filter keep (List.concat contents)) 0 k o
              ltac:(lia) ltac:(lia) Hnth) as [obj [Hobj ->]].
  cbn [PartNum Bucket Key]. split; [lia|]. split; [reflexivity|].
  apply nth_error_In in Hobj. apply filter_In in Hobj. destruct Hobj as [_ Hk].
  unfold keep in Hk. now apply negb_true_iff in Hk.
Qed.

Lemma listAllObjects_filters_and_numbers_witness :
  exists result,
    listAllObjects
      (map inl [samplePage]) "bucket" = ([], Returned result)
    /\ map (fun o => {| Object.Key := Key o; Object.ETag := ETag o;
                        Object.Size := Size o |}) result
       = filter (fun obj => negb (endsInSlash (Object.Key obj)))
           (List.concat [samplePage])
    /\ forall k o,
         nth_error result k = Some o ->
         PartNum o = Z.of_nat k + 1 /\ Bucket o = "bucket"%string
         /\ endsInSlash (Key o) = false.
Proof.
  apply (listAllObjects_filters_and_numbers [samplePage] "bucket").
  - repeat constructor; discriminate.
  - vm_compute. reflexivity.
Defined.

(** X8.  When the request of a page fails, [listAllObjects] logs the
    error and returns what the pages before it give: the failing page and
    all later ones are left out and no error is returned. *)
Theorem listAllObjects_stops_at_failed_page
  (contents : list (list Object.t)) (err : string)
  (rest : list (list Object.t + string)) (bucket : string) :
  listAllObjects (map inl contents ++ inr err :: rest) bucket
    = ([err], snd (listAllObjects (map inl contents) bucket)).
Proof.
  unfold listAllObjects. rewrite collectPages_error, collectPages_pages. reflexivity.
Qed.

(** X9.  An empty key anywhere in the listing ends [listAllObjects] in an
    index panic: the last byte of the key is read without a check. *)
Theorem listAllObjects_empty_key_panics
  (contents : list (list Object.t)) (bucket : string) (obj : Object.t) :
  In obj (List.concat contents) -> Object.Key obj = EmptyString ->
  listAllObjects (map inl contents) bucket = ([], Panicked IndexOutOfRange).
Proof.
  intros Hin Hkey. unfold listAllObjects. rewrite collectPages_pages. cbn [app].
  rewrite (filterPaths_empty_key _ obj Hin Hkey). reflexivity.
Qed.

Lemma listAllObjects_empty_key_panics_witness :
  listAllObjects
    (map inl [[{| Object.Key := "a"; Object.ETag := "e"; Object.Size := 1 |}];
              [{| Object.Key := EmptyString; Object.ETag := "e"; Object.Size := 0 |}]])
    "bucket" = ([], Panicked IndexOutOfRange).
Proof.
  apply (listAllObjects_empty_key_panics _ "bucket"
           {| Object.Key := EmptyString; Object.ETag := "e"; Object.Size := 0 |}).
  - cbn. auto.
  - reflexivity.
Defined.

(** ** byPartNum *)

Lemma index_returned (A : Type) (a : list A) (i : Z) (x : A) :
  index a i = Returned x <-> 0 <= i /\ nth_error a (Z.to_nat i) = Some x.
Proof.
  unfold index. destruct (Z.ltb_spec i 0).
  - split; [discriminate|lia].
  - destruct (nth_error a (Z.to_nat i)); split.
    + intros [= ->]. auto.
    + intros [_ [= ->]]. reflexivity.
    + discriminate.
    + intros [_ H']. discriminate.
Qed.

Lemma index_in_range (A : Type) (a : list A) (i : Z) :
  0 <= i < Z.of_nat (List.length a) -> exists x, index a i = Returned x.
Proof.
  intros Hi. destruct (nth_error a (Z.to_nat i)) as [x|] eqn:E.
  - exists x. apply index_returned. split; [lia|exact E].
  - apply nth_error_None in E. lia.
Qed.

Lemma index_out_of_range (A : Type) (a : list A) (i : Z) :
  i < 0 \/ Z.of_nat (List.length a) <= i -> index a i = Panicked IndexOutOfRange.
Proof.
  intros Hi. unfold index. destruct (Z.ltb_spec i 0); [reflexivity|].
  destruct (nth_error a (Z.to_nat i)) eqn:E; [|reflexivity].
  assert (nth_error a (Z.to_nat i) <> None) as Hn by congruence.
  apply nth_error_Some in Hn. lia.
Qed.

Lemma Less_returned (a : list S3Obj) (i j : Z) (b : bool) :
  byPartNum.Less a i j = Returned b <->
  exists x y, index a i = Returned x /\ index a j = Returned y
              /\ b = (PartNum x <? PartNum y).
Proof.
  unfold byPartNum.Less. split.
  - destruct (index a i) as [x| |]; cbn; try discriminate.
    destruct (index a j) as [y| |]; cbn; try discriminate.
    intros [= <-]. eauto.
  - intros [x [y [-> [-> ->]]]]. reflexivity.
Qed.

(** X10.  The list that [listAllObjects] returns is in the order of
    [byPartNum]: of two positions, the earlier one is [Less] than the
    later one. *)
Theorem listAllObjects_sorted_by_PartNum
  (pages : list (list Object.t + string)) (bucket : string)
  (logged : list string) (result : list S3Obj) (i j : Z) :
  listAllObjects pages bucket = (logged, Returned result) ->
  Z.of_nat (List.length result) < 2 ^ 63 ->
  0 <= i < j -> j < byPartNum.Len result ->
  byPartNum.Less result i j = Returned true.
Proof.
  unfold listAllObjects, byPartNum.Len.
  destruct (collectPages pages [] []) as [objectList lg].
  destruct (filterPaths objectList) as [cleanList| |]; cbn [bind]; try discriminate.
  intros [= _ <-] Hfit Hij Hj. rewrite numberFrom_length in Hfit, Hj.
  destruct (index_in_range _ (numberFrom 0 bucket cleanList) i) as [x Hx];
    [rewrite numberFrom_length; lia|].
  destruct (index_in_range _ (numberFrom 0 bucket cleanList) j) as [y Hy];
    [rewrite numberFrom_length; lia|].
  apply Less_returned. exists x, y. split; [exact Hx|]. split; [exact Hy|].
  apply index_returned in Hx, Hy. destruct Hx as [_ Hx]. destruct Hy as [_ Hy].
  destruct (numberFrom_nth bucket cleanList 0 _ x ltac:(lia) ltac:(lia) Hx) as [? [_ ->]].
  destruct (numberFrom_nth bucket cleanList 0 _ y ltac:(lia) ltac:(lia) Hy) as [? [_ ->]].
  cbn [PartNum]. symmetry. apply Z.ltb_lt. lia.
Qed.

Lemma listAllObjects_sorted_by_PartNum_witness :
  byPartNum.Less samplePartsListed 0 1 = Returned true.
Proof.
  apply (listAllObjects_sorted_by_PartNum [inl samplePage] "bucket" [] samplePartsListed 0 1).
  - reflexivity.
  - vm_compute. reflexivity.
  - lia.
  - vm_compute. reflexivity.
Defined.

(** X11.  [Less] is a strict weak order on the positions of the list, as
    sorting needs: no position is less than itself, it is asymmetric and
    transitive, so is not being less, and it compares the part numbers; a
    position outside the list is a panic. *)
Theorem byPartNum_Less_strict_weak_order (a : list S3Obj) :
  (forall i, 0 <= i < byPartNum.Len a -> byPartNum.Less a i i = Returned false)
  /\ (forall i j, byPartNum.Less a i j = Returned true ->
                  byPartNum.Less a j i = Returned false)
  /\ (forall i j k, byPartNum.Less a i j = Returned true ->
                    byPartNum.Less a j k = Returned true ->
                    byPartNum.Less a i k = Returned true)
  /\ (forall i j k, byPartNum.Less a i j = Returned false ->
                    byPartNum.Less a j k = Returned false ->
                    byPartNum.Less a i k = Returned false)
  /\ (forall i j x y, index a i = Returned x -> index a j = Returned y ->
                      byPartNum.Less a i j = Returned (PartNum x <? PartNum y))
  /\ (forall i j, i < 0 \/ byPartNum.Len a <= i \/ j < 0 \/ byPartNum.Len a <= j ->
                  byPartNum.Less a i j = Panicked IndexOutOfRange).
Proof.
  unfold byPartNum.Len.
  split; [|split; [|split; [|split; [|split]]]].
  - intros i Hi. destruct (index_in_range _ a i Hi) as [x Hx].
    apply Less_returned. exists x, x. rewrite Z.ltb_irrefl. auto.
  - intros i j H. apply Less_returned in H. destruct H as [x [y [Hx [Hy Hlt]]]].
    apply Less_returned. exists y, x. split; [exact Hy|]. split; [exact Hx|].
    symmetry in Hlt. apply Z.ltb_lt in Hlt. symmetry. apply Z.ltb_ge. lia.
  - intros i j k H1 H2.
    apply Less_returned in H1. destruct H1 as [x [y [Hx [Hy Hlt]]]].
    apply Less_returned in H2. destruct H2 as [y' [z [Hy' [Hz Hlt']]]].
    rewrite Hy in Hy'. injection Hy' as <-.
    apply Less_returned. exists x, z. split; [exact Hx|]. split; [exact Hz|].
    symmetry in Hlt, Hlt'. apply Z.ltb_lt in Hlt, Hlt'. symmetry. apply Z.ltb_lt. lia.
  - intros i j k H1 H2.
    apply Less_returned in H1. destruct H1 as [x [y [Hx [Hy Hlt]]]].
    apply Less_returned in H2. destruct H2 as [y' [z [Hy' [Hz Hlt']]]].
    rewrite Hy in Hy'. injection Hy' as <-.
    apply Less_returned. exists x, z. split; [exact Hx|]. split; [exact Hz|].
    symmetry in Hlt, Hlt'. apply Z.ltb_ge in Hlt, Hlt'. symmetry. apply Z.ltb_ge. lia.
  - intros i j x y Hx Hy. apply Less_returned. eauto.
  - intros i j Hout. unfold byPartNum.Less.
    destruct (Z_lt_le_dec i 0) as [Hi|Hi];
      [rewrite index_out_of_range by lia; reflexivity|].
    destruct (Z_lt_le_dec i (Z.of_nat (List.length a))) as [Hi'|Hi'];
      [|rewrite index_out_of_range by lia; reflexivity].
    destruct (index_in_range _ a i ltac:(lia)) as [x ->]. cbn [bind].
    rewrite index_out_of_range by lia. reflexivity.
Qed.

Lemma assign_length (A : Type) (a : list A) :
  forall i x, List.length (assign a i x) = List.length a.
Proof.
  induction a as [|y a IH]; intros i x; [reflexivity|].
  destruct i; cbn; [reflexivity|now rewrite IH].
Qed.

Lemma nth_error_assign_same (A : Type) (a : list A) :
  forall i x, (i < List.length a)%nat -> nth_error (assign a i x) i = Some x.
Proof.
  induction a as [|y a IH]; intros i x Hi; [cbn in Hi; lia|].
  destruct i; cbn; [reflexivity|]. apply IH. cbn in Hi. lia.
Qed.

Lemma nth_error_assign_other (A : Type) (a : list A) :
  forall i k x, k <> i -> nth_error (assign a i x) k = nth_error a k.
Proof.
  induction a as [|y a IH]; intros i k x Hk; [reflexivity|].
  destruct i, k; cbn; try reflexivity; try congruence.
  apply IH. congruence.
Qed.

Lemma assign_moves_one (A : Type) (h : A) (t : list A) :
  forall j y, nth_error t j = Some y -> Permutation (h :: t) (y :: assign t j h).
Proof.
  induction t as [|z t IH]; intros j y Hj; [destruct j; discriminate|].
  destruct j as [|j]; cbn in *.
  - injection Hj as ->. apply perm_swap.
  - etransitivity; [apply perm_swap|].
    etransitivity; [apply perm_skip, (IH j y Hj)|]. apply perm_swap.
Qed.

Lemma assign_twice_permutes (A : Type) (a : list A) :
  forall i j x y,
    nth_error a i = Some x -> nth_error a j = Some y ->
    Permutation a (assign (assign a i y) j x).
Proof.
  induction a as [|h a IH]; intros i j x y Hi Hj; [destruct i; discriminate|].
  destruct i as [|i], j as [|j]; cbn in *.
  - injection Hi as ->. injection Hj as ->. reflexivity.
  - injection Hi as ->. apply assign_moves_one. exact Hj.
  - injection Hj as ->. apply assign_moves_one. exact Hi.
  - apply perm_skip. apply IH; assumption.
Qed.

(** X12.  On two positions of the list, [Swap] returns a rearrangement
    of the same parts in which the two have changed places and all others
    are where they were; swapping again gives the list back. *)
Theorem byPartNum_Swap_exchanges (a : list S3Obj) (i j : Z) :
  0 <= i < byPartNum.Len a -> 0 <= j < byPartNum.Len a ->
  exists a',
    byPartNum.Swap a i j = Returned a'
    /\ Permutation a a'
    /\ byPartNum.Len a' = byPartNum.Len a
    /\ index a' i = index a j
    /\ index a' j = index a i
    /\ (forall k, k <> i -> k <> j -> index a' k = index a k)
    /\ byPartNum.Swap a' i j = Returned a.
Proof.
  unfold byPartNum.Len. intros Hi Hj.
  destruct (index_in_range _ a i Hi) as [x Hx].
  destruct (index_in_range _ a j Hj) as [y Hy].
  pose proof (proj1 (index_returned _ a i x) Hx) as [_ Hnx].
  pose proof (proj1 (index_returned _ a j y) Hy) as [_ Hny].
  set (a' := assign (assign a (Z.to_nat i) y) (Z.to_nat j) x).
  assert (Hlen : List.length a' = List.length a)
    by (unfold a'; now rewrite !assign_length).
  assert (Hnth : forall k,
             nth_error a' k =
               if (k =? Z.to_nat j)%nat then Some x
               else if (k =? Z.to_nat i)%nat then Some y
               else nth_error a k).
  { intros k. unfold a'.
    destruct (Nat.eqb_spec k (Z.to_nat j)) as [->|Hkj].
    - apply nth_error_assign_same. rewrite assign_length. lia.
    - rewrite nth_error_assign_other by assumption.
      destruct (Nat.eqb_spec k (Z.to_nat i)) as [->|Hki].
      + apply nth_error_assign_same. lia.
      + now rewrite nth_error_assign_other. }
  assert (Hidx : forall k, index a' k =
             if k =? j then Returned x else if k =? i then Returned y else index a k).
  { intros k. unfold index. destruct (Z.ltb_spec k 0) as [Hk|Hk].
    - destruct (Z.eqb_spec k j); [lia|]. destruct (Z.eqb_spec k i); [lia|]. reflexivity.
    - rewrite Hnth.
      destruct (Z.eqb_spec k j) as [->|Hkj].
      + now rewrite Nat.eqb_refl.
      + destruct (Nat.eqb_spec (Z.to_nat k) (Z.to_nat j)); [lia|].
        destruct (Z.eqb_spec k i) as [->|Hki].
        * now rewrite Nat.eqb_refl.
        * destruct (Nat.eqb_spec (Z.to_nat k) (Z.to_nat i)); [lia|]. reflexivity. }
  exists a'.
  split; [unfold byPartNum.Swap; rewrite Hy, Hx; reflexivity|].
  split; [apply assign_twice_permutes; assumption|].
  split; [now rewrite Hlen|].
  split.
  { rewrite Hidx, Hy. destruct (Z.eqb_spec i j) as [->|_].
    - congruence.
    - now rewrite Z.eqb_refl. }
  split; [rewrite Hidx, Z.eqb_refl; now rewrite Hx|].
  split.
  { intros k Hki Hkj. rewrite Hidx.
    destruct (Z.eqb_spec k j); [contradiction|].
    destruct (Z.eqb_spec k i); [contradiction|]. reflexivity. }
  unfold byPartNum.Swap.
  assert (Hj' : index a' j = Returned x) by (rewrite Hidx, Z.eqb_refl; reflexivity).
  assert (Hi' : index a' i = Returned y).
  { rewrite Hidx. destruct (Z.eqb_spec i j) as [->|_].
    - congruence.
    - now rewrite Z.eqb_refl. }
  rewrite Hj', Hi'. cbn [bind]. f_equal.
  apply nth_error_ext. intros k.
  destruct (Nat.eqb_spec k (Z.to_nat j)) as [->|Hkj].
  - rewrite nth_error_assign_same by (rewrite assign_length; lia). now rewrite Hny.
  - rewrite nth_error_assign_other by assumption.
    destruct (Nat.eqb_spec k (Z.to_nat i)) as [->|Hki].
    + rewrite nth_error_assign_same by lia. now rewrite Hnx.
    + rewrite nth_error_assign_other by assumption. rewrite Hnth.
      destruct (Nat.eqb_spec k (Z.to_nat j)); [contradiction|].
      destruct (Nat.eqb_spec k (Z.to_nat i)); [contradiction|]. reflexivity.
Qed.

Lemma byPartNum_Swap_exchanges_witness :
  exists a',
    byPartNum.Swap samplePartsListed 0 1 = Returned a'
    /\ Permutation samplePartsListed a'
    /\ byPartNum.Len a' = byPartNum.Len samplePartsListed
    /\ index a' 0 = index samplePartsListed 1
    /\ index a' 1 = index samplePartsListed 0
    /\ (forall k, k <> 0 -> k <> 1 -> index a' k = index samplePartsListed k)
    /\ byPartNum.Swap a' 0 1 = Returned samplePartsListed.
Proof.
  apply (byPartNum_Swap_exchanges samplePartsListed 0 1);
    unfold byPartNum.Len; cbn; lia.
Defined.

(** ** ExtractBucketAndPath and loadFile *)

Lemma string_app_nil_r (s : string) : (s ++ EmptyString)%string = s.
Proof. induction s as [|c s IH]; cbn; [reflexivity|now rewrite IH]. Qed.

Lemma substring_prefix (b rest : string) :
  String.substring 0 (String.length b) (b ++ rest) = b.
Proof.
  induction b as [|c b IH]; cbn.
  - destruct rest; reflexivity.
  - now rewrite IH.
Qed.

Lemma consumed_app (b rest : string) : regexp.consumed (b ++ rest) rest = b.
Proof.
  unfold regexp.consumed. rewrite string_length_app.
  replace (String.length b + String.length rest - String.length rest)%nat
    with (String.length b) by lia.
  apply substring_prefix.
Qed.

(** A greedy star over single characters takes the whole run of characters
    that its body accepts, when the rest of the pattern matches behind it. *)
Lemma starLoop_takes_run
  (body : string -> regexp.submatches
          -> (string -> regexp.submatches -> option regexp.submatches)
          -> option regexp.submatches)
  (k : string -> regexp.submatches -> option regexp.submatches)
  (c : ascii) (rest : string) (caps : regexp.submatches) :
  (forall x s k', Ascii.eqb x c = false -> body (String x s) caps k' = k' s caps) ->
  (forall k', body rest caps k' = None) ->
  k rest caps <> None ->
  forall b fuel,
    without c b = true -> (String.length b <= fuel)%nat ->
    regexp.starLoop body k fuel (b ++ rest) caps = k rest caps.
Proof.
  intros Hstep Hstop Hk.
  induction b as [|x b IH]; intros fuel Hb Hfuel.
  - cbn [append]. destruct fuel; cbn [regexp.starLoop]; [reflexivity|].
    now rewrite Hstop.
  - cbn [without] in Hb. apply andb_prop in Hb. destruct Hb as [Hx Hb].
    apply negb_true_iff in Hx.
    destruct fuel as [|fuel]; [cbn in Hfuel; lia|].
    cbn [append regexp.starLoop]. rewrite Hstep by assumption.
    cbn [String.length].
    destruct (Nat.ltb_spec (String.length (b ++ rest)) (S (String.length (b ++ rest))));
      [|lia].
    rewrite IH by (assumption || (cbn in Hfuel; lia)).
    destruct (k rest caps); [reflexivity|contradiction].
Qed.

Lemma run_rest_of_line (key : string) (caps : regexp.submatches) :
  without (ascii_of_nat 10) key = true ->
  regexp.run (regexp.Cap 2 (regexp.Star regexp.AnyNotNL)) key caps
    (fun _ caps' => Some caps') = Some ((2%nat, key) :: caps).
Proof.
  intros Hkey.
  assert (H : regexp.run (regexp.Cap 2 (regexp.Star regexp.AnyNotNL))
                (key ++ EmptyString) caps (fun _ caps' => Some caps')
              = Some ((2%nat, key) :: caps)).
  { cbn [regexp.run].
    rewrite (starLoop_takes_run _ _ (ascii_of_nat 10) EmptyString caps).
    - rewrite consumed_app. reflexivity.
    - intros x s k' Hx. cbn [regexp.run]. now rewrite Hx.
    - reflexivity.
    - discriminate.
    - exact Hkey.
    - rewrite string_app_nil_r. lia. }
  rewrite string_app_nil_r in H. exact H.
Qed.

Lemma run_slash_and_rest (key : string) (caps : regexp.submatches) :
  without (ascii_of_nat 10) key = true ->
  regexp.run
    (regexp.Cat (regexp.Quest (regexp.Lit "/"))
                (regexp.Cap 2 (regexp.Star regexp.AnyNotNL)))
    (String "/" key) caps (fun _ caps' => Some caps') = Some ((2%nat, key) :: caps).
Proof.
  intros Hkey.
  change (regexp.run (regexp.Cat ?a ?b) ?s ?c ?k)
    with (regexp.run a s c (fun s' caps' => regexp.run b s' caps' k)).
  change (regexp.run (regexp.Quest ?a) ?s ?c ?k)
    with (match regexp.run a s c k with Some found => Some found | None => k s c end).
  change (regexp.run (regexp.Lit "/") (String "/" key) caps ?k) with (k key caps).
  cbv beta. rewrite run_rest_of_line by assumption. reflexivity.
Qed.

Lemma run_no_slash_no_rest (caps : regexp.submatches) :
  regexp.run
    (regexp.Cat (regexp.Quest (regexp.Lit "/"))
                (regexp.Cap 2 (regexp.Star regexp.AnyNotNL)))
    EmptyString caps (fun _ caps' => Some caps') = Some ((2%nat, EmptyString) :: caps).
Proof. reflexivity. Qed.

(** The match of the pattern on a well-formed location. *)
Lemma ExtractBucketAndPath_location (b0 : ascii) (bucket tail key : string) :
  Ascii.eqb b0 (ascii_of_nat 10) = false ->
  without "/" bucket = true ->
  without (ascii_of_nat 10) key = true ->
  tail = EmptyString /\ key = EmptyString \/ tail = String "/" key ->
  ExtractBucketAndPath ("s3://" ++ String b0 bucket ++ tail) = (String b0 bucket, key).
Proof.
  intros Hb0 Hbucket Hkey Htail.
  unfold ExtractBucketAndPath.
  assert (Hrun : regexp.run extractS3 ("s3://" ++ String b0 bucket ++ tail) []
                   (fun _ caps => Some caps)
                 = Some [(2%nat, key); (1%nat, String b0 bucket)]).
  { unfold extractS3. cbn [append].
    do 5 (change (regexp.run (regexp.Cat (regexp.Lit ?c) ?r) (String ?c ?s) ?cs ?k)
            with (regexp.run r s cs k)).
    change (regexp.run (regexp.Cat ?a ?b) ?s ?c ?k)
      with (regexp.run a s c (fun s' caps' => regexp.run b s' caps' k)).
    change (regexp.run (regexp.Cap 1 ?a) ?s ?c ?k)
      with (regexp.run a s c
              (fun s' caps' => k s' ((1%nat, regexp.consumed s s') :: caps'))).
    change (regexp.run (regexp.Cat regexp.AnyNotNL ?b) (String b0 ?s) ?c ?k)
      with (if Ascii.eqb b0 (ascii_of_nat 10) then None else regexp.run b s c k).
    rewrite Hb0.
    change (regexp.run (regexp.Star ?a) ?s ?c ?k)
      with (regexp.starLoop (regexp.run a) k (String.length s) s c).
    rewrite (starLoop_takes_run _ _ "/"%char tail []).
    - cbv beta.
      change (String b0 (bucket ++ tail)) with (String b0 bucket ++ tail)%string.
      rewrite consumed_app.
      destruct Htail as [[-> ->] | ->].
      + apply run_no_slash_no_rest.
      + apply run_slash_and_rest. exact Hkey.
    - intros x s k' Hx. cbn [regexp.run]. rewrite Ascii.eqb_sym, Hx. reflexivity.
    - intros k'. destruct Htail as [[-> _] | ->]; reflexivity.
    - cbv beta.
      change (String b0 (bucket ++ tail)) with (String b0 bucket ++ tail)%string.
      rewrite consumed_app.
      destruct Htail as [[-> ->] | ->].
      + rewrite run_no_slash_no_rest. discriminate.
      + rewrite run_slash_and_rest by exact Hkey. discriminate.
    - exact Hbucket.
    - rewrite string_length_app. lia. }
  change (regexp.find extractS3 ?s)
    with (match regexp.run extractS3 s [] (fun _ caps => Some caps) with
          | Some caps => Some caps
          | None => match s with
                    | EmptyString => None
                    | String _ s' => regexp.find extractS3 s'
                    end
          end).
  rewrite Hrun. reflexivity.
Qed.

(** X13.  [ExtractBucketAndPath] takes a location apart again: from
    s3://bucket/key, with a bucket that is not empty, does not begin with a
    line feed and holds no slash, and a key without a line feed, it gives
    the bucket and the key; without a key, with or without the closing
    slash, it gives the bucket and the empty key. *)
Theorem ExtractBucketAndPath_round_trip (b0 : ascii) (bucket key : string) :
  Ascii.eqb b0 (ascii_of_nat 10) = false ->
  without "/" (String b0 bucket) = true ->
  without (ascii_of_nat 10) key = true ->
  ExtractBucketAndPath ("s3://" ++ String b0 bucket ++ "/" ++ key) = (String b0 bucket, key)
  /\ ExtractBucketAndPath ("s3://" ++ String b0 bucket) = (String b0 bucket, EmptyString)
  /\ ExtractBucketAndPath ("s3://" ++ String b0 bucket ++ "/")
     = (String b0 bucket, EmptyString).
Proof.
  intros Hb0 Hbucket Hkey.
  cbn [without] in Hbucket. apply andb_prop in Hbucket. destruct Hbucket as [_ Hbucket].
  split; [|split].
  - apply ExtractBucketAndPath_location; auto.
  - pose proof (ExtractBucketAndPath_location b0 bucket EmptyString EmptyString
                  Hb0 Hbucket eq_refl (or_introl (conj eq_refl eq_refl))) as H.
    rewrite string_app_nil_r in H. exact H.
  - apply ExtractBucketAndPath_location; auto.
Qed.

Lemma ExtractBucketAndPath_round_trip_witness :
  ExtractBucketAndPath ("s3://" ++ String "m" "y-bucket" ++ "/" ++ "dir/file.tar")
    = (String "m" "y-bucket", "dir/file.tar"%string)
  /\ ExtractBucketAndPath ("s3://" ++ String "m" "y-bucket")
     = (String "m" "y-bucket", EmptyString)
  /\ ExtractBucketAndPath ("s3://" ++ String "m" "y-bucket" ++ "/")
     = (String "m" "y-bucket", EmptyString).
Proof.
  apply (ExtractBucketAndPath_round_trip "m" "y-bucket" "dir/file.tar"); reflexivity.
Defined.

Lemma run_extractS3_needs_scheme (s : string) (caps : regexp.submatches)
  (k : string -> regexp.submatches -> option regexp.submatches) :
  String.prefix "s3://" s = false -> regexp.run extractS3 s caps k = None.
Proof.
  unfold extractS3. intros Hp.
  repeat (change (regexp.run (regexp.Cat (regexp.Lit ?c) ?r) ?t ?cs ?k')
            with (match t with
                  | String c' s' => if Ascii.eqb c c' then regexp.run r s' cs k' else None
                  | EmptyString => None
                  end);
          destruct s as [|? s]; [reflexivity|];
          cbn [String.prefix] in Hp;
          match type of Hp with
          | context [ascii_dec ?a ?b] =>
              destruct (ascii_dec a b) as [<-|Hne];
              [rewrite Ascii.eqb_refl
              |apply Ascii.eqb_neq in Hne; rewrite Hne; reflexivity]
          end).
  destruct s; discriminate.
Qed.

Lemma find_extractS3_needs_scheme (s : string) :
  Contains s "s3://" = false -> regexp.find extractS3 s = None.
Proof.
  induction s as [|c s IH]; intros Hc.
  - reflexivity.
  - cbn [Contains] in Hc. apply orb_false_iff in Hc. destruct Hc as [Hp Hc].
    cbn [regexp.find]. rewrite run_extractS3_needs_scheme by exact Hp.
    apply IH. exact Hc.
Qed.

(** X14.  A text that does not contain s3:// has no bucket and no key:
    [ExtractBucketAndPath] gives two empty strings. *)
Theorem ExtractBucketAndPath_without_scheme (s3url : string) :
  Contains s3url "s3://" = false ->
  ExtractBucketAndPath s3url = (EmptyString, EmptyString).
Proof.
  intros Hc. unfold ExtractBucketAndPath.
  now rewrite find_extractS3_needs_scheme.
Qed.

Lemma ExtractBucketAndPath_without_scheme_witness :
  ExtractBucketAndPath "/tmp/archive.tar" = (EmptyString, EmptyString).
Proof. apply (ExtractBucketAndPath_without_scheme "/tmp/archive.tar"). reflexivity. Defined.

(** X15.  [loadFile] on s3://bucket/key reads the whole object [key] of
    [bucket] from the store, with no range, and does not open a file; on a
    path that does not contain s3:// it opens the file and does not call
    the store. *)
Theorem loadFile_dispatch
  (GetObject : GetObjectInput.t -> option GetObjectOutput.t * option string)
  (osOpen : string -> list Byte.byte * option string)
  (b0 : ascii) (bucket key path : string) :
  Ascii.eqb b0 (ascii_of_nat 10) = false ->
  without "/" (String b0 bucket) = true ->
  without (ascii_of_nat 10) key = true ->
  Contains path "s3://" = false ->
  loadFile GetObject osOpen ("s3://" ++ String b0 bucket ++ "/" ++ key)
    = getObjectRange GetObject (String b0 bucket) key 0 0
  /\ getObjectParams (String b0 bucket) key 0 0
     = {| GetObjectInput.Key := key; GetObjectInput.Bucket := String b0 bucket;
          GetObjectInput.Range := None |}
  /\ loadFile GetObject osOpen path = Returned (osOpen path).
Proof.
  intros Hb0 Hbucket Hkey Hpath.
  cbn [without] in Hbucket. apply andb_prop in Hbucket. destruct Hbucket as [_ Hbucket].
  split; [|split; [reflexivity|]].
  - unfold loadFile.
    change ("s3://" ++ String b0 bucket ++ "/" ++ key)%string
      with ("s3://" ++ String b0 bucket ++ String "/" key)%string.
    change (Contains ("s3://" ++ String b0 bucket ++ String "/" key) "s3://") with true.
    cbv iota.
    rewrite (ExtractBucketAndPath_location b0 bucket (String "/" key) key) by auto.
    reflexivity.
  - unfold loadFile. rewrite Hpath. reflexivity.
Qed.

Lemma loadFile_dispatch_witness :
  loadFile (fun _ => (Some {| GetObjectOutput.Body := [Byte.x68; Byte.x69] |}, None))
    (fun _ => ([], Some "no such file"%string))
    ("s3://" ++ String "m" "y-bucket" ++ "/" ++ "dir/file.tar")
    = getObjectRange
        (fun _ => (Some {| GetObjectOutput.Body := [Byte.x68; Byte.x69] |}, None))
        (String "m" "y-bucket") "dir/file.tar" 0 0
  /\ getObjectParams (String "m" "y-bucket") "dir/file.tar" 0 0
     = {| GetObjectInput.Key := "dir/file.tar";
          GetObjectInput.Bucket := String "m" "y-bucket";
          GetObjectInput.Range := None |}
  /\ loadFile (fun _ => (Some {| GetObjectOutput.Body := [Byte.x68; Byte.x69] |}, None))
       (fun _ => ([], Some "no such file"%string)) "/tmp/archive.tar"
     = Returned ([], Some "no such file"%string).
Proof.
  apply (loadFile_dispatch
           (fun _ => (Some {| GetObjectOutput.Body := [Byte.x68; Byte.x69] |}, None))
           (fun _ => ([], Some "no such file"%string))
           "m" "y-bucket" "dir/file.tar" "/tmp/archive.tar"); reflexivity.
Defined.

(** ** deleteObjectList: the batches *)

(** X16.  With a store that deletes everything, [deleteObjectList] sends
    one request for every 1000 objects or rest of them, in order: request
    [k] carries the keys 1000 k to 1000 k + 999 under the bucket of the
    first of them.  Every request has 1 to 1000 keys, together they are the
    keys of the list, and the call returns no error. *)
Theorem deleteObjectList_batches
  (DeleteObjects :
     list DeleteObjectsInput.t -> DeleteObjectsInput.t -> DeleteObjectsOutput.t + string)
  (objectList : list S3Obj) (fuel : nat) :
  (forall calls req, exists response,
      DeleteObjects calls req = inl response
      /\ DeleteObjectsOutput.Errors response = []) ->
  ((List.length objectList + 999) / 1000 < fuel)%nat ->
  let calls := map (batchRequestOf objectList)
                   (seq 0 ((List.length objectList + 999) / 1000)) in
  deleteObjectList DeleteObjects fuel objectList = Some (calls, Returned None)
  /\ List.concat (map DeleteObjectsInput.Objects calls) = map Key objectList
  /\ Forall (fun req =>
               (1 <= List.length (DeleteObjectsInput.Objects req) <= 1000)%nat) calls.
Proof.
  intros Hok Hfuel. cbv zeta.
  assert (Hm : ((List.length objectList + 999) / 1000
                = (List.length objectList - 1000 * 0 + 999) / 1000)%nat)
    by (f_equal; lia).
  split; [|split].
  - unfold deleteObjectList. change 0%nat with (1000 * 0)%nat at 1.
    rewrite (deleteLoop_all_batches DeleteObjects objectList Hok) by lia.
    rewrite <- Hm. reflexivity.
  - rewrite map_map. unfold batchRequestOf. cbn [DeleteObjectsInput.Objects].
    rewrite <- (map_map (fun j => firstn 1000 (skipn (1000 * j) objectList)) (map Key)).
    rewrite <- concat_map.
    rewrite (batches_cover objectList _ 0%nat Hm). reflexivity.
  - apply Forall_forall. intros req Hin. apply in_map_iff in Hin.
    destruct Hin as [k [<- Hk]]. apply in_seq in Hk.
    unfold batchRequestOf. cbn [DeleteObjectsInput.Objects].
    rewrite length_map, length_firstn, length_skipn.
    assert (1000 * k < List.length objectList)%nat; [|lia].
    destruct (Nat.le_gt_cases (List.length objectList) (1000 * k)) as [Hle|Hgt];
      [|exact Hgt].
    exfalso.
    assert (Hdiv : ((List.length objectList + 999) / 1000 < S k)%nat); [|lia].
    apply Nat.Div0.div_lt_upper_bound. lia.
Qed.

Lemma deleteObjectList_batches_witness :
  let calls := map (batchRequestOf manyObjects)
                   (seq 0 ((List.length manyObjects + 999) / 1000)) in
  deleteObjectList deletesAll 4 manyObjects = Some (calls, Returned None)
  /\ List.concat (map DeleteObjectsInput.Objects calls) = map Key manyObjects
  /\ Forall (fun req =>
               (1 <= List.length (DeleteObjectsInput.Objects req) <= 1000)%nat) calls.
Proof.
  apply (deleteObjectList_batches deletesAll manyObjects 4).
  - intros calls req. exists (deniedKeys []). split; reflexivity.
  - vm_compute. lia.
Defined.

(** X17.  In a finished run of [deleteObjectList], a request that the
    store answered with a request error is the last request sent, and that
    error is what the call returns. *)
Theorem deleteObjectList_returns_request_error
  (DeleteObjects :
     list DeleteObjectsInput.t -> DeleteObjectsInput.t -> DeleteObjectsOutput.t + string)
  (fuel : nat) (objectList : list S3Obj)
  (calls pre post : list DeleteObjectsInput.t) (req : DeleteObjectsInput.t)
  (err : string) (o : outcome (option string)) :
  deleteObjectList DeleteObjects fuel objectList = Some (calls, o) ->
  calls = pre ++ req :: post ->
  DeleteObjects pre req = inr err ->
  post = [] /\ o = Returned (Some err).
Proof.
  unfold deleteObjectList. intros Hrun Hcalls Hd.
  apply deleteLoop_request_error_is_last in Hrun.
  destruct Hrun as [added [Heq Hadded]]. cbn [app] in Heq. subst calls.
  eapply Hadded; eauto.
Qed.

Lemma deleteObjectList_returns_request_error_witness :
  deleteObjectList throttleSecond 5 manyObjects
    = Some ([batchRequest 1000; batchRequest 1000], Returned (Some "SlowDown"%string))
  /\ (@nil DeleteObjectsInput.t = []
      /\ @Returned (option string) (Some "SlowDown"%string)
         = Returned (Some "SlowDown"%string)).
Proof.
  split; [vm_compute; reflexivity|].
  apply (deleteObjectList_returns_request_error throttleSecond 5 manyObjects
           [batchRequest 1000; batchRequest 1000] [batchRequest 1000] []
           (batchRequest 1000) "SlowDown" (Returned (Some "SlowDown"%string))).
  - vm_compute; reflexivity.
  - reflexivity.
  - reflexivity.
Defined.

(** X18.  With fuel for every batch, [deleteObjectList] finishes on every
    list and with every store, and never in a panic: every request it has
    sent holds a key, since it hands [_deleteObjectList], which reads
    [objectList[0]], only batches that hold an object. *)
Theorem deleteObjectList_never_panics
  (DeleteObjects :
     list DeleteObjectsInput.t -> DeleteObjectsInput.t -> DeleteObjectsOutput.t + string)
  (objectList : list S3Obj) (fuel : nat) :
  ((List.length objectList + 999) / 1000 < fuel)%nat ->
  exists calls o,
    deleteObjectList DeleteObjects fuel objectList = Some (calls, o)
    /\ (forall p, o <> Panicked p)
    /\ Forall (fun req => DeleteObjectsInput.Objects req <> []) calls.
Proof.
  intros Hfuel. unfold deleteObjectList.
  destruct (deleteLoop_finishes DeleteObjects objectList fuel 0 [])
    as [m [o [Hrun [Hin Hnp]]]].
  { replace (List.length objectList - 1000 * 0)%nat with (List.length objectList) by lia.
    exact Hfuel. }
  change 0%nat with (1000 * 0)%nat at 1. rewrite Hrun. cbn [app].
  eexists _, o. split; [reflexivity|]. split; [exact Hnp|].
  apply Forall_forall. intros req Hreq. apply in_map_iff in Hreq.
  destruct Hreq as [j [<- Hj]]. apply in_seq in Hj.
  specialize (Hin j ltac:(lia)).
  unfold batchRequestOf. cbn [DeleteObjectsInput.Objects].
  pose proof (proj2 (batch_slice objectList (1000 * j) Hin)) as Hne.
  destruct (firstn 1000 (skipn (1000 * j) objectList)); [contradiction|discriminate].
Qed.

Lemma deleteObjectList_never_panics_witness :
  exists calls o,
    deleteObjectList failSecondBatch 4 manyObjects = Some (calls, o)
    /\ (forall p, o <> Panicked p)
    /\ Forall (fun req => DeleteObjectsInput.Objects req <> []) calls.
Proof.
  apply (deleteObjectList_never_panics failSecondBatch manyObjects 4).
  vm_compute. lia.
Defined.

(** ** DeleteAllMultiparts *)

Section MultipartProperties.

Variable ListMultipartUploads : string -> list MultipartUpload.t + string.
Variable AbortMultipartUpload :
  list AbortMultipartUploadInput.t -> AbortMultipartUploadInput.t -> option string.
Variable Sprintf : string -> string.

Lemma abortUploads_all (bucket : string) :
  (forall sent input, AbortMultipartUpload sent input = None) ->
  forall uploads sent,
    Forall (fun upload => MultipartUpload.UploadId upload <> None) uploads ->
    abortUploads AbortMultipartUpload Sprintf bucket uploads sent
    = (sent ++ map (abortInputOf bucket) uploads, Returned None).
Proof.
  intros Hok. induction uploads as [|upload uploads IH]; intros sent Hids.
  - cbn. now rewrite app_nil_r.
  - inversion Hids as [|? ? Hid Hids']; subst.
    cbn [abortUploads map].
    destruct (MultipartUpload.UploadId upload) as [id|] eqn:Hupload; [|contradiction].
    cbv zeta. rewrite Hok. rewrite IH by exact Hids'.
    rewrite <- app_assoc. unfold abortInputOf at 2. rewrite Hupload. reflexivity.
Qed.

Lemma abortUploads_prefix (bucket : string) :
  forall uploads sent0 sent o,
    abortUploads AbortMultipartUpload Sprintf bucket uploads sent0 = (sent, o) ->
    exists n,
      sent = sent0 ++ map (abortInputOf bucket) (firstn n uploads)
      /\ forall pre input post err,
           map (abortInputOf bucket) (firstn n uploads) = pre ++ input :: post ->
           AbortMultipartUpload (sent0 ++ pre) input = Some err ->
           post = [] /\ o = Fatal (Sprintf err).
Proof.
  induction uploads as [|upload uploads IH]; intros sent0 sent o H.
  - cbn in H. injection H as <- <-. exists 0%nat. cbn. split; [now rewrite app_nil_r|].
    intros pre input post err Hsplit. destruct pre; discriminate.
  - cbn [abortUploads] in H.
    destruct (MultipartUpload.UploadId upload) as [id|] eqn:Hupload.
    2:{ injection H as <- <-. exists 0%nat. cbn. split; [now rewrite app_nil_r|].
        intros pre input post err Hsplit. destruct pre; discriminate. }
    cbv zeta in H.
    assert (Hinput :
      {| AbortMultipartUploadInput.Bucket := Some bucket;
         AbortMultipartUploadInput.Key := MultipartUpload.Key upload;
         AbortMultipartUploadInput.UploadId := Some id |}
      = abortInputOf bucket upload)
      by (unfold abortInputOf; rewrite Hupload; reflexivity).
    rewrite Hinput in H.
    destruct (AbortMultipartUpload sent0 (abortInputOf bucket upload)) as [err0|] eqn:Habort.
    + injection H as <- <-. exists 1%nat. cbn [firstn map]. split; [reflexivity|].
      intros pre input post err Hsplit Herr.
      destruct pre as [|x pre].
      * injection Hsplit as <- <-. rewrite app_nil_r in Herr.
        rewrite Habort in Herr. injection Herr as <-. auto.
      * injection Hsplit as _ Hsplit. destruct pre; discriminate.
    + apply IH in H. destruct H as [n [-> Hlast]].
      exists (S n). cbn [firstn map]. split; [now rewrite <- app_assoc|].
      intros pre input post err Hsplit Herr.
      destruct pre as [|x pre].
      * injection Hsplit as <- _. rewrite app_nil_r in Herr. congruence.
      * injection Hsplit as <- Hsplit.
        apply (Hlast pre input post err Hsplit).
        rewrite <- app_assoc. exact Herr.
Qed.

Lemma abortUploads_nil_id (bucket : string) :
  (forall sent input, AbortMultipartUpload sent input = None) ->
  forall upload after,
    MultipartUpload.UploadId upload = None ->
    forall before sent,
      Forall (fun upload => MultipartUpload.UploadId upload <> None) before ->
      abortUploads AbortMultipartUpload Sprintf bucket (before ++ upload :: after) sent
      = (sent ++ map (abortInputOf bucket) before, Panicked NilPointerDereference).
Proof.
  intros Hok upload after Hnil.
  induction before as [|first before IH]; intros sent Hids.
  - cbn [app abortUploads map]. rewrite Hnil. now rewrite app_nil_r.
  - inversion Hids as [|? ? Hid Hids']; subst.
    cbn [app abortUploads map].
    destruct (MultipartUpload.UploadId first) as [id|] eqn:Hfirst; [|contradiction].
    cbv zeta. rewrite Hok. rewrite IH by exact Hids'. rewrite <- app_assoc.
    unfold abortInputOf at 2. rewrite Hfirst. reflexivity.
Qed.

End MultipartProperties.

(** X19.  When the listing comes, every listed upload has an id and no
    abort fails, [DeleteAllMultiparts] aborts the listed uploads one by
    one in the order of the listing, each under the bucket asked for with
    the key and the id of the upload, and returns no error. *)
Theorem DeleteAllMultiparts_aborts_every_upload
  (ListMultipartUploads : string -> list MultipartUpload.t + string)
  (AbortMultipartUpload :
     list AbortMultipartUploadInput.t -> AbortMultipartUploadInput.t -> option string)
  (Sprintf : string -> string) (bucket : string) (uploads : list MultipartUpload.t) :
  ListMultipartUploads bucket = inl uploads ->
  Forall (fun upload => MultipartUpload.UploadId upload <> None) uploads ->
  (forall sent input, AbortMultipartUpload sent input = None) ->
  DeleteAllMultiparts ListMultipartUploads AbortMultipartUpload Sprintf bucket
  = (map (abortInputOf bucket) uploads, Returned None).
Proof.
  intros Hlist Hids Hok. unfold DeleteAllMultiparts. rewrite Hlist.
  now rewrite (abortUploads_all AbortMultipartUpload Sprintf bucket Hok uploads []).
Qed.

Lemma DeleteAllMultiparts_aborts_every_upload_witness :
  DeleteAllMultiparts (fun _ => inl twoUploads) (fun _ _ => None) (fun format => format)
    "bucket"
  = (map (abortInputOf "bucket") twoUploads, Returned None).
Proof.
  apply (DeleteAllMultiparts_aborts_every_upload
           (fun _ => inl twoUploads) (fun _ _ => None) (fun format => format)
           "bucket" twoUploads).
  - reflexivity.
  - repeat constructor; discriminate.
  - reflexivity.
Defined.

(** X20.  Whatever the store answers, the aborts that
    [DeleteAllMultiparts] sends are those of the first uploads of the
    listing, in order; an abort that the store refuses is the last one
    sent, and the call then ends in log.Fatalf with the text of that
    error as its format. *)
Theorem DeleteAllMultiparts_stops_at_refused_abort
  (ListMultipartUploads : string -> list MultipartUpload.t + string)
  (AbortMultipartUpload :
     list AbortMultipartUploadInput.t -> AbortMultipartUploadInput.t -> option string)
  (Sprintf : string -> string) (bucket : string) (uploads : list MultipartUpload.t)
  (sent : list AbortMultipartUploadInput.t) (o : outcome (option string)) :
  ListMultipartUploads bucket = inl uploads ->
  DeleteAllMultiparts ListMultipartUploads AbortMultipartUpload Sprintf bucket
  = (sent, o) ->
  (exists n, sent = map (abortInputOf bucket) (firstn n uploads))
  /\ forall pre input post err,
       sent = pre ++ input :: post ->
       AbortMultipartUpload pre input = Some err ->
       post = [] /\ o = Fatal (Sprintf err).
Proof.
  intros Hlist Hrun. unfold DeleteAllMultiparts in Hrun. rewrite Hlist in Hrun.
  apply abortUploads_prefix in Hrun. destruct Hrun as [n [Hsent Hlast]].
  cbn [app] in Hsent. split; [exists n; exact Hsent|].
  intros pre input post err Hsplit Herr. subst sent.
  exact (Hlast pre input post err Hsplit Herr).
Qed.

Lemma DeleteAllMultiparts_stops_at_refused_abort_witness :
  (exists n, [abortInputOf "bucket" firstUpload]
             = map (abortInputOf "bucket") (firstn n twoUploads))
  /\ forall pre input post err,
       [abortInputOf "bucket" firstUpload] = pre ++ input :: post ->
       (fun _ _ => Some "AccessDenied"%string) pre input = Some err ->
       post = [] /\ @Fatal (option string) "AccessDenied" = Fatal ((fun format => format) err).
Proof.
  apply (DeleteAllMultiparts_stops_at_refused_abort
           (fun _ => inl twoUploads) (fun _ _ => Some "AccessDenied"%string)
           (fun format => format) "bucket" twoUploads
           [abortInputOf "bucket" firstUpload] (Fatal "AccessDenied")).
  - reflexivity.
  - reflexivity.
Defined.

(** X21.  An upload without an id ends [DeleteAllMultiparts] in a nil
    dereference when its turn comes, in the line that logs it: the uploads
    before it have been aborted, and neither it nor any upload after it
    is. *)
Theorem DeleteAllMultiparts_nil_UploadId_panics
  (ListMultipartUploads : string -> list MultipartUpload.t + string)
  (AbortMultipartUpload :
     list AbortMultipartUploadInput.t -> AbortMultipartUploadInput.t -> option string)
  (Sprintf : string -> string) (bucket : string)
  (before after : list MultipartUpload.t) (upload : MultipartUpload.t) :
  ListMultipartUploads bucket = inl (before ++ upload :: after) ->
  Forall (fun upload => MultipartUpload.UploadId upload <> None) before ->
  MultipartUpload.UploadId upload = None ->
  (forall sent input, AbortMultipartUpload sent input = None) ->
  DeleteAllMultiparts ListMultipartUploads AbortMultipartUpload Sprintf bucket
  = (map (abortInputOf bucket) before, Panicked NilPointerDereference).
Proof.
  intros Hlist Hids Hnil Hok. unfold DeleteAllMultiparts. rewrite Hlist.
  now rewrite (abortUploads_nil_id AbortMultipartUpload Sprintf bucket Hok
                 upload after Hnil before [] Hids).
Qed.

Lemma DeleteAllMultiparts_nil_UploadId_panics_witness :
  DeleteAllMultiparts (fun _ => inl ([firstUpload] ++ namelessUpload :: [secondUpload]))
    (fun _ _ => None) (fun format => format) "bucket"
  = (map (abortInputOf "bucket") [firstUpload], Panicked NilPointerDereference).
Proof.
  apply (DeleteAllMultiparts_nil_UploadId_panics
           (fun _ => inl ([firstUpload] ++ namelessUpload :: [secondUpload]))
           (fun _ _ => None) (fun format => format) "bucket"
           [firstUpload] [secondUpload] namelessUpload).
  - reflexivity.
  - repeat constructor; discriminate.
  - reflexivity.
  - reflexivity.
Defined.

(** ** randomHex *)

Lemma hex_digit_is_hex (n : N) :
  (n < 16)%N ->
  (((48 <=? nat_of_ascii (hex.digit n)) && (nat_of_ascii (hex.digit n) <=? 57))
   || ((97 <=? nat_of_ascii (hex.digit n)) && (nat_of_ascii (hex.digit n) <=? 102)))%nat
  = true.
Proof.
  intros Hn.
  assert (Hcases : In n (map N.of_nat (seq 0 16))).
  { apply in_map_iff. exists (N.to_nat n). split; [lia|]. apply in_seq. lia. }
  cbn in Hcases.
  repeat (destruct Hcases as [<-|Hcases]; [reflexivity|]). contradiction.
Qed.

Lemma EncodeToString_length (src : list Byte.byte) :
  String.length (hex.EncodeToString src) = (2 * List.length src)%nat.
Proof.
  induction src as [|v src IH]; [reflexivity|].
  cbn [hex.EncodeToString String.length List.length]. rewrite IH. lia.
Qed.

Lemma EncodeToString_allHex (src : list Byte.byte) :
  allHex (hex.EncodeToString src) = true.
Proof.
  induction src as [|v src IH]; [reflexivity|].
  cbn [hex.EncodeToString allHex]. rewrite IH.
  rewrite !hex_digit_is_hex; [reflexivity| |].
  - change 15%N with (N.ones 4). rewrite N.land_ones.
    apply N.mod_upper_bound. discriminate.
  - rewrite N.shiftr_div_pow2.
    pose proof (Byte.to_N_bounded v) as Hv.
    apply N.Div0.div_lt_upper_bound. change (2 ^ 4 * 16)%N with 256%N. lia.
Qed.

(** X22.  When the random source gives no error, [randomHex n] returns a
    text of exactly [2 * n] characters, each one of 0 to 9 and a to f, and
    no error; when the source fails, it returns the empty text and the
    error of the source. *)
Theorem randomHex_two_digits_a_byte (randRead : nat -> list Byte.byte + string)
  (n : nat) :
  match randRead n with
  | inl _ =>
      exists text,
        randomHex randRead n = (text, None)
        /\ String.length text = (2 * n)%nat
        /\ allHex text = true
  | inr err => randomHex randRead n = (EmptyString, Some err)
  end.
Proof.
  unfold randomHex. destruct (randRead n) as [written|err]; [|reflexivity].
  eexists. split; [reflexivity|]. split.
  - rewrite EncodeToString_length. f_equal.
    rewrite length_firstn, length_app, length_skipn, repeat_length. lia.
  - apply EncodeToString_allHex.
Qed.

(** ** The records of the manifest *)

Lemma manifestLines_more_headers :
  forall (objectList headers extra : list S3Obj) (cur : Z),
    (List.length objectList <= List.length headers)%nat ->
    manifestLines cur (headers ++ extra) objectList
    = manifestLines cur headers objectList.
Proof.
  induction objectList as [|obj objectList IH]; intros headers extra cur Hlen;
    [reflexivity|].
  destruct headers as [|hdr headers]; [cbn in Hlen; lia|].
  cbn [manifestLines app]. cbn [List.length] in Hlen.
  rewrite IH by lia. reflexivity.
Qed.

(** X23.  With a header for every object, [createCSVManifest] writes one
    record for every object, in the order of the list: the key, an offset
    and the size in decimal, and the ETag.  [StringToInt64] reads the
    offset and the size of every record back without an error. *)
Theorem createCSVManifest_records_read_back
  (offset : Z) (headers objectList : list S3Obj) :
  (List.length objectList <= List.length headers)%nat ->
  Forall (fun obj => int64_range (Size obj)) objectList ->
  exists manifest,
    createCSVManifest offset headers objectList = Returned (csv.WriteAll manifest)
    /\ List.length manifest = List.length objectList
    /\ forall k obj,
         nth_error objectList k = Some obj ->
         exists currLocation,
           nth_error manifest k
           = Some [Key obj; fmtInt64 currLocation; fmtInt64 (Size obj); ETag obj]
           /\ StringToInt64 (fmtInt64 currLocation) = (currLocation, None)
           /\ StringToInt64 (fmtInt64 (Size obj)) = (Size obj, None).
Proof.
  intros Hlen Hsizes. unfold createCSVManifest.
  destruct (manifestLines_outcome objectList headers (manifestStart offset)) as [Hok _].
  destruct (Hok Hlen) as [manifest Hlines]. rewrite Hlines.
  exists manifest. split; [reflexivity|].
  apply manifestLines_records in Hlines. destruct Hlines as [Hcount Hrec].
  split; [exact Hcount|].
  intros k obj Hk. destruct (Hrec k obj Hk) as [off [Hoff Hline]].
  exists off. split; [exact Hline|].
  assert (Hsize : int64_range (Size obj)).
  { rewrite Forall_forall in Hsizes. apply Hsizes. eapply nth_error_In. exact Hk. }
  unfold StringToInt64. rewrite !ParseInt_fmtInt64 by assumption. auto.
Qed.

Lemma createCSVManifest_records_read_back_witness :
  exists manifest,
    createCSVManifest 512 twoHeaders twoObjects = Returned (csv.WriteAll manifest)
    /\ List.length manifest = List.length twoObjects
    /\ forall k obj,
         nth_error twoObjects k = Some obj ->
         exists currLocation,
           nth_error manifest k
           = Some [Key obj; fmtInt64 currLocation; fmtInt64 (Size obj); ETag obj]
           /\ StringToInt64 (fmtInt64 currLocation) = (currLocation, None)
           /\ StringToInt64 (fmtInt64 (Size obj)) = (Size obj, None).
Proof.
  apply (createCSVManifest_records_read_back 512 twoHeaders twoObjects).
  - vm_compute. lia.
  - repeat constructor; vm_compute; discriminate.
Defined.

(** X24.  [createCSVManifest] reads [headers] by the index of the object:
    it ends in an index panic exactly when there are fewer headers than
    objects, and headers beyond the last object change nothing. *)
Theorem createCSVManifest_headers_by_index
  (offset : Z) (headers extra objectList : list S3Obj) :
  (createCSVManifest offset headers objectList = Panicked IndexOutOfRange
   <-> (List.length headers < List.length objectList)%nat)
  /\ ((List.length objectList <= List.length headers)%nat ->
      createCSVManifest offset (headers ++ extra) objectList
      = createCSVManifest offset headers objectList).
Proof.
  destruct (createCSVManifest_outcome headers objectList offset) as [Hok Hpanic].
  split.
  - split; [|exact Hpanic].
    intros Hp. destruct (Nat.le_gt_cases (List.length objectList) (List.length headers))
      as [Hle|Hgt]; [|exact Hgt].
    destruct (Hok Hle) as [data Hdata]. congruence.
  - intros Hle. unfold createCSVManifest.
    now rewrite manifestLines_more_headers.
Qed.

(** ** The first part against the start of the entries *)

(** X25.  The offsets of a manifest serialized at the length of the
    manifest count the entries from [manifestStart] of that length.  With
    an empty [pad] and a header of one block, the first part that
    [buildFirstPart] makes of the manifest is exactly that long when the
    length of the manifest is not a multiple of 512, and one block longer
    when it is. *)
Theorem buildFirstPart_size_against_manifestStart
  (tarWriteHeader : tar.Header -> list Byte.byte + string)
  (md5hex : list Byte.byte -> string) (modTime changeTime accessTime : Z)
  (csvData block : list Byte.byte) :
  tarWriteHeader (firstPartHeader modTime changeTime accessTime csvData) = inl block ->
  List.length block = 512%nat ->
  Z.of_nat (List.length csvData) + 1536 < 2 ^ 63 ->
  exists obj,
    buildFirstPart [] tarWriteHeader md5hex modTime changeTime accessTime csvData
      = Returned obj
    /\ Size obj
       = if Z.of_nat (List.length csvData) mod 512 =? 0
         then manifestStart (Z.of_nat (List.length csvData)) + 512
         else manifestStart (Z.of_nat (List.length csvData)).
Proof.
  intros Hhdr Hblock Hfit. unfold buildFirstPart. rewrite Hhdr.
  eexists. split; [reflexivity|].
  cbn [Size AddData app]. unfold trailingPad.
  set (n := Z.of_nat (List.length csvData)) in *.
  assert (Hn : 0 <= n) by (unfold n; lia).
  rewrite (wrap64_small n) by (unfold int64_range; lia).
  pose proof (findPadding_bounds n) as Hb.
  pose proof (findPadding_mod n) as Hmod.
  assert (Hstart : manifestStart n = n + 512 + findPadding n).
  { unfold manifestStart, add64.
    rewrite (wrap64_small (n + 512)) by (unfold int64_range; lia).
    assert (Hsame : findPadding (n + 512) = findPadding n).
    { rewrite !findPadding_mod.
      replace (- (n + 512)) with (- n + (-1) * 512) by lia. apply Z_mod_plus_full. }
    rewrite Hsame. apply wrap64_small. unfold int64_range. lia. }
  assert (Hzero : findPadding n = 0 <-> n mod 512 = 0).
  { rewrite Hmod. split; intros H.
    - apply Z.mod_divide in H; [|lia]. destruct H as [q Hq].
      replace n with ((- q) * 512) by lia. apply Z_mod_mult.
    - apply Z.mod_divide in H; [|lia]. destruct H as [q Hq].
      rewrite Hq. replace (- (q * 512)) with ((- q) * 512) by lia. apply Z_mod_mult. }
  rewrite !length_app, Hblock, repeat_length. fold n.
  destruct (Z.eqb_spec (findPadding n) 0) as [Hp|Hp];
    destruct (Z.eqb_spec (n mod 512) 0) as [Hm|Hm].
  - rewrite Hstart, Hp. unfold blockSize.
    rewrite wrap64_small by (unfold int64_range; unfold n; lia). unfold n. lia.
  - exfalso. apply Hm, Hzero, Hp.
  - exfalso. apply Hp, Hzero, Hm.
  - rewrite Hstart. subst n.
    rewrite wrap64_small by (unfold int64_range; lia). lia.
Qed.

Lemma buildFirstPart_size_against_manifestStart_witness :
  exists obj,
    buildFirstPart [] oneBlockHeader noDigest 0 0 0 (repeat Byte.x61 512)
      = Returned obj
    /\ Size obj
       = if Z.of_nat (List.length (repeat Byte.x61 512)) mod 512 =? 0
         then manifestStart (Z.of_nat (List.length (repeat Byte.x61 512))) + 512
         else manifestStart (Z.of_nat (List.length (repeat Byte.x61 512))).
Proof.
  apply (buildFirstPart_size_against_manifestStart oneBlockHeader noDigest 0 0 0
           (repeat Byte.x61 512) (repeat Byte.x00 512)).
  - reflexivity.
  - reflexivity.
  - vm_compute. reflexivity.
Defined.

(** ** A read that fails *)

(** X26.  [getObjectRange] returns [output.Body] also when the store gave
    an error.  So [loadFile] on s3://bucket/key, when the store answers
    the read without an output, ends in a nil dereference whether or not
    an error came with it; and when the store gives an output, the call
    returns its body together with whatever error the store gave. *)
Theorem loadFile_read_without_output_panics
  (GetObject : GetObjectInput.t -> option GetObjectOutput.t * option string)
  (osOpen : string -> list Byte.byte * option string)
  (b0 : ascii) (bucket key : string) :
  Ascii.eqb b0 (ascii_of_nat 10) = false ->
  without "/" (String b0 bucket) = true ->
  without (ascii_of_nat 10) key = true ->
  let answer :=
    GetObject {| GetObjectInput.Key := key; GetObjectInput.Bucket := String b0 bucket;
                 GetObjectInput.Range := None |} in
  loadFile GetObject osOpen ("s3://" ++ String b0 bucket ++ "/" ++ key)
  = match fst answer with
    | None => Panicked NilPointerDereference
    | Some output => Returned (GetObjectOutput.Body output, snd answer)
    end.
Proof.
  intros Hb0 Hbucket Hkey. cbv zeta.
  cbn [without] in Hbucket. apply andb_prop in Hbucket. destruct Hbucket as [_ Hbucket].
  unfold loadFile.
  change ("s3://" ++ String b0 bucket ++ "/" ++ key)%string
    with ("s3://" ++ String b0 bucket ++ String "/" key)%string.
  change (Contains ("s3://" ++ String b0 bucket ++ String "/" key) "s3://") with true.
  cbv iota.
  rewrite (ExtractBucketAndPath_location b0 bucket (String "/" key) key) by auto.
  unfold getObject, getObjectRange.
  change (getObjectParams (String b0 bucket) key 0 0)
    with {| GetObjectInput.Key := key; GetObjectInput.Bucket := String b0 bucket;
            GetObjectInput.Range := None |}.
  destruct (GetObject _) as [[output|] [err|]]; reflexivity.
Qed.

Lemma loadFile_read_without_output_panics_witness :
  loadFile (fun _ => (None, Some "NoSuchKey"%string))
    (fun _ => ([], None)) ("s3://" ++ String "m" "y-bucket" ++ "/" ++ "dir/file.tar")
  = Panicked NilPointerDereference.
Proof.
  apply (loadFile_read_without_output_panics
           (fun _ => (None, Some "NoSuchKey"%string)) (fun _ => ([], None))
           "m" "y-bucket" "dir/file.tar"); reflexivity.
Defined.
